(** * majorca: request/response correlation over a browser debugging channel

    A shallow embedding of the Go packages [browser], [browser/chrome] and
    [browser/firefox].  Every method that takes the session mutex or blocks
    is embedded as a step function over its own program points, the session
    is one record of shared state, and a configuration is the session plus
    the goroutines running against it.  What the operating system, the
    network and the JSON/fmt libraries answer is an explicit input of each
    step. *)

From Stdlib Require Import ZArith String Ascii OrderedTypeEx Sorting.Sorted.
From Stdlib Require Import Floats.SpecFloat.
From stdpp Require Import gmap strings list fin_maps pretty.

Open Scope Z_scope.

Set Warnings "-register-all".

(** ** Go values that cross the wire *)

(** [error]: the values built by [fmt.Errorf] and the ones handed back by
    the libraries.  [Errorf] is a message without [%w]; [wrapError] is a
    message ending in [%w].  [UnmarshalTypeError] is [*json.UnmarshalTypeError]
    with its [Value], the dotted path [Field] from the root of the struct
    decoded into (empty at the root) and the text of its [Type]; its [Struct]
    is the name of the struct type holding the field, which is empty for the
    anonymous structs of [Eval]. *)
Inductive error : Type :=
  | Errorf (msg : string)
  | wrapError (msg : string) (err : error)
  | UnmarshalTypeError (value field type : string).

Fixpoint Error (e : error) : string :=
  match e with
  | Errorf msg => msg
  | wrapError msg err => msg +:+ Error err
  | UnmarshalTypeError value field type =>
      if String.eqb field ""
      then "json: cannot unmarshal " +:+ value +:+ " into Go value of type " +:+ type
      else "json: cannot unmarshal " +:+ value +:+ " into Go struct field ." +:+ field
           +:+ " of type " +:+ type
  end.

(** [%v] of an [error] interface value; the nil interface prints [<nil>]. *)
Definition fmt_v_error (e : option error) : string :=
  match e with
  | Some err => Error err
  | None => "<nil>"
  end.

(** [float64] as the IEEE 754 binary64 datum. *)
Abbreviation float64 := spec_float.

(** A JSON document as the decoder sees it: [json.RawMessage] holds the
    text of a valid document, represented here by its tree.  Object members
    stay in document order, duplicates included; a number is the text of its
    literal, which follows the grammar of JSON: an optional minus sign, digits,
    an optional fraction and an optional exponent. *)
Inductive JSON : Type :=
  | JNull
  | JBool (b : bool)
  | JNumber (literal : string)
  | JString (s : string)
  | JArray (items : list JSON)
  | JObject (members : list (string * JSON)).

(** What [json.Unmarshal] stores in an [interface{}]. *)
Inductive GoValue : Type :=
  | VNil
  | VBool (b : bool)
  | VFloat64 (f : float64)
  | VString (s : string)
  | VSlice (items : list GoValue)
  | VMap (entries : list (string * GoValue)).

(** A [map[string]interface{}] is kept as its entries in increasing key
    order, the order in which [fmt] prints a map. *)
Fixpoint map_put (k : string) (v : GoValue) (m : list (string * GoValue))
  : list (string * GoValue) :=
  match m with
  | [] => [(k, v)]
  | (k', v') :: rest =>
      match String.compare k k' with
      | Lt => (k, v) :: m
      | Eq => (k, v) :: rest
      | Gt => (k', v') :: map_put k v rest
      end
  end.

(** *** [strconv.ParseFloat(s, 64)] on a number literal *)

Definition digit_of (c : ascii) : option Z :=
  let n := Z.of_nat (nat_of_ascii c) in
  if (48 <=? n) && (n <=? 57) then Some (n - 48) else None.

(** The run of decimal digits at the head of [s]: its value on top of
    [acc], how many digits on top of [n], and what follows. *)
Fixpoint read_digits (s : string) (acc : Z) (n : Z) : Z * Z * string :=
  match s with
  | String c rest =>
      match digit_of c with
      | Some d => read_digits rest (10 * acc + d) (n + 1)
      | None => (acc, n, s)
      end
  | EmptyString => (acc, n, s)
  end.

Definition read_sign (s : string) : bool * string :=
  match s with
  | String "-" rest => (true, rest)
  | String "+" rest => (false, rest)
  | _ => (false, s)
  end.

(** The decimal branch of [strconv]'s [readFloat]: a literal as its sign,
    its digits read as one integer and the power of ten that goes with them;
    [None] where the text is no decimal number.  The literal of a JSON number
    always is one, and never takes the other branches of [ParseFloat]
    (hexadecimal digits, underscores, the names of the infinities and of
    NaN). *)
Definition readFloat (s : string) : option (bool * Z * Z) :=
  let '(neg, s1) := read_sign s in
  let '(ip, ni, s2) := read_digits s1 0 0 in
  let '(mant, nf, s3) :=
    match s2 with
    | String "." rest => read_digits rest ip 0
    | _ => (ip, 0, s2)
    end in
  if ni + nf =? 0 then None
  else
    match s3 with
    | EmptyString => Some (neg, mant, - nf)
    | String c rest =>
        if (Ascii.eqb c "e" || Ascii.eqb c "E")%bool then
          let '(eneg, s4) := read_sign rest in
          match read_digits s4 0 0 with
          | (ex, ne, EmptyString) =>
              if ne =? 0 then None
              else Some (neg, mant, (if eneg then - ex else ex) - nf)
          | _ => None
          end
        else None
    end.

(** The binary64 nearest to [mant * 10^exp10], ties to even.  Below one the
    quotient is taken with 64 bits to spare and its remainder kept as one
    sticky bit, which rounds as the exact value does. *)
Definition float64_of_decimal (neg : bool) (mant exp10 : Z) : float64 :=
  let sign z := if neg then - z else z in
  if mant =? 0 then S754_zero neg
  else if 0 <=? exp10 then binary_normalize 53 1024 (sign (mant * 10 ^ exp10)) 0 false
  else
    let den := 10 ^ (- exp10) in
    let sh := 64 + Z.log2_up den in
    let num := mant * 2 ^ sh in
    let sticky := if num mod den =? 0 then 0 else 1 in
    binary_normalize 53 1024 (sign (2 * (num / den) + sticky)) (- sh - 1) false.

(** [None] is a [*strconv.NumError]: the text is no number, or the number
    rounds to an infinity ([ErrRange]). *)
Definition ParseFloat (s : string) : option float64 :=
  match readFloat s with
  | Some (neg, mant, exp10) =>
      match float64_of_decimal neg mant exp10 with
      | S754_infinity _ => None
      | f => Some f
      end
  | None => None
  end.

(** [decodeState.convertNumber]. *)
Definition convertNumber (s : string) : error + float64 :=
  match ParseFloat s with
  | Some f => inr f
  | None => inl (UnmarshalTypeError ("number " +:+ s) "" "float64")
  end.

(** The value [valueInterface] builds; a number that does not convert
    leaves nil. *)
Fixpoint toGo (j : JSON) : GoValue :=
  match j with
  | JNull => VNil
  | JBool b => VBool b
  | JNumber s => match convertNumber s with inr f => VFloat64 f | inl _ => VNil end
  | JString s => VString s
  | JArray items => VSlice (map toGo items)
  | JObject members =>
      VMap (fold_left (fun acc kv => map_put kv.1 kv.2 acc)
                      (map (fun kv => (kv.1, toGo kv.2)) members) [])
  end.

(** The errors [valueInterface] meets on the way, in document order. *)
Fixpoint number_errors (j : JSON) : list error :=
  match j with
  | JNumber s => match convertNumber s with inr _ => [] | inl err => [err] end
  | JArray items => flat_map number_errors items
  | JObject members => flat_map (fun kv => number_errors kv.2) members
  | _ => []
  end.

(** ** [fmt.Sprintf("%v", v)] *)

Definition join (sep : string) (l : list string) : string :=
  match l with
  | [] => ""
  | x :: rest => fold_left (fun acc y => acc +:+ sep +:+ y) rest x
  end.

Fixpoint strip_zeros_rev (l : list ascii) : list ascii :=
  match l with
  | "0"%char :: rest => strip_zeros_rev rest
  | _ => l
  end.

(** Decimal digits without trailing zeros. *)
Definition strip_trailing_zeros (s : string) : string :=
  string_of_list_ascii
    (rev (strip_zeros_rev (rev (list_ascii_of_string s)))).

Definition zeros (n : nat) : string := string_of_list_ascii (replicate n "0"%char).

(** The digit of [digs] at position [i], ['0'] outside it. *)
Definition digit_at (digs : string) (i : Z) : string :=
  if (i <? 0) then "0"
  else match String.get (Z.to_nat i) digs with
       | Some c => String c EmptyString
       | None => "0"
       end.

(** [%e] layout of [strconv]: [d.ddd] then [e], a sign and at least two
    exponent digits. *)
Definition fmtE (neg : bool) (digs : string) (dp : Z) : string :=
  let nd := String.length digs in
  let exp := dp - 1 in
  (if neg then "-" else "") +:+
  digit_at digs 0 +:+
  (if (1 <? nd)%nat then "." +:+ String.substring 1 (nd - 1) digs else "") +:+
  "e" +:+ (if exp <? 0 then "-" else "+") +:+
  (if Z.abs exp <? 10 then "0" else "") +:+ pretty (Z.abs exp).

(** [%f] layout of [strconv] with [prec] fraction digits. *)
Definition fmtF (neg : bool) (digs : string) (dp : Z) (prec : Z) : string :=
  let nd := String.length digs in
  (if neg then "-" else "") +:+
  (if 0 <? dp
   then String.substring 0 (Z.to_nat dp) digs +:+ zeros (Z.to_nat dp - nd)
   else "0") +:+
  (if 0 <? prec
   then "." +:+ join "" (map (fun i => digit_at digs (dp + Z.of_nat i))
                             (seq 0 (Z.to_nat prec)))
   else "").

(** [%g] with the shortest digits: [%e] when the exponent is below [-4] or
    at least [6] (the precision [strconv] uses for that decision in
    shortest mode), [%f] otherwise. *)
Definition fmtG (neg : bool) (digs : string) (dp : Z) : string :=
  let nd := Z.of_nat (String.length digs) in
  let exp := dp - 1 in
  if (exp <? -4) || (6 <=? exp) then fmtE neg digs dp
  else fmtF neg digs dp (Z.max (nd - dp) 0).

(** The integer a finite float holds, when it holds one below [2^53] in
    magnitude. *)
Definition float64_int (m : positive) (e : Z) : option Z :=
  if 0 <=? e
  then (if Z.pos m * 2 ^ e <? 2 ^ 53 then Some (Z.pos m * 2 ^ e) else None)
  else if (Z.pos m mod 2 ^ (- e) =? 0) && (Z.pos m / 2 ^ (- e) <? 2 ^ 53)
       then Some (Z.pos m / 2 ^ (- e)) else None.

(** [strconv] generates the shortest digits that read back as the float
    [m * 2^e], and the position of the decimal point.  Where the float is an
    integer below [2^53] they are the digits of that integer without its
    trailing zeros (every such integer is a float64 and its neighbours are at
    most [1] away); elsewhere they are what the library answers, [ftoa]. *)
Definition shortest (ftoa : positive -> Z -> string * Z) (m : positive) (e : Z)
  : string * Z :=
  match float64_int m e with
  | Some z => (strip_trailing_zeros (pretty z), Z.of_nat (String.length (pretty z)))
  | None => ftoa m e
  end.

(** [roundShortest] of [strconv]: the float is [d], and every decimal
    between [lower] and [upper] (the ends too when the mantissa is even)
    reads back as it.  Walking down from the leading digit of [upper], the
    first position where cutting [d] off, or cutting it off and adding one,
    stays in that range gives the digits; where both do, [d] is rounded to
    the nearest, a tie going to the even digit.  [unit] is the weight of
    the position. *)
Fixpoint roundShortest (fuel : nat) (lower d upper : Z) (inclusive : bool) (unit : Z) : Z :=
  let down := d - d mod unit in
  let up := down + unit in
  let okdown := (lower <? down) || (inclusive && (lower =? down)) in
  let okup := (up <? upper) || (inclusive && (up =? upper)) in
  match okdown, okup with
  | true, true =>
      match Z.compare (2 * (d mod unit)) unit with
      | Lt => down
      | Gt => up
      | Eq => if Z.even (down / unit) then down else up
      end
  | true, false => down
  | false, true => up
  | false, false =>
      match fuel with
      | O => d
      | S fuel' => roundShortest fuel' lower d upper inclusive (unit / 10)
      end
  end.

(** What [strconv] answers for the binary64 [m * 2^e]: the bounds are half
    way to the neighbours, the lower neighbour being twice as near at a
    power of two; all three are scaled to integers. *)
Definition strconv_shortest (m : positive) (e : Z) : string * Z :=
  let mant := Z.pos m in
  let boundary := (mant =? 2 ^ 52) && (-1074 <? e) in
  let lower2 := if boundary then 4 * mant - 1 else 4 * mant - 2 in
  let scale := if 0 <=? e - 2 then 2 ^ (e - 2) else 5 ^ (2 - e) in
  let exp10 := if 0 <=? e - 2 then 0 else e - 2 in
  let upper := (4 * mant + 2) * scale in
  let len := String.length (pretty upper) in
  let r := roundShortest len (lower2 * scale) (4 * mant * scale) upper (Z.even mant)
             (10 ^ Z.of_nat (len - 1)) in
  (strip_trailing_zeros (pretty r), Z.of_nat (String.length (pretty r)) + exp10).

Definition fmt_v_float64 (ftoa : positive -> Z -> string * Z) (f : float64) : string :=
  match f with
  | S754_nan => "NaN"
  | S754_infinity false => "+Inf"
  | S754_infinity true => "-Inf"
  | S754_zero false => "0"
  | S754_zero true => "-0"
  | S754_finite neg m e => let '(digs, dp) := shortest ftoa m e in fmtG neg digs dp
  end.

Fixpoint Sprintf_v (ftoa : positive -> Z -> string * Z) (v : GoValue) : string :=
  match v with
  | VNil => "<nil>"
  | VBool true => "true"
  | VBool false => "false"
  | VFloat64 f => fmt_v_float64 ftoa f
  | VString s => s
  | VSlice items => "[" +:+ join " " (map (Sprintf_v ftoa) items) +:+ "]"
  | VMap entries =>
      "map[" +:+ join " " (map (fun kv => kv.1 +:+ ":" +:+ Sprintf_v ftoa kv.2) entries) +:+ "]"
  end.


(** ** Replies *)

Record ResultError : Type := { Code : Z; Message : string }.

(** [browser.Result].  [res_Result] is the [json.RawMessage]; [None] is the
    nil slice left by a frame without a [result] member. *)
Record Result : Type := {
  res_ID : Z;
  res_Result : option JSON;
  res_Error : option ResultError
}.

(** What travels on a [chan interface{}]: the dispatcher only ever sends a
    [browser.Result]. *)
Inductive iface : Type :=
  | I_Result (res : Result)
  | I_other.

(** *** [encoding/json] on the anonymous struct of [Eval] *)

Definition is_lower (c : ascii) : bool :=
  let n := nat_of_ascii c in (97 <=? n)%nat && (n <=? 122)%nat.

(** Field names are matched after case folding: ASCII letters go to upper
    case, and the two runes that fold onto ASCII letters, U+017F (long s,
    bytes 197 191) and U+212A (Kelvin sign, bytes 226 132 170), go to [S]
    and [K]. *)
Fixpoint foldName (s : string) : string :=
  match s with
  | EmptyString => EmptyString
  | String c rest =>
      if is_lower c then String (ascii_of_nat (nat_of_ascii c - 32)) (foldName rest)
      else
        match rest with
        | String c1 rest1 =>
            if ((nat_of_ascii c =? 197) && (nat_of_ascii c1 =? 191))%nat
            then String "S" (foldName rest1)
            else
              match rest1 with
              | String c2 rest2 =>
                  if ((nat_of_ascii c =? 226) && (nat_of_ascii c1 =? 132)
                      && (nat_of_ascii c2 =? 170))%nat
                  then String "K" (foldName rest2)
                  else String c (foldName rest)
              | EmptyString => String c (foldName rest)
              end
        | EmptyString => String c EmptyString
        end
  end.

Definition json_kind (j : JSON) : string :=
  match j with
  | JNull => "null"
  | JBool _ => "bool"
  | JNumber _ => "number"
  | JString _ => "string"
  | JArray _ => "array"
  | JObject _ => "object"
  end.

(** The inner struct [{ Type string; Value interface{} }]. *)
Record EvalResult : Type := { Type_ : string; Value : GoValue }.

Definition dquote : string := String (ascii_of_nat 34) EmptyString.

Definition backslash : string := String (ascii_of_nat 92) EmptyString.

(** A struct tag [json:"name"] as [reflect] prints it in the text of a
    type: quoted, its own quotes escaped. *)
Definition tag_text (name : string) : string :=
  dquote +:+ "json:" +:+ backslash +:+ dquote +:+ name +:+ backslash +:+ dquote
  +:+ dquote.

(** The text of the two anonymous struct types of [evalRes]. *)
Definition EvalResult_type : string :=
  "struct { Type string " +:+ tag_text "type" +:+ "; Value interface {} "
  +:+ tag_text "value" +:+ " }".

Definition evalRes_type : string :=
  "struct { Result " +:+ EvalResult_type +:+ " " +:+ tag_text "result" +:+ " }".

(** The decoder keeps the first error and goes on decoding. *)
Definition saveError (old : option error) (err : error) : option error :=
  match old with
  | Some _ => old
  | None => Some err
  end.

(** An error met below a struct field gets the path of that field. *)
Definition addErrorContext (field : string) (err : error) : error :=
  match err with
  | UnmarshalTypeError value _ type => UnmarshalTypeError value field type
  | _ => err
  end.

Definition decode_member (acc : EvalResult * option error) (kv : string * JSON)
  : EvalResult * option error :=
  let '(r, err) := acc in
  let '(k, v) := kv in
  if String.eqb (foldName k) "TYPE" then
    match v with
    | JString s => ({| Type_ := s; Value := Value r |}, err)
    | JNull => (r, err)
    | _ => (r, saveError err (UnmarshalTypeError (json_kind v) "result.type" "string"))
    end
  else if String.eqb (foldName k) "VALUE" then
    ({| Type_ := Type_ r; Value := toGo v |},
     fold_left saveError (map (addErrorContext "result.value") (number_errors v)) err)
  else (r, err).

Definition decode_top (acc : EvalResult * option error) (kv : string * JSON)
  : EvalResult * option error :=
  let '(k, v) := kv in
  if String.eqb (foldName k) "RESULT" then
    match v with
    | JObject members => fold_left decode_member members acc
    | JNull => acc
    | _ => (acc.1, saveError acc.2
                     (UnmarshalTypeError (json_kind v) "result" EvalResult_type))
    end
  else acc.

(** [json.Unmarshal(resBytes, &evalRes)] on the zero-valued struct. *)
Definition json_Unmarshal (resBytes : JSON) : error + EvalResult :=
  let zero := ({| Type_ := ""; Value := VNil |}, None) in
  match resBytes with
  | JNull => inr zero.1
  | JObject members =>
      match fold_left decode_top members zero with
      | (_, Some err) => inl err
      | (r, None) => inr r
      end
  | _ => inl (UnmarshalTypeError (json_kind resBytes) "" evalRes_type)
  end.

(** [json.Marshal] of a [json.RawMessage] gives its text back; a nil
    message is [null]. *)
Definition json_Marshal (raw : option JSON) : error + JSON :=
  inr (default JNull raw).

(** ** The session: [browser.BaseBrowser] with the fields [chrome.Chrome] adds *)

(** A [*websocket.Conn] that has been dialled is open until closed. *)
Inductive Conn : Type := ConnOpen | ConnClosed.

(** [Cmd.Process], with what the operating system knows about it. *)
Record Process : Type := { Pid : Z; running : bool }.

(** The frame [map[string]interface{}{"id":..,"method":..,"params":{..}}]. *)
Record Request : Type := {
  req_id : Z;
  req_method : string;
  req_params : list (string * string)
}.

(** Effects that leave the session. *)
Inductive Event : Type :=
  | EvSpawn (pid : Z)
  | EvSend (message : Request)
  | EvCloseDone
  | EvCloseWs (err : option error)
  | EvSignalKill (pid : Z)
  | EvDial (wsURL : string)
  | EvSleep (delay : Z).

Definition BindingFunc : Type := list JSON -> GoValue * option error.

(** [mu] is the embedded [sync.Mutex] (the unused field [Chrome.mu] is left
    out), [Id] is [Chrome.Id], which shadows [BaseBrowser.Id]; [Done] tells
    whether the channel has been closed; a [chan interface{}] is the number
    [make] gave it, and [chans] is the next one. *)
Record Sess : Type := mkSess {
  mu : bool;
  Cmd_Process : option Process;
  Ws : option Conn;
  Id : Z;
  Pending : gmap string nat;
  Bindings : gmap string BindingFunc;
  Done : bool;
  Wg : nat;
  chans : nat;
  trace : list Event
}.

Definition set_mu (b : bool) (s : Sess) : Sess :=
  mkSess b (Cmd_Process s) (Ws s) (Id s) (Pending s) (Bindings s) (Done s)
         (Wg s) (chans s) (trace s).
Definition set_Process (p : option Process) (s : Sess) : Sess :=
  mkSess (mu s) p (Ws s) (Id s) (Pending s) (Bindings s) (Done s)
         (Wg s) (chans s) (trace s).
Definition set_Ws (w : option Conn) (s : Sess) : Sess :=
  mkSess (mu s) (Cmd_Process s) w (Id s) (Pending s) (Bindings s) (Done s)
         (Wg s) (chans s) (trace s).
Definition set_Id (i : Z) (s : Sess) : Sess :=
  mkSess (mu s) (Cmd_Process s) (Ws s) i (Pending s) (Bindings s) (Done s)
         (Wg s) (chans s) (trace s).
Definition set_Pending (p : gmap string nat) (s : Sess) : Sess :=
  mkSess (mu s) (Cmd_Process s) (Ws s) (Id s) p (Bindings s) (Done s)
         (Wg s) (chans s) (trace s).
Definition set_Bindings (b : gmap string BindingFunc) (s : Sess) : Sess :=
  mkSess (mu s) (Cmd_Process s) (Ws s) (Id s) (Pending s) b (Done s)
         (Wg s) (chans s) (trace s).
Definition set_Done (d : bool) (s : Sess) : Sess :=
  mkSess (mu s) (Cmd_Process s) (Ws s) (Id s) (Pending s) (Bindings s) d
         (Wg s) (chans s) (trace s).
Definition set_Wg (n : nat) (s : Sess) : Sess :=
  mkSess (mu s) (Cmd_Process s) (Ws s) (Id s) (Pending s) (Bindings s) (Done s)
         n (chans s) (trace s).
Definition set_chans (n : nat) (s : Sess) : Sess :=
  mkSess (mu s) (Cmd_Process s) (Ws s) (Id s) (Pending s) (Bindings s) (Done s)
         (Wg s) n (trace s).
Definition log (ev : Event) (s : Sess) : Sess :=
  mkSess (mu s) (Cmd_Process s) (Ws s) (Id s) (Pending s) (Bindings s) (Done s)
         (Wg s) (chans s) (trace s ++ [ev]).

(** [b.Lock()] goes through only when the mutex is free. *)
Definition Lock (s : Sess) : option Sess :=
  if mu s then None else Some (set_mu true s).

Definition Unlock (s : Sess) : Sess := set_mu false s.

(** [x++] on an [int32]. *)
Definition int32_incr (x : Z) : Z :=
  if x =? 2 ^ 31 - 1 then - 2 ^ 31 else x + 1.

(** ** What the environment answers *)

(** One answer per library or system call a step may make; [env_peer] is
    the scheduler's choice of the goroutine that takes a value sent on an
    unbuffered channel, [env_ftoa] is [strconv]'s digit generation. *)
Record Env : Type := {
  env_send : option error;
  env_recv : error + Result;
  env_close : option error;
  env_start : error + Z;
  env_kill : option error;
  env_signal : option error;
  env_peer : nat;
  env_ftoa : positive -> Z -> string * Z
}.

Definition ErrClosed : error := Errorf "use of closed network connection".

(** [websocket.JSON.Send]: fails on a closed connection. *)
Definition ws_Send (e : Env) (c : Conn) : option error :=
  match c with
  | ConnOpen => env_send e
  | ConnClosed => Some (default ErrClosed (env_send e))
  end.

(** [websocket.JSON.Receive]: a frame or a failure; always a failure on a
    closed connection. *)
Definition ws_Receive (e : Env) (c : Conn) : error + Result :=
  match c with
  | ConnOpen => env_recv e
  | ConnClosed => inl match env_recv e with inl err => err | inr _ => ErrClosed end
  end.

(** [Ws.Close]. *)
Definition ws_Close (e : Env) (c : Conn) : option error :=
  match c with
  | ConnOpen => env_close e
  | ConnClosed => Some (default ErrClosed (env_close e))
  end.

(** [Process.Kill]: on a running process the system decides; on one that is
    gone the call may fail (the comment in [Kill] about TerminateProcess). *)
Definition Process_Kill (e : Env) (p : Process) : Process * option error :=
  if running p then
    match env_kill e with
    | None => ({| Pid := Pid p; running := false |}, None)
    | Some err => (p, Some err)
    end
  else (p, env_kill e).

(** [isProcessRunning]: [os.FindProcess] then [Signal(os.Kill)]; [true] only
    when the signal went through, which also ends the process. *)
Definition isProcessRunning (e : Env) (p : Process) : Process * bool :=
  if running p then
    match env_signal e with
    | None => ({| Pid := Pid p; running := false |}, true)
    | Some _ => (p, false)
    end
  else (p, false).

(** ** [BaseBrowser.Start] *)

Inductive StartPc : Type :=
  | S_entry
  | S_locked
  | S_return (err : option error).

Definition Start (e : Env) (s : Sess) (pc : StartPc) : option (Sess * StartPc) :=
  match pc with
  | S_entry => s' ← Lock s; Some (s', S_locked)
  | S_locked =>
      match Cmd_Process s with
      | Some _ => Some (Unlock s, S_return None)
      | None =>
          match env_start e with
          | inl err =>
              Some (Unlock s, S_return (Some (wrapError "failed to start browser: " err)))
          | inr pid =>
              Some (Unlock (log (EvSpawn pid)
                              (set_Process (Some {| Pid := pid; running := true |}) s)),
                    S_return None)
          end
      end
  | S_return _ => None
  end.

(** ** [BaseBrowser.Kill] *)

Inductive KillPc : Type :=
  | K_entry
  | K_locked
  | K_wait
  | K_return (err : option error).

(** The [select] on [b.Done]: close it unless it is closed already. *)
Definition signal_stop (s : Sess) : Sess :=
  if Done s then s else log EvCloseDone (set_Done true s).

(** [b.Ws.Close()] when there is a connection; its error is only printed. *)
Definition close_Ws (e : Env) (s : Sess) : Sess :=
  match Ws s with
  | Some c => log (EvCloseWs (ws_Close e c)) (set_Ws (Some ConnClosed) s)
  | None => s
  end.

Definition Kill (e : Env) (s : Sess) (pc : KillPc) : option (Sess * KillPc) :=
  match pc with
  | K_entry => s' ← Lock s; Some (s', K_locked)
  | K_locked => Some (close_Ws e (signal_stop s), K_wait)
  | K_wait =>
      (* b.Wg.Wait() *)
      match Wg s with
      | S _ => None
      | O =>
          match Cmd_Process s with
          | None => Some (Unlock s, K_return None)
          | Some p =>
              match Process_Kill e p with
              | (p1, None) =>
                  Some (Unlock (log (EvSignalKill (Pid p)) (set_Process (Some p1) s)),
                        K_return None)
              | (p1, Some err) =>
                  let '(p2, alive) := isProcessRunning e p1 in
                  if negb alive
                  then Some (Unlock (set_Process (Some p2) s), K_return None)
                  else Some (Unlock (set_Process (Some p2) s),
                             K_return (Some (wrapError "failed to kill browser process: " err)))
              end
          end
      end
  | K_return _ => None
  end.

(** ** [BaseBrowser.Bind] *)

Inductive BindPc : Type :=
  | B_entry (name : string) (f : BindingFunc)
  | B_locked (name : string) (f : BindingFunc)
  | B_return (err : option error).

Definition Bind (s : Sess) (pc : BindPc) : option (Sess * BindPc) :=
  match pc with
  | B_entry name f => s' ← Lock s; Some (s', B_locked name f)
  | B_locked name f =>
      match Bindings s !! name with
      | Some _ =>
          Some (Unlock s, B_return (Some (Errorf ("binding " +:+ name +:+ " already exists"))))
      | None =>
          Some (Unlock (set_Bindings (<[name := f]> (Bindings s)) s), B_return None)
      end
  | B_return _ => None
  end.

(** ** [chrome]: the dispatcher *)

Inductive DispPc : Type :=
  | D_select
  | D_receive
  | D_lock (res : Result)
  | D_locked (res : Result)
  | D_send (idStr : string) (ch : nat) (res : Result)
  | D_return
  | D_panic.

(** The deferred [c.Wg.Done()]; it panics on a counter that is zero. *)
Definition Wg_Done (s : Sess) : Sess * DispPc :=
  match Wg s with
  | S n => (set_Wg n s, D_return)
  | O => (s, D_panic)
  end.

(** [handleResponse] up to the send on the slot's channel.  [D_send] is the
    blocked [ch <- res], taken by [step] below together with the receiver;
    the mutex is held from [D_locked] to the [Unlock] after it.  A nil
    [c.Ws] makes [Receive] panic, after which the deferred call runs. *)
Definition handleResponse (e : Env) (s : Sess) (pc : DispPc) : option (Sess * DispPc) :=
  match pc with
  | D_select => if Done s then Some (Wg_Done s) else Some (s, D_receive)
  | D_receive =>
      match Ws s with
      | None => Some ((Wg_Done s).1, D_panic)
      | Some c =>
          match ws_Receive e c with
          | inl _ => Some (s, D_select)
          | inr res => Some (s, D_lock res)
          end
      end
  | D_lock res => s' ← Lock s; Some (s', D_locked res)
  | D_locked res =>
      let idStr := pretty (res_ID res) in
      match Pending s !! idStr with
      | Some ch => Some (s, D_send idStr ch res)
      | None => Some (Unlock s, D_select)
      end
  | D_send _ _ _ => None
  | D_return => None
  | D_panic => None
  end.

(** What the dispatcher does once its send has been taken:
    [delete(c.Pending, idStr); c.Unlock()]. *)
Definition delivered (idStr : string) (s : Sess) : Sess :=
  Unlock (set_Pending (delete idStr (Pending s)) s).

(** ** [chrome.Load] *)

Definition ErrNotConnected : error := Errorf "WebSocket connection is not established".

Inductive LoadPc : Type :=
  | L_entry (url : string)
  | L_locked (url : string)
  | L_wait (responseChan : nat)
  | L_resume (resInterface : iface)
  | L_return (err : option error).

(** Lines 205-215 of [Load]: the reply is inspected for an error object. *)
Definition Load_finish (resInterface : iface) : option error :=
  match resInterface with
  | I_other => Some (Errorf "unexpected response type")
  | I_Result res =>
      match res_Error res with
      | Some err => Some (Errorf ("navigation error: " +:+ Message err))
      | None => None
      end
  end.

(** [defer c.Unlock()] runs at each return, so the mutex stays held in
    [L_wait], the blocked [<-responseChan]. *)
Definition Load (e : Env) (s : Sess) (pc : LoadPc) : option (Sess * LoadPc) :=
  match pc with
  | L_entry url => s' ← Lock s; Some (s', L_locked url)
  | L_locked url =>
      match Ws s with
      | None => Some (Unlock s, L_return (Some ErrNotConnected))
      | Some c =>
          let message :=
            {| req_id := Id s; req_method := "Page.navigate";
               req_params := [("url", url)] |} in
          let idStr := pretty (Id s) in
          let responseChan := chans s in
          let s1 := set_Id (int32_incr (Id s))
                      (set_Pending (<[idStr := responseChan]> (Pending s))
                         (set_chans (S (chans s)) s)) in
          match ws_Send e c with
          | Some err =>
              Some (Unlock (set_Pending (delete idStr (Pending s1)) s1),
                    L_return (Some (wrapError "failed to send WebSocket message: " err)))
          | None => Some (log (EvSend message) s1, L_wait responseChan)
          end
      end
  | L_wait _ => None
  | L_resume resInterface => Some (Unlock s, L_return (Load_finish resInterface))
  | L_return _ => None
  end.

(** ** [chrome.Eval] *)

Inductive EvalPc : Type :=
  | E_entry (expr : string)
  | E_locked (expr : string)
  | E_wait (responseChan : nat)
  | E_return (value type : string) (err : option error).

(** Lines 252-286 of [Eval]: from the value received to the triple returned. *)
Definition Eval_finish (ftoa : positive -> Z -> string * Z) (resInterface : iface)
  : string * string * option error :=
  match resInterface with
  | I_other => ("", "", Some (Errorf "unexpected response type"))
  | I_Result res =>
      match res_Error res with
      | Some err => ("", "", Some (Errorf ("evaluation error: " +:+ Message err)))
      | None =>
          match json_Marshal (res_Result res) with
          | inl err => ("", "", Some (wrapError "failed to marshal response: " err))
          | inr resBytes =>
              match json_Unmarshal resBytes with
              | inl err => ("", "", Some (wrapError "failed to unmarshal response: " err))
              | inr evalRes =>
                  match Value evalRes with
                  | VString v => (v, Type_ evalRes, None)
                  | v => (Sprintf_v ftoa v, Type_ evalRes, None)
                  end
              end
          end
      end
  end.

(** The mutex is released on every path out of [E_locked]; [E_wait] is the
    blocked [<-responseChan]. *)
Definition Eval (e : Env) (s : Sess) (pc : EvalPc) : option (Sess * EvalPc) :=
  match pc with
  | E_entry expr => s' ← Lock s; Some (s', E_locked expr)
  | E_locked expr =>
      match Ws s with
      | None => Some (Unlock s, E_return "" "" (Some ErrNotConnected))
      | Some c =>
          let message :=
            {| req_id := Id s; req_method := "Runtime.evaluate";
               req_params := [("expression", expr)] |} in
          let idStr := pretty (Id s) in
          let responseChan := chans s in
          let s1 := set_Id (int32_incr (Id s))
                      (set_Pending (<[idStr := responseChan]> (Pending s))
                         (set_chans (S (chans s)) s)) in
          match ws_Send e c with
          | Some err =>
              Some (Unlock (set_Pending (delete idStr (Pending s1)) s1),
                    E_return "" "" (Some (wrapError "failed to send WebSocket message: " err)))
          | None => Some (Unlock (log (EvSend message) s1), E_wait responseChan)
          end
      end
  | E_wait _ => None
  | E_return _ _ _ => None
  end.

(** ** [firefox.Load] and [firefox.Eval] *)

Definition Firefox_Load (url : string) (s : Sess) : Sess * option error :=
  (s, None).

Definition Firefox_Eval (expr : string) (s : Sess) : Sess * (string * string * option error) :=
  (s, ("", "", None)).

(** ** Goroutines and configurations *)

(** The two families behind the [Browser] interface. *)
Inductive Variant : Type := Chrome | Firefox.

(** A goroutine is a call in progress: the method and its program point. *)
Inductive Thread : Type :=
  | T_handleResponse (pc : DispPc)
  | T_Load (pc : LoadPc)
  | T_Eval (pc : EvalPc)
  | T_Kill (pc : KillPc)
  | T_Start (pc : StartPc)
  | T_Bind (pc : BindPc)
  | T_Firefox_Load (url : string)
  | T_Firefox_Eval (expr : string).

(** Calls through the interface. *)
Definition call_Load (v : Variant) (url : string) : Thread :=
  match v with
  | Chrome => T_Load (L_entry url)
  | Firefox => T_Firefox_Load url
  end.

Definition call_Eval (v : Variant) (expr : string) : Thread :=
  match v with
  | Chrome => T_Eval (E_entry expr)
  | Firefox => T_Firefox_Eval expr
  end.

Definition E_returned (r : string * string * option error) : EvalPc :=
  E_return r.1.1 r.1.2 r.2.

(** One step of one goroutine on its own. *)
Definition tstep (e : Env) (s : Sess) (t : Thread) : option (Sess * Thread) :=
  match t with
  | T_handleResponse pc => prod_map id T_handleResponse <$> handleResponse e s pc
  | T_Load pc => prod_map id T_Load <$> Load e s pc
  | T_Eval pc => prod_map id T_Eval <$> Eval e s pc
  | T_Kill pc => prod_map id T_Kill <$> Kill e s pc
  | T_Start pc => prod_map id T_Start <$> Start e s pc
  | T_Bind pc => prod_map id T_Bind <$> Bind s pc
  | T_Firefox_Load url =>
      let '(s', err) := Firefox_Load url s in Some (s', T_Load (L_return err))
  | T_Firefox_Eval expr =>
      let '(s', r) := Firefox_Eval expr s in Some (s', T_Eval (E_returned r))
  end.

(** A goroutine blocked in [<-responseChan] on [ch] takes the value. *)
Definition receive (e : Env) (ch : nat) (v : iface) (t : Thread) : option Thread :=
  match t with
  | T_Load (L_wait ch') =>
      if decide (ch = ch') then Some (T_Load (L_resume v)) else None
  | T_Eval (E_wait ch') =>
      if decide (ch = ch') then Some (T_Eval (E_returned (Eval_finish (env_ftoa e) v))) else None
  | _ => None
  end.

Record Config : Type := { sess : Sess; threads : list Thread }.

(** Goroutine [i] takes a step; [None] when it is blocked or has returned.
    The send of the dispatcher on an unbuffered channel goes through
    together with the receive of goroutine [env_peer e]. *)
Definition step (i : nat) (e : Env) (c : Config) : option Config :=
  t ← threads c !! i;
  match t with
  | T_handleResponse (D_send idStr ch res) =>
      w ← threads c !! env_peer e;
      w' ← receive e ch (I_Result res) w;
      Some {| sess := delivered idStr (sess c);
              threads := <[i := T_handleResponse D_select]>
                           (<[env_peer e := w']> (threads c)) |}
  | _ =>
      '(s', t') ← tstep e (sess c) t;
      Some {| sess := s'; threads := <[i := t']> (threads c) |}
  end.

Fixpoint run (sched : list (nat * Env)) (c : Config) : option Config :=
  match sched with
  | [] => Some c
  | (i, e) :: rest => c' ← step i e c; run rest c'
  end.

(** ** Connection establishment *)

(** What the network answers during one attempt: [waitForPort], [http.Get],
    the decoding of the target list (the [webSocketDebuggerUrl] of each
    target) and [websocket.Dial]. *)
Record NetEnv : Type := {
  net_port : bool;
  net_get : option error;
  net_targets : error + list string;
  net_dial : option error
}.

Definition Chrome_connectWebSocket (n : NetEnv) (s : Sess) : Sess * option error :=
  if negb (net_port n)
  then (s, Some (Errorf "Chrome remote debugging port 9222 is not open"))
  else
    match net_get n with
    | Some err => (s, Some (wrapError "failed to get WebSocket debugger URL: " err))
    | None =>
        match net_targets n with
        | inl err => (s, Some (wrapError "failed to decode JSON response: " err))
        | inr [] => (s, Some (Errorf "no WebSocket targets found"))
        | inr (wsURL :: _) =>
            match net_dial n with
            | Some err =>
                (log (EvDial wsURL) s, Some (wrapError "failed to dial WebSocket: " err))
            | None => (set_Ws (Some ConnOpen) (log (EvDial wsURL) s), None)
            end
        end
    end.

Definition Firefox_connectWebSocket (n : NetEnv) (s : Sess) : Sess * option error :=
  if negb (net_port n)
  then (s, Some (Errorf "Firefox remote debugging port 9223 is not open"))
  else (s, None).

Definition connectWebSocket (v : Variant) : NetEnv -> Sess -> Sess * option error :=
  match v with
  | Chrome => Chrome_connectWebSocket
  | Firefox => Firefox_connectWebSocket
  end.

(** The [for] loop of [connectWebSocketWithRetry] from iteration [i] with
    [remaining] iterations to go; [nets i] is what the network answers
    during attempt [i].  The boolean tells whether the loop returned [nil]
    from inside. *)
Fixpoint retry_loop (v : Variant) (delay : Z) (nets : nat -> NetEnv)
    (remaining i : nat) (err : option error) (s : Sess) : Sess * option error * bool :=
  match remaining with
  | O => (s, err, false)
  | S r =>
      match connectWebSocket v (nets i) s with
      | (s1, None) => (s1, None, true)
      | (s1, Some e1) => retry_loop v delay nets r (S i) (Some e1) (log (EvSleep delay) s1)
      end
  end.

Definition connectWebSocketWithRetry (v : Variant) (maxRetries delay : Z)
    (nets : nat -> NetEnv) (s : Sess) : Sess * option error :=
  match retry_loop v delay nets (Z.to_nat maxRetries) 0 None s with
  | (s', _, true) => (s', None)
  | (s', err, false) =>
      (s', Some (Errorf ("failed to connect to WebSocket after " +:+ pretty maxRetries
                         +:+ " attempts: " +:+ fmt_v_error err)))
  end.

(** ** [chrome.New] *)

(** A method run to its return by the calling goroutine alone. *)
Definition Start_call (e : Env) (s : Sess) : option (Sess * option error) :=
  '(s1, pc1) ← Start e s S_entry;
  '(s2, pc2) ← Start e s1 pc1;
  match pc2 with
  | S_return err => Some (s2, err)
  | _ => None
  end.

Definition Kill_call (e : Env) (s : Sess) : option (Sess * option error) :=
  '(s1, pc1) ← Kill e s K_entry;
  '(s2, pc2) ← Kill e s1 pc1;
  '(s3, pc3) ← Kill e s2 pc2;
  match pc3 with
  | K_return err => Some (s3, err)
  | _ => None
  end.

(** The session [New] builds before it starts the process. *)
Definition new_session : Sess :=
  {| mu := false; Cmd_Process := None; Ws := None; Id := 1;
     Pending := ∅; Bindings := ∅; Done := false; Wg := 0; chans := 0;
     trace := [] |}.

(** [chrome.New] after the executable has been found: the configuration it
    leaves, with the dispatcher as goroutine [0], or the error it returns. *)
Definition Chrome_New (e : Env) (nets : nat -> NetEnv) (ekill : Env)
  : option (error + Config) :=
  '(s1, err1) ← Start_call e new_session;
  match err1 with
  | Some err => Some (inl err)
  | None =>
      match connectWebSocketWithRetry Chrome 10 1000000000 nets s1 with
      | (s2, Some err) => _ ← Kill_call ekill s2; Some (inl err)
      | (s2, None) =>
          Some (inr {| sess := set_Wg (S (Wg s2)) s2;
                       threads := [T_handleResponse D_select] |})
      end
  end.

Definition Bind_call (name : string) (f : BindingFunc) (s : Sess)
  : option (Sess * option error) :=
  '(s1, pc1) ← Bind s (B_entry name f);
  '(s2, pc2) ← Bind s1 pc1;
  match pc2 with
  | B_return err => Some (s2, err)
  | _ => None
  end.

(** ** What the proofs speak about *)

Fixpoint count_if {A : Type} (f : A -> bool) (l : list A) : nat :=
  match l with
  | [] => 0
  | x :: rest => (if f x then 1 else 0) + count_if f rest
  end.

(** The program points between a [Lock] and the matching [Unlock]. *)
Definition holds (t : Thread) : bool :=
  match t with
  | T_handleResponse (D_locked _) | T_handleResponse (D_send _ _ _) => true
  | T_Load (L_locked _) | T_Load (L_wait _) | T_Load (L_resume _) => true
  | T_Eval (E_locked _) => true
  | T_Kill K_locked | T_Kill K_wait => true
  | T_Start S_locked => true
  | T_Bind (B_locked _ _) => true
  | _ => false
  end.

(** A dispatcher that has not left [handleResponse]. *)
Definition live (t : Thread) : bool :=
  match t with
  | T_handleResponse D_return | T_handleResponse D_panic => false
  | T_handleResponse _ => true
  | _ => false
  end.

(** A [Kill] past its stop signal, and one that has returned. *)
Definition kill_signalled (t : Thread) : bool :=
  match t with
  | T_Kill K_wait | T_Kill (K_return _) => true
  | _ => false
  end.

Definition kill_returned (t : Thread) : bool :=
  match t with
  | T_Kill (K_return _) => true
  | _ => false
  end.

Definition is_CloseDone (ev : Event) : bool :=
  match ev with
  | EvCloseDone => true
  | _ => false
  end.

(** How many times [close(b.Done)] ran. *)
Definition closes (s : Sess) : nat := count_if is_CloseDone (trace s).

(** A goroutine that has not taken a step: the dispatcher as [go] starts it,
    or a call at its entry. *)
Definition at_entry (t : Thread) : bool :=
  match t with
  | T_handleResponse D_select => true
  | T_Load (L_entry _) | T_Eval (E_entry _) => true
  | T_Kill K_entry | T_Start S_entry | T_Bind (B_entry _ _) => true
  | T_Firefox_Load _ | T_Firefox_Eval _ => true
  | _ => false
  end.

(** A configuration as a constructor leaves it, with the calls the program
    is going to make: mutex free, [Done] open, one [Wg.Add(1)] per
    dispatcher. *)
Definition initial (c : Config) : bool :=
  negb (mu (sess c)) && negb (Done (sess c)) && (closes (sess c) =? 0)%nat
  && (Wg (sess c) =? count_if live (threads c))%nat
  && forallb at_entry (threads c).

Definition b2n (b : bool) : nat := if b then 1%nat else 0%nat.

(** The invariants of the reachable configurations: the mutex is held by
    exactly the goroutines between [Lock] and [Unlock], [Wg] counts the
    dispatchers that have not returned, [Done] was closed once if at all, a
    [Kill] past its signal has closed it, and a [Kill] that returned saw
    [Wg] at zero. *)
Record wf (c : Config) : Prop := {
  wf_mutex : count_if holds (threads c) = b2n (mu (sess c));
  wf_wg : Wg (sess c) = count_if live (threads c);
  wf_closes : closes (sess c) = b2n (Done (sess c));
  wf_signalled :
    Done (sess c) = true ∨ Forall (fun t => kill_signalled t = false) (threads c);
  wf_returned :
    Wg (sess c) = 0%nat ∨ Forall (fun t => kill_returned t = false) (threads c)
}.

(** The process of the session is gone: never started, or no longer running. *)
Definition process_gone (s : Sess) : bool :=
  match Cmd_Process s with
  | Some p => negb (running p)
  | None => true
  end.

(** What one attempt answers, whatever the session. *)
Definition attempt (v : Variant) (n : NetEnv) : option error :=
  (connectWebSocket v n new_session).2.

(** The reply to [Runtime.evaluate] carrying a typed value. *)
Definition evaluate_reply (id : Z) (type : string) (value : JSON) : Result :=
  {| res_ID := id;
     res_Result :=
       Some (JObject [("result", JObject [("type", JString type); ("value", value)])]);
     res_Error := None |}.

(** The text [Eval] returns for a reply carrying [value]. *)
Definition Eval_text (ftoa : positive -> Z -> string * Z) (value : JSON) : string :=
  (Eval_finish ftoa (I_Result (evaluate_reply 0 "" value))).1.1.

(** Keys in strictly increasing order. *)
Definition key_lt (a b : string * JSON) : Prop := String.compare a.1 b.1 = Lt.

(** The entries of a map are in strictly increasing key order. *)
Definition entries_sorted (m : list (string * GoValue)) : Prop :=
  StronglySorted (fun a b => String.compare a.1 b.1 = Lt) m.

(** One member goes into the map. *)
Definition put_entry (acc : list (string * GoValue)) (kv : string * GoValue) :=
  map_put kv.1 kv.2 acc.

Definition is_panic (t : Thread) : bool :=
  match t with
  | T_handleResponse D_panic => true
  | _ => false
  end.

(** The two ways [step] goes through. *)
Inductive step_spec (i : nat) (e : Env) (c c' : Config) : Prop :=
  | step_local t s' t' :
      threads c !! i = Some t ->
      tstep e (sess c) t = Some (s', t') ->
      c' = {| sess := s'; threads := <[i := t']> (threads c) |} ->
      step_spec i e c c'
  | step_rendezvous idStr ch res w w' :
      threads c !! i = Some (T_handleResponse (D_send idStr ch res)) ->
      threads c !! env_peer e = Some w ->
      receive e ch (I_Result res) w = Some w' ->
      c' = {| sess := delivered idStr (sess c);
              threads := <[i := T_handleResponse D_select]>
                           (<[env_peer e := w']> (threads c)) |} ->
      step_spec i e c c'.

(** ** Sample answers and sessions *)

(** Every call succeeds; nothing arrives on the connection. *)
Definition env_ok : Env :=
  {| env_send := None; env_recv := inl (Errorf "EOF"); env_close := None;
     env_start := inr 4242; env_kill := None; env_signal := None;
     env_peer := 0; env_ftoa := strconv_shortest |}.

(** The frame [res] arrives; a send on a slot goes to goroutine [peer]. *)
Definition env_reply (peer : nat) (res : Result) : Env :=
  {| env_send := None; env_recv := inr res; env_close := None;
     env_start := inr 4242; env_kill := None; env_signal := None;
     env_peer := peer; env_ftoa := strconv_shortest |}.

Definition env_send_fails : Env :=
  {| env_send := Some (Errorf "broken pipe"); env_recv := inl (Errorf "EOF");
     env_close := None; env_start := inr 4242; env_kill := None;
     env_signal := None; env_peer := 0; env_ftoa := strconv_shortest |}.

Definition net_up : NetEnv :=
  {| net_port := true; net_get := None;
     net_targets := inr ["ws://localhost:9222/devtools/page/1"];
     net_dial := None |}.

Definition net_down : NetEnv :=
  {| net_port := false; net_get := None; net_targets := inr []; net_dial := None |}.

(** The port opens at the third attempt. *)
Definition nets_third (i : nat) : NetEnv :=
  if (i <? 2)%nat then net_down else net_up.

(** The session [chrome.New] leaves when the first attempt connects. *)
Definition connected : Sess :=
  {| mu := false; Cmd_Process := Some {| Pid := 4242; running := true |};
     Ws := Some ConnOpen; Id := 1; Pending := ∅; Bindings := ∅;
     Done := false; Wg := 1; chans := 0;
     trace := [EvSpawn 4242; EvDial "ws://localhost:9222/devtools/page/1"] |}.

(** The test's [c.Load("https://new.grng.cc")] against the dispatcher. *)
Definition client_Load : Config :=
  {| sess := connected;
     threads := [T_handleResponse D_select; T_Load (L_entry "https://new.grng.cc")] |}.

(** The test's [c.Eval("document.title")] against the dispatcher. *)
Definition client_Eval : Config :=
  {| sess := connected;
     threads := [T_handleResponse D_select; T_Eval (E_entry "document.title")] |}.

(** An [Eval] in flight when [Kill] is called. *)
Definition client_Eval_Kill : Config :=
  {| sess := connected;
     threads := [T_handleResponse D_select; T_Eval (E_entry "document.title");
                 T_Kill K_entry] |}.

(** [Eval] sends and waits, [Kill] signals and closes, the dispatcher sees
    the signal and returns, [Kill] ends the process. *)
Definition sched_Eval_Kill : list (nat * Env) :=
  [(1%nat, env_ok); (1%nat, env_ok);
   (2%nat, env_ok); (2%nat, env_ok);
   (0%nat, env_ok); (2%nat, env_ok)].

(** Two calls of [Kill]. *)
Definition client_Kill_Kill : Config :=
  {| sess := connected;
     threads := [T_handleResponse D_select; T_Kill K_entry; T_Kill K_entry] |}.

Definition sched_Kill : list (nat * Env) :=
  [(1%nat, env_ok); (1%nat, env_ok); (0%nat, env_ok); (1%nat, env_ok)].

(** A session whose process has been started, before any connection. *)
Definition started : Sess :=
  {| mu := false; Cmd_Process := Some {| Pid := 4242; running := true |};
     Ws := None; Id := 1; Pending := ∅; Bindings := ∅;
     Done := false; Wg := 0; chans := 0; trace := [EvSpawn 4242] |}.

Definition sample_binding : BindingFunc := fun args => (VNil, None).

(** Where the [Load] of [client_Load] waits for its reply. *)
Definition Load_waiting : Config :=
  {| sess :=
       {| mu := true; Cmd_Process := Some {| Pid := 4242; running := true |};
          Ws := Some ConnOpen; Id := 2; Pending := {[ "1" := 0%nat ]};
          Bindings := ∅; Done := false; Wg := 1; chans := 1;
          trace := [EvSpawn 4242; EvDial "ws://localhost:9222/devtools/page/1";
                    EvSend {| req_id := 1; req_method := "Page.navigate";
                              req_params := [("url", "https://new.grng.cc")] |}] |};
     threads := [T_handleResponse D_select; T_Load (L_wait 0)] |}.

(** Where [sched_Eval_Kill] leaves [client_Eval_Kill]. *)
Definition killed_Eval_waiting : Config :=
  {| sess :=
       {| mu := false; Cmd_Process := Some {| Pid := 4242; running := false |};
          Ws := Some ConnClosed; Id := 2; Pending := {[ "1" := 0%nat ]};
          Bindings := ∅; Done := true; Wg := 0; chans := 1;
          trace := [EvSpawn 4242; EvDial "ws://localhost:9222/devtools/page/1";
                    EvSend {| req_id := 1; req_method := "Runtime.evaluate";
                              req_params := [("expression", "document.title")] |};
                    EvCloseDone; EvCloseWs None; EvSignalKill 4242] |};
     threads := [T_handleResponse D_return; T_Eval (E_wait 0);
                 T_Kill (K_return None)] |}.

(** Where a schedule leaves a configuration (the configuration itself
    when the schedule cannot run). *)
Definition after (sched : list (nat * Env)) (c : Config) : Config :=
  default c (run sched c).

(** [Eval] has sent and waits on its slot; [Kill] has just taken the mutex. *)
Definition sched_Eval_Kill_locked : list (nat * Env) :=
  [(1%nat, env_ok); (1%nat, env_ok); (2%nat, env_ok)].

(** Where [sched_Kill] leaves [client_Kill_Kill]: the first [Kill] is over. *)
Definition killed_once : Config :=
  {| sess :=
       {| mu := false; Cmd_Process := Some {| Pid := 4242; running := false |};
          Ws := Some ConnClosed; Id := 1; Pending := ∅;
          Bindings := ∅; Done := true; Wg := 0; chans := 0;
          trace := [EvSpawn 4242; EvDial "ws://localhost:9222/devtools/page/1";
                    EvCloseDone; EvCloseWs None; EvSignalKill 4242] |};
     threads := [T_handleResponse D_return; T_Kill (K_return None); T_Kill K_entry] |}.

(** The reply to the [Eval] of [client_Eval]. *)
Definition title_reply : Result :=
  evaluate_reply 1 "number" (JNumber "42").

(** ** Proof automation *)

(** Case analysis of one step of one goroutine. *)
Ltac tstep_cases H :=
  match type of H with
  | tstep _ _ ?t = Some _ =>
      destruct t as [[]|[]|[]|[]|[]|[]| |]; cbn in H;
      unfold handleResponse, Load, Eval, Kill, Start, Bind, Lock, Wg_Done,
        Firefox_Load, Firefox_Eval, Process_Kill, isProcessRunning, close_Ws, signal_stop in H;
      repeat (progress simplify_option_eq || case_match)
  end.

(** Rewriting with the comparisons at hand; [refl] is the reflexivity of
    [String.compare]. *)
Ltac compare_cases refl :=
  repeat (cbn [map_put CompOpp];
          first [ rewrite refl
                | match goal with
                  | H : String.compare ?a ?b = _ |- context [String.compare ?a ?b] =>
                      rewrite H
                  | H : String.compare ?a ?b = _ |- context [String.compare ?b ?a] =>
                      rewrite (String.compare_antisym b a), H
                  end ]);
  cbn [map_put CompOpp].

(** ** Request ids and slots *)

(** An [int32] after any number of increments from it. *)
Definition wrap32 (z : Z) : Z := (z + 2 ^ 31) mod 2 ^ 32 - 2 ^ 31.

(** The id of the request that was given channel [ch]: [New] sets the
    counter to [1], and the first channel made is number [0]. *)
Definition id_of (ch : nat) : Z := wrap32 (1 + Z.of_nat ch).

(** The goroutine is blocked in [<-responseChan] on [ch]. *)
Definition waits_on (ch : nat) (t : Thread) : bool :=
  match t with
  | T_Load (L_wait ch') | T_Eval (E_wait ch') => (ch =? ch')%nat
  | _ => false
  end.

(** The registry and the goroutines that use it agree: the counter is the
    id of the next channel, every slot is stored under the id of its
    channel, a dispatcher blocked in its send holds the slot of the reply's
    id, and no two goroutines wait on one channel. *)
Record slots_ok (c : Config) : Prop := {
  slots_Id : Id (sess c) = id_of (chans (sess c));
  slots_keys :
    forall k ch, Pending (sess c) !! k = Some ch ->
                 (ch < chans (sess c))%nat /\ k = pretty (id_of ch);
  slots_send :
    forall i idStr ch res,
      threads c !! i = Some (T_handleResponse (D_send idStr ch res)) ->
      idStr = pretty (res_ID res) /\ Pending (sess c) !! idStr = Some ch;
  slots_waiters :
    forall ch, (count_if (waits_on ch) (threads c)
                <= b2n (ch <? chans (sess c))%nat)%nat
}.

(** An initial configuration whose registry is as [New] leaves it. *)
Definition fresh (c : Config) : bool :=
  initial c && bool_decide (Pending (sess c) = ∅)
  && (Id (sess c) =? id_of (chans (sess c))).

(** A dispatcher that has returned from [handleResponse]. *)
Definition dispatcher_returned (t : Thread) : bool :=
  match t with
  | T_handleResponse D_return => true
  | _ => false
  end.

Definition is_Spawn (ev : Event) : bool :=
  match ev with
  | EvSpawn _ => true
  | _ => false
  end.

(** How many times [Cmd.Start] launched a process. *)
Definition spawns (s : Sess) : nat := count_if is_Spawn (trace s).


(** The time a [time.Sleep] event took. *)
Definition sleep_time (ev : Event) : Z :=
  match ev with
  | EvSleep d => d
  | _ => 0
  end.

(** The total time slept. *)
Definition slept (s : Sess) : Z := foldr (fun ev acc => sleep_time ev + acc) 0 (trace s).

(** What connection establishment leaves alone: everything but [Ws] and the
    trace, and in the trace the closes of [Done] and the spawns. *)
Definition same_but_Ws (s s' : Sess) : Prop :=
  mu s' = mu s /\ Cmd_Process s' = Cmd_Process s /\ Id s' = Id s
  /\ Pending s' = Pending s /\ Bindings s' = Bindings s /\ Done s' = Done s
  /\ Wg s' = Wg s /\ chans s' = chans s
  /\ closes s' = closes s /\ spawns s' = spawns s.

(** ** [FindPath] *)

(** What the operating system answers: [os.LookupEnv], [runtime.GOOS],
    whether [os.Stat] succeeds, and the library functions [filepath.Join]
    and [os.ExpandEnv]. *)
Record OS : Type := {
  os_LookupEnv : string -> option string;
  os_GOOS : string;
  os_Stat : string -> bool;
  os_Join : list string -> string;
  os_ExpandEnv : string -> string
}.

(** [os.Getenv], and the [envPath, _ := os.LookupEnv(..)] of [FindPath]. *)
Definition Getenv (o : OS) (key : string) : string :=
  default "" (os_LookupEnv o key).

Definition has_NUL (s : string) : bool :=
  existsb (fun c => (nat_of_ascii c =? 0)%nat) (list_ascii_of_string s).

(** [os.Setenv] with its error dropped, as [New] calls it: a value with a
    NUL byte is refused and the environment stays as it was. *)
Definition Setenv (key value : string) (o : OS) : OS :=
  if has_NUL value then o
  else {| os_LookupEnv := fun k => if String.eqb k key then Some value
                                   else os_LookupEnv o k;
          os_GOOS := os_GOOS o; os_Stat := os_Stat o;
          os_Join := os_Join o; os_ExpandEnv := os_ExpandEnv o |}.

(** The loop over [paths]: the first one that exists, expanded. *)
Fixpoint first_existing (o : OS) (paths : list string) : option string :=
  match paths with
  | [] => None
  | p :: rest =>
      let p := os_ExpandEnv o p in
      if os_Stat o p then Some p else first_existing o rest
  end.

Definition Chrome_paths (o : OS) : list string :=
  let username := Getenv o "USERNAME" in
  [ "C:\Program Files (x86)\Google\Chrome\Application\chrome.exe";
    "C:\Program Files\Google\Chrome\Application\chrome.exe";
    os_Join o ["C:\Users"; username;
               "AppData\Local\Google\Chrome\Application\chrome.exe"];
    "C:\Program Files (x86)\Chromium\Application\chrome.exe";
    "C:\Program Files\Chromium\Application\chrome.exe";
    os_Join o ["C:\Users"; username;
               "AppData\Local\Chromium\Application\chrome.exe"];
    "C:\Program Files (x86)\Microsoft\Edge\Application\msedge.exe";
    "C:\Program Files\Microsoft\Edge\Application\msedge.exe";
    os_Join o ["C:\Users"; username;
               "AppData\Local\Microsoft\Edge\Application\msedge.exe"];
    "C:\Program Files (x86)\BraveSoftware\Brave-Browser\Application\brave.exe";
    "C:\Program Files\BraveSoftware\Brave-Browser\Application\brave.exe";
    os_Join o ["C:\Users"; username;
               "AppData\Local\BraveSoftware\Brave-Browser\Application\brave.exe"] ].

Definition Chrome_FindPath (o : OS) : error + string :=
  let envPath := Getenv o "MAJORCA_BROWSER" in
  if negb (String.eqb envPath "") then inr envPath
  else if String.eqb (os_GOOS o) "windows" then
    match first_existing o (Chrome_paths o) with
    | Some p => inr p
    | None => inl (Errorf "could not find Chrome binary")
    end
  else inl (Errorf ("unsupported OS: " +:+ os_GOOS o)).

Definition Firefox_paths (o : OS) : list string :=
  let username := Getenv o "USERNAME" in
  [ "C:\Program Files\Mozilla Firefox\firefox.exe";
    "C:\Program Files (x86)\Mozilla Firefox\firefox.exe";
    os_Join o ["C:\Users"; username; "AppData\Local\Mozilla Firefox\firefox.exe"] ].

Definition Firefox_FindPath (o : OS) : error + string :=
  let envPath := Getenv o "MAJORCA_BROWSER" in
  if negb (String.eqb envPath "") then inr envPath
  else if String.eqb (os_GOOS o) "windows" then
    match first_existing o (Firefox_paths o) with
    | Some p => inr p
    | None => inl (Errorf "could not find Firefox binary")
    end
  else inl (Errorf ("unsupported OS: " +:+ os_GOOS o)).

(** ** [firefox.Kill] *)

(** [firefox.Firefox]: the base session, the profile path, and whether the
    profile directory is on disk. *)
Record FirefoxSess : Type := {
  fx_base : Sess;
  fx_profile : string;
  fx_profile_on_disk : bool
}.

(** [rm] is what [os.RemoveAll] answers; when it fails, something of the
    directory is left. *)
Definition Firefox_Kill (e : Env) (rm : option error) (f : FirefoxSess)
  : option (FirefoxSess * option error) :=
  '(s', err) ← Kill_call e (fx_base f);
  match err with
  | Some err =>
      Some ({| fx_base := s'; fx_profile := fx_profile f;
               fx_profile_on_disk := fx_profile_on_disk f |}, Some err)
  | None =>
      match rm with
      | Some err =>
          Some ({| fx_base := s'; fx_profile := fx_profile f;
                   fx_profile_on_disk := fx_profile_on_disk f |},
                Some (wrapError "failed to delete Firefox profile directory: " err))
      | None =>
          Some ({| fx_base := s'; fx_profile := fx_profile f;
                   fx_profile_on_disk := false |}, None)
      end
  end.




(** ** More sample data *)

(** [Process.Kill] fails, the probe's signal goes through. *)
Definition env_kill_fails : Env :=
  {| env_send := None; env_recv := inl (Errorf "EOF"); env_close := None;
     env_start := inr 4242; env_kill := Some (Errorf "Access is denied.");
     env_signal := None; env_peer := 0; env_ftoa := strconv_shortest |}.

(** The dispatcher with one call of [Kill]. *)
Definition client_Kill : Config :=
  {| sess := connected; threads := [T_handleResponse D_select; T_Kill K_entry] |}.

(** A frame arrives, then [Kill] takes the mutex and waits. *)
Definition sched_frame_then_Kill : list (nat * Env) :=
  [(0%nat, env_ok); (0%nat, env_reply 1 title_reply);
   (1%nat, env_ok); (1%nat, env_ok)].

(** A second [Bind] of a name that is bound. *)
Definition client_Bind : Config :=
  {| sess := set_Bindings {[ "title" := sample_binding ]} started;
     threads := [T_Bind (B_entry "title" (fun args => (VBool true, None)))] |}.

(** Two calls of [Start] on a new session. *)
Definition client_Start_Start : Config :=
  {| sess := new_session; threads := [T_Start S_entry; T_Start S_entry] |}.

Definition sched_Start_Start : list (nat * Env) :=
  [(0%nat, env_ok); (0%nat, env_ok); (1%nat, env_ok); (1%nat, env_ok)].

(** A Windows machine where only the second Chrome candidate exists. *)
Definition windows_with_chrome : OS :=
  {| os_LookupEnv := fun k => if String.eqb k "USERNAME" then Some "user" else None;
     os_GOOS := "windows";
     os_Stat := fun p =>
       String.eqb p "C:\Program Files\Google\Chrome\Application\chrome.exe";
     os_Join := join backslash;
     os_ExpandEnv := fun p => p |}.

(** A [firefox] session whose process runs and whose profile is on disk. *)
Definition firefox_started : FirefoxSess :=
  {| fx_base := started; fx_profile := "C:\Temp\firefox_profile_1";
     fx_profile_on_disk := true |}.

Definition firefox_killed : FirefoxSess :=
  {| fx_base :=
       {| mu := false; Cmd_Process := Some {| Pid := 4242; running := false |};
          Ws := None; Id := 1; Pending := ∅; Bindings := ∅; Done := true;
          Wg := 0; chans := 0;
          trace := [EvSpawn 4242; EvCloseDone; EvSignalKill 4242] |};
     fx_profile := "C:\Temp\firefox_profile_1";
     fx_profile_on_disk := false |}.

(** The dispatcher with a call of [Eval], of [Kill] and of [Bind]. *)
Definition client_Eval_Kill_Bind : Config :=
  {| sess := connected;
     threads := [T_handleResponse D_select; T_Eval (E_entry "document.title");
                 T_Kill K_entry; T_Bind (B_entry "title" sample_binding)] |}.

(** * Properties *)

Lemma Unlock_Lock s : mu s = false -> Unlock (set_mu true s) = s.
Proof. destruct s; simpl; intros ->; reflexivity. Qed.

Lemma Lock_free s : mu s = false -> Lock s = Some (set_mu true s).
Proof. unfold Lock; intros ->; reflexivity. Qed.

(** ** Counting goroutines *)

Lemma count_if_insert {A} (f : A -> bool) (l : list A) (i : nat) (x y : A) :
  l !! i = Some x ->
  (count_if f (<[i := y]> l) + b2n (f x) = count_if f l + b2n (f y))%nat.
Proof.
  revert i. induction l as [|a l IH]; intros [|i] H; simplify_eq/=.
  - unfold b2n. destruct (f x), (f y); lia.
  - specialize (IH i H). lia.
Qed.

Lemma count_if_lookup {A} (f : A -> bool) (l : list A) (i : nat) (x : A) :
  l !! i = Some x -> (b2n (f x) <= count_if f l)%nat.
Proof.
  revert i. induction l as [|a l IH]; intros [|i] H; simplify_eq/=.
  - unfold b2n. destruct (f x); lia.
  - specialize (IH i H). lia.
Qed.

Lemma count_if_lookup2 {A} (f : A -> bool) (l : list A) (i j : nat) (x y : A) :
  i <> j -> l !! i = Some x -> l !! j = Some y ->
  (b2n (f x) + b2n (f y) <= count_if f l)%nat.
Proof.
  revert i j. induction l as [|a l IH]; intros [|i] [|j] Hne Hi Hj; simplify_eq/=.
  - pose proof (count_if_lookup f l j y Hj). unfold b2n in *. destruct (f x); lia.
  - pose proof (count_if_lookup f l i x Hi). unfold b2n in *. destruct (f y); lia.
  - assert (i <> j) by congruence. specialize (IH i j H Hi Hj). lia.
Qed.

Lemma count_if_zero {A} (f : A -> bool) (l : list A) (i : nat) (x : A) :
  count_if f l = 0%nat -> l !! i = Some x -> f x = false.
Proof.
  intros Hc Hi. pose proof (count_if_lookup f l i x Hi) as H.
  unfold b2n in H. destruct (f x); [lia|done].
Qed.

Lemma count_if_app {A} (f : A -> bool) (l1 l2 : list A) :
  count_if f (l1 ++ l2) = (count_if f l1 + count_if f l2)%nat.
Proof. induction l1 as [|a l1 IH]; cbn; [done|]. rewrite IH. lia. Qed.

Lemma count_if_none {A} (f g : A -> bool) (l : list A) :
  (forall x, g x = true -> f x = false) ->
  forallb g l = true -> count_if f l = 0%nat.
Proof.
  intros Hfg. induction l as [|a l IH]; cbn; [done|].
  intros [Ha Hl]%andb_prop. rewrite (Hfg a Ha), IH; done.
Qed.

(** ** One step of one goroutine *)

Lemma tstep_mutex e s t s' t' :
  tstep e s t = Some (s', t') ->
  (holds t = false /\ holds t' = true /\ mu s = false /\ mu s' = true)
  \/ (holds t = true /\ holds t' = false /\ mu s' = false)
  \/ (holds t = holds t' /\ mu s' = mu s).
Proof.
  intros H. tstep_cases H; cbn; auto 10.
Qed.

Lemma closes_log ev s : closes (log ev s) = (closes s + b2n (is_CloseDone ev))%nat.
Proof. unfold closes, log; cbn. rewrite count_if_app. cbn. unfold b2n. lia. Qed.

Lemma tstep_wg e s t s' t' :
  tstep e s t = Some (s', t') ->
  (b2n (live t) <= Wg s)%nat ->
  (Wg s' + b2n (live t) = Wg s + b2n (live t'))%nat.
Proof.
  intros H. tstep_cases H; cbn; try lia.
Qed.

Lemma tstep_closes e s t s' t' :
  tstep e s t = Some (s', t') ->
  (closes s' + b2n (Done s) = closes s + b2n (Done s'))%nat.
Proof.
  intros H. tstep_cases H; unfold closes; cbn; rewrite ?count_if_app; cbn;
    repeat match goal with Hd : Done _ = _ |- _ => rewrite ?Hd; clear Hd end;
    cbn; lia.
Qed.

Lemma tstep_Done_mono e s t s' t' :
  tstep e s t = Some (s', t') -> Done s = true -> Done s' = true.
Proof.
  intros H. tstep_cases H; cbn; auto; congruence.
Qed.

Lemma tstep_signalled e s t s' t' :
  tstep e s t = Some (s', t') ->
  kill_signalled t' = true ->
  kill_signalled t = true \/ Done s' = true.
Proof.
  intros H. tstep_cases H; cbn; auto.
Qed.

Lemma tstep_Wg_zero e s t s' t' :
  tstep e s t = Some (s', t') -> Wg s = 0%nat -> Wg s' = 0%nat.
Proof.
  intros H. tstep_cases H; cbn; auto; congruence.
Qed.

Lemma tstep_returned e s t s' t' :
  tstep e s t = Some (s', t') ->
  kill_returned t' = true ->
  kill_returned t = true \/ Wg s' = 0%nat.
Proof.
  intros H. tstep_cases H; cbn; auto.
Qed.

Lemma tstep_Pending e s t s' t' :
  tstep e s t = Some (s', t') ->
  holds t = false \/ (exists pc, t = T_Kill pc) ->
  Pending s' = Pending s.
Proof.
  intros H. tstep_cases H; cbn; auto; intros [?|[? ?]]; done.
Qed.

(** ** One step of a configuration *)

Lemma receive_inv e ch v w w' :
  receive e ch v w = Some w' ->
  (w = T_Load (L_wait ch) /\ w' = T_Load (L_resume v))
  \/ (w = T_Eval (E_wait ch)
      /\ w' = T_Eval (E_returned (Eval_finish (env_ftoa e) v))).
Proof.
  destruct w as [[]|[]|[]|[]|[]|[]| |]; cbn; try done;
    case_decide; intros; simplify_eq; auto.
Qed.

Lemma step_inv i e c c' : step i e c = Some c' -> step_spec i e c c'.
Proof.
  unfold step. intros H.
  destruct (threads c !! i) as [t|] eqn:Ht; [|done]. cbn in H.
  assert (Hlocal :
    ('(s', t') ← tstep e (sess c) t;
     Some {| sess := s'; threads := <[i := t']> (threads c) |}) = Some c' ->
    step_spec i e c c').
  { intros H'. destruct (tstep e (sess c) t) as [[s' t']|] eqn:Hs; [|done].
    cbn in H'. simplify_eq. by eapply step_local. }
  destruct t as [[]| | | | | | |]; try (by apply Hlocal).
  destruct (threads c !! env_peer e) as [w|] eqn:Hw; [|done]. cbn in H.
  destruct (receive e ch (I_Result res) w) as [w'|] eqn:Hk; [|done]. cbn in H.
  simplify_eq. by eapply step_rendezvous.
Qed.

Lemma step_wf i e c c' : wf c -> step i e c = Some c' -> wf c'.
Proof.
  intros [Hmx Hwg Hcl Hsig Hret] Hstep.
  destruct (step_inv i e c c' Hstep) as
    [t s' t' Ht Hs ->|idStr ch res w w' Ht Hw Hk ->].
  - pose proof (count_if_insert holds _ _ _ t' Ht) as Hch.
    pose proof (count_if_insert live _ _ _ t' Ht) as Hcl'.
    pose proof (count_if_lookup live _ _ _ Ht) as Hlive.
    constructor; cbn.
    + pose proof (count_if_lookup holds _ _ _ Ht) as Hh.
      destruct (tstep_mutex _ _ _ _ _ Hs)
        as [(Ha & Hb & Hc & Hd)|[(Ha & Hb & Hc)|(Ha & Hb)]].
      * rewrite Ha, Hb in Hch. rewrite Hc in Hmx. rewrite Hd. cbn in *. lia.
      * rewrite Ha, Hb in Hch. rewrite Ha in Hh. rewrite Hc.
        destruct (mu (sess c)); cbn in *; lia.
      * rewrite <- Ha in Hch. rewrite Hb. lia.
    + pose proof (tstep_wg _ _ _ _ _ Hs) as H. lia.
    + pose proof (tstep_closes _ _ _ _ _ Hs) as H. lia.
    + destruct Hsig as [Hd|Hall].
      * left. by eapply tstep_Done_mono.
      * destruct (kill_signalled t') eqn:Hk.
        -- destruct (tstep_signalled _ _ _ _ _ Hs Hk) as [Hk'|Hd]; [|by left].
           rewrite Forall_lookup in Hall. specialize (Hall _ _ Ht). cbn in Hall. congruence.
        -- right. by apply Forall_insert.
    + destruct Hret as [Hz|Hall].
      * left. by eapply tstep_Wg_zero.
      * destruct (kill_returned t') eqn:Hk.
        -- destruct (tstep_returned _ _ _ _ _ Hs Hk) as [Hk'|Hd]; [|by left].
           rewrite Forall_lookup in Hall. specialize (Hall _ _ Ht). cbn in Hall. congruence.
        -- right. by apply Forall_insert.
  - assert (Hne : i <> env_peer e).
    { intros ->. rewrite Ht in Hw. by simplify_eq. }
    pose proof (count_if_lookup2 holds _ _ _ _ _ Hne Ht Hw) as H2.
    assert (Ht' : <[env_peer e := w']> (threads c) !! i
                  = Some (T_handleResponse (D_send idStr ch res)))
      by (by rewrite list_lookup_insert_ne).
    assert (Hmu : mu (sess c) = true /\ holds w = false).
    { rewrite Hmx in H2. cbn in H2. unfold b2n in H2.
      destruct (mu (sess c)), (holds w); split; try done; lia. }
    destruct Hmu as [Hmu Hhw].
    destruct (receive_inv _ _ _ _ _ Hk) as [[-> ->]|[-> ->]]; [done|].
    constructor; cbn.
    + pose proof (count_if_insert holds _ _ _ (T_Eval (E_returned
        (Eval_finish (env_ftoa e) (I_Result res)))) Hw) as H3.
      pose proof (count_if_insert holds _ _ _ (T_handleResponse D_select) Ht') as H4.
      rewrite Hmx, Hmu in H3. cbn in *. lia.
    + pose proof (count_if_insert live _ _ _ (T_Eval (E_returned
        (Eval_finish (env_ftoa e) (I_Result res)))) Hw) as H3.
      pose proof (count_if_insert live _ _ _ (T_handleResponse D_select) Ht') as H4.
      cbn in *. lia.
    + done.
    + destruct Hsig as [Hd|Hall]; [by left|right].
      apply Forall_insert; [|done]. by apply Forall_insert.
    + destruct Hret as [Hd|Hall]; [by left|right].
      apply Forall_insert; [|done]. by apply Forall_insert.
Qed.

Lemma run_wf sched : forall c c', wf c -> run sched c = Some c' -> wf c'.
Proof.
  induction sched as [|[i e] sched IH]; intros c c' Hwf H; cbn in H.
  - by simplify_eq.
  - destruct (step i e c) as [c1|] eqn:Hs; [|done]. cbn in H.
    eapply IH; [|done]. by eapply step_wf.
Qed.

Lemma initial_wf c : initial c = true -> wf c.
Proof.
  unfold initial. intros H.
  repeat (apply andb_prop in H as [H ?]).
  apply negb_true_iff in H.
  match goal with H : negb (Done _) = true |- _ => apply negb_true_iff in H end.
  repeat match goal with H : (_ =? _)%nat = true |- _ => apply Nat.eqb_eq in H end.
  assert (Hentry : forall f : Thread -> bool,
             (forall t, at_entry t = true -> f t = false) ->
             count_if f (threads c) = 0%nat).
  { intros f Hf. by eapply count_if_none. }
  assert (Hall : forall f : Thread -> bool,
             (forall t, at_entry t = true -> f t = false) ->
             Forall (fun t => f t = false) (threads c)).
  { intros f Hf. apply Forall_forall. intros t Hin.
    apply Hf. eapply forallb_forall; [done|]. by apply list_elem_of_In. }
  constructor.
  - rewrite H. apply Hentry. by intros [[]|[]|[]|[]|[]|[]| |].
  - done.
  - by replace (Done (sess c)) with false.
  - right. apply Hall. by intros [[]|[]|[]|[]|[]|[]| |].
  - right. apply Hall. by intros [[]|[]|[]|[]|[]|[]| |].
Qed.

Lemma reachable_wf c0 sched c :
  initial c0 = true -> run sched c0 = Some c -> wf c.
Proof. intros Hi Hr. eapply run_wf; [|done]. by apply initial_wf. Qed.

Lemma step_local_eq i e c t s' t' :
  threads c !! i = Some t ->
  (forall idStr ch res, t <> T_handleResponse (D_send idStr ch res)) ->
  tstep e (sess c) t = Some (s', t') ->
  step i e c = Some {| sess := s'; threads := <[i := t']> (threads c) |}.
Proof.
  intros Ht Hns Hs. unfold step. rewrite Ht. cbn.
  destruct t as [[]| | | | | | |]; try (rewrite Hs; reflexivity).
  by destruct (Hns idStr ch res).
Qed.

(** *** Kill and the dispatcher *)

Lemma returned_Wg_zero c i err :
  wf c -> threads c !! i = Some (T_Kill (K_return err)) -> Wg (sess c) = 0%nat.
Proof.
  intros Hwf Hi. destruct (wf_returned c Hwf) as [H|H]; [done|].
  rewrite Forall_lookup in H. by specialize (H _ _ Hi).
Qed.

Lemma signalled_Done c i t :
  wf c -> threads c !! i = Some t -> kill_signalled t = true -> Done (sess c) = true.
Proof.
  intros Hwf Hi Hk. destruct (wf_signalled c Hwf) as [H|H]; [done|].
  rewrite Forall_lookup in H. specialize (H _ _ Hi). cbn in H. congruence.
Qed.

Lemma tstep_no_panic e s t s' t' :
  tstep e s t = Some (s', t') ->
  Ws s <> None -> (b2n (live t) <= Wg s)%nat ->
  Ws s' <> None /\ (is_panic t = false -> is_panic t' = false).
Proof.
  intros H. tstep_cases H; cbn; intros; try lia; (split; [congruence|done]).
Qed.

Lemma run_no_panic sched : forall c c',
  wf c -> Ws (sess c) <> None -> Forall (fun t => is_panic t = false) (threads c) ->
  run sched c = Some c' ->
  Forall (fun t => is_panic t = false) (threads c').
Proof.
  induction sched as [|[i e] sched IH]; intros c c' Hwf Hws Hall H; cbn in H.
  - by simplify_eq.
  - destruct (step i e c) as [c1|] eqn:Hs; [|done]. cbn in H.
    pose proof (step_wf _ _ _ _ Hwf Hs) as Hwf1.
    apply (IH c1 c' Hwf1); [| |done].
    + destruct (step_inv _ _ _ _ Hs) as
        [t s' t' Ht Hst ->|idStr ch res w w' Ht Hw Hk ->]; cbn; [|done].
      eapply tstep_no_panic; [done|done|].
      rewrite (wf_wg c Hwf). by eapply count_if_lookup.
    + destruct (step_inv _ _ _ _ Hs) as
        [t s' t' Ht Hst ->|idStr ch res w w' Ht Hw Hk ->]; cbn.
      * apply Forall_insert; [done|].
        eapply tstep_no_panic; [done|done| |].
        -- rewrite (wf_wg c Hwf). by eapply count_if_lookup.
        -- rewrite Forall_lookup in Hall. by apply (Hall _ _ Ht).
      * apply Forall_insert; [|done]. apply Forall_insert; [done|].
        by destruct (receive_inv _ _ _ _ _ Hk) as [[-> ->]|[-> ->]].
Qed.

(** A goroutine that no step moves stays where it is. *)
Lemma blocked_forever (P : Config -> Prop) (i : nat) (t : Thread) :
  (forall c k e c', P c -> threads c !! i = Some t -> step k e c = Some c' ->
                    P c' /\ threads c' !! i = Some t) ->
  forall sched c c',
    P c -> threads c !! i = Some t -> run sched c = Some c' ->
    P c' /\ threads c' !! i = Some t.
Proof.
  intros Hstep sched. induction sched as [|[k e] sched IH]; intros c c' HP Hi H; cbn in H.
  - by simplify_eq.
  - destruct (step k e c) as [c1|] eqn:Hs; [|done]. cbn in H.
    destruct (Hstep _ _ _ _ HP Hi Hs) as [HP1 Hi1]. by eapply IH.
Qed.

Lemma Kill_returned_stays sched c c' i err :
  threads c !! i = Some (T_Kill (K_return err)) ->
  run sched c = Some c' ->
  threads c' !! i = Some (T_Kill (K_return err)).
Proof.
  intros Hi Hr.
  apply (blocked_forever (fun _ => True) i (T_Kill (K_return err))) with sched c; try done.
  clear. intros c k e c' _ Hi Hs. split; [done|].
  destruct (step_inv _ _ _ _ Hs) as
    [t s' t' Ht Hst ->|idStr ch res w w' Ht Hw Hk ->]; cbn.
  - destruct (decide (k = i)) as [->|Hne].
    + rewrite Hi in Ht. by simplify_eq.
    + by rewrite list_lookup_insert_ne.
  - assert (k <> i) by (intros ->; rewrite Hi in Ht; done).
    assert (env_peer e <> i) by (intros E; rewrite E, Hi in Hw; by simplify_eq).
    by rewrite !list_lookup_insert_ne.
Qed.

(** While a [Kill] holds the mutex, a step of any goroutine leaves
    [Pending] as it is, and the [Kill] stays a [Kill]. *)
Lemma step_Kill_holds c i pc j e c' :
  wf c ->
  threads c !! i = Some (T_Kill pc) ->
  pc = K_locked \/ pc = K_wait ->
  step j e c = Some c' ->
  Pending (sess c') = Pending (sess c)
  /\ exists pc', threads c' !! i = Some (T_Kill pc')
                 /\ (pc' = K_locked \/ pc' = K_wait \/ j = i /\ exists err, pc' = K_return err).
Proof.
  intros Hwf Hi Hpc Hs.
  assert (Hh : holds (T_Kill pc) = true) by (by destruct Hpc as [-> | ->]).
  destruct (step_inv _ _ _ _ Hs) as
    [t s' t' Ht Hst ->|idStr ch res w w' Ht Hw Hk ->]; cbn.
  - split.
    + eapply tstep_Pending; [done|].
      destruct (decide (j = i)) as [->|Hne].
      * right. rewrite Hi in Ht. simplify_eq. eauto.
      * left. pose proof (count_if_lookup2 holds _ _ _ _ _ Hne Ht Hi) as H2.
        rewrite (wf_mutex c Hwf), Hh in H2. unfold b2n in H2.
        destruct (holds t), (mu (sess c)); cbn in H2; try done; lia.
    + destruct (decide (j = i)) as [->|Hne].
      * rewrite Hi in Ht. simplify_eq.
        rewrite list_lookup_insert_eq by (by eapply lookup_lt_Some).
        destruct Hpc as [-> | ->]; cbn in Hst.
        -- simplify_eq. eauto.
        -- repeat (progress simplify_option_eq || case_match); eauto 10.
      * rewrite list_lookup_insert_ne by done. exists pc. split; [done|].
        destruct Hpc; auto.
  - exfalso. assert (Hne : j <> i).
    { intros ->. rewrite Hi in Ht. by destruct Hpc; simplify_eq. }
    pose proof (count_if_lookup2 holds _ _ _ _ _ Hne Ht Hi) as H2.
    rewrite (wf_mutex c Hwf), Hh in H2. unfold b2n in H2.
    destruct (mu (sess c)); cbn in H2; lia.
Qed.

Lemma run_Kill_holds sched : forall c c' i pc pc',
  wf c ->
  threads c !! i = Some (T_Kill pc) ->
  pc = K_locked \/ pc = K_wait ->
  run sched c = Some c' ->
  threads c' !! i = Some (T_Kill pc') ->
  pc' = K_locked \/ pc' = K_wait ->
  Pending (sess c') = Pending (sess c).
Proof.
  induction sched as [|[j e] sched IH]; intros c c' i pc pc' Hwf Hi Hpc Hr Hi' Hpc';
    cbn in Hr.
  - by simplify_eq.
  - destruct (step j e c) as [c1|] eqn:Hs; [|done]. cbn in Hr.
    destruct (step_Kill_holds _ _ _ _ _ _ Hwf Hi Hpc Hs) as (HP & pc1 & Hi1 & Hpc1).
    rewrite <- HP.
    destruct Hpc1 as [H1|[H1|[_ [err ->]]]].
    + eapply (IH c1 c' i pc1 pc'); eauto using step_wf.
    + eapply (IH c1 c' i pc1 pc'); eauto using step_wf.
    + pose proof (Kill_returned_stays _ _ _ _ _ Hi1 Hr) as H.
      rewrite Hi' in H. by destruct Hpc'; simplify_eq.
Qed.

(** C2 (amended): once a [Kill] has returned, every dispatcher has left
    [handleResponse] (by returning, when the session had a connection).
    [Kill] removes no slot: from the moment it holds the mutex, through
    every interleaving with the other goroutines, up to and including the
    step that makes it return, [Pending] stays what it was when [Kill] took
    the mutex. *)
Theorem Kill_waits_for_dispatcher_keeps_Pending
    (c0 c : Config) (sched : list (nat * Env)) (i : nat) (pc : KillPc) :
  initial c0 = true ->
  run sched c0 = Some c ->
  threads c !! i = Some (T_Kill pc) ->
  (forall err, pc = K_return err ->
     forall j d, threads c !! j = Some (T_handleResponse d) ->
       (d = D_return \/ d = D_panic) /\ (Ws (sess c0) <> None -> d = D_return))
  /\ (pc = K_locked \/ pc = K_wait ->
      forall sched' c1,
        run sched' c = Some c1 ->
        ((exists pc1, threads c1 !! i = Some (T_Kill pc1)
                      /\ (pc1 = K_locked \/ pc1 = K_wait)) ->
         Pending (sess c1) = Pending (sess c))
        /\ (forall e c' err,
              step i e c1 = Some c' ->
              threads c' !! i = Some (T_Kill (K_return err)) ->
              Pending (sess c') = Pending (sess c)
              /\ Wg (sess c') = 0%nat
              /\ forall j d, threads c' !! j = Some (T_handleResponse d) ->
                             d = D_return \/ d = D_panic)).
Proof.
  intros Hinit Hrun Hi.
  pose proof (reachable_wf _ _ _ Hinit Hrun) as Hwf.
  split.
  - intros err -> j d Hj.
    pose proof (returned_Wg_zero _ _ _ Hwf Hi) as Hz.
    rewrite (wf_wg c Hwf) in Hz.
    pose proof (count_if_zero live _ _ _ Hz Hj) as Hl.
    split.
    + destruct d; cbn in Hl; auto; done.
    + intros Hws.
      assert (Hnp : Forall (fun t => is_panic t = false) (threads c)).
      { eapply (run_no_panic sched c0 c); [by apply initial_wf|done| |done].
        apply Forall_forall. intros t Hin.
        unfold initial in Hinit. apply andb_prop in Hinit as [_ Hall].
        assert (at_entry t = true)
          by (eapply forallb_forall; [done|]; by apply list_elem_of_In).
        by destruct t as [[]| | | | | | |]. }
      rewrite Forall_lookup in Hnp. specialize (Hnp _ _ Hj).
      destruct d; cbn in Hl, Hnp; done.
  - intros Hpc sched' c1 Hr1.
    pose proof (run_wf _ _ _ Hwf Hr1) as Hwf1.
    assert (Hkeep : forall pc1, threads c1 !! i = Some (T_Kill pc1) ->
                                pc1 = K_locked \/ pc1 = K_wait ->
                                Pending (sess c1) = Pending (sess c)).
    { intros pc1 Hi1 Hpc1. by eapply (run_Kill_holds sched' c c1 i pc pc1). }
    split; [by intros (pc1 & Hi1 & Hpc1); eapply Hkeep|].
    intros e c' err Hs Hi'.
    assert (Hi1 : threads c1 !! i = Some (T_Kill K_wait)).
    { destruct (step_inv _ _ _ _ Hs) as
        [t s' t' Ht Hst ->|idStr ch res w w' Ht Hw Hk ->]; cbn in Hi'.
      - rewrite list_lookup_insert_eq in Hi' by (by eapply lookup_lt_Some).
        simplify_eq. rewrite Ht. f_equal.
        tstep_cases Hst; done.
      - rewrite list_lookup_insert_eq in Hi'
          by (rewrite length_insert; by eapply lookup_lt_Some).
        done. }
    destruct (step_Kill_holds _ _ _ _ _ _ Hwf1 Hi1 (or_intror eq_refl) Hs) as [HP _].
    pose proof (step_wf _ _ _ _ Hwf1 Hs) as Hwf'.
    pose proof (returned_Wg_zero _ _ _ Hwf' Hi') as Hz.
    split; [|split; [done|]].
    + rewrite HP. eapply Hkeep; eauto.
    + intros j d Hj. rewrite (wf_wg c' Hwf') in Hz.
      pose proof (count_if_zero live _ _ _ Hz Hj) as Hl.
      destruct d; cbn in Hl; auto; done.
Qed.

(** *** Kill twice *)

Lemma step_Done_mono i e c c' :
  step i e c = Some c' -> Done (sess c) = true -> Done (sess c') = true.
Proof.
  intros Hs Hd.
  destruct (step_inv _ _ _ _ Hs) as
    [t s' t' Ht Hst ->|idStr ch res w w' Ht Hw Hk ->]; cbn; [|done].
  by eapply tstep_Done_mono.
Qed.

Lemma run_Done_mono sched : forall c c',
  run sched c = Some c' -> Done (sess c) = true -> Done (sess c') = true.
Proof.
  induction sched as [|[i e] sched IH]; intros c c' H Hd; cbn in H.
  - by simplify_eq.
  - destruct (step i e c) as [c1|] eqn:Hs; [|done]. cbn in H.
    eapply IH; [done|]. by eapply step_Done_mono.
Qed.

Lemma Kill_again (e1 e2 e3 : Env) (s : Sess) :
  mu s = false -> Done s = true -> Wg s = 0%nat -> process_gone s = true ->
  Kill e1 s K_entry = Some (set_mu true s, K_locked)
  /\ Kill e2 (set_mu true s) K_locked = Some (close_Ws e2 (set_mu true s), K_wait)
  /\ exists s3,
      Kill e3 (close_Ws e2 (set_mu true s)) K_wait = Some (s3, K_return None)
      /\ Done s3 = true /\ closes s3 = closes s /\ mu s3 = false.
Proof.
  intros Hmu Hd Hw Hp. unfold process_gone in Hp.
  split; [|split].
  - cbn. by rewrite (Lock_free s Hmu).
  - cbn. unfold signal_stop. cbn. by rewrite Hd.
  - unfold Kill, close_Ws, Process_Kill, isProcessRunning, closes.
    destruct s as [m p w i pe b d g ch tr]; cbn in *; subst.
    destruct w as [cn|]; cbn; destruct p as [[pid r]|]; cbn in *;
      try (apply negb_true_iff in Hp; subst r); cbn;
      try destruct (env_kill e3); cbn;
      (eexists; split; [reflexivity|]); cbn; rewrite ?count_if_app; cbn;
      repeat split; lia.
Qed.

Lemma lookup_insert_same {A} (l : list A) (i : nat) (x y : A) :
  l !! i = Some x -> <[i := y]> l !! i = Some y.
Proof. intros H. apply list_lookup_insert_eq. by eapply lookup_lt_Some. Qed.

(** C7: [Done] is closed once.  After a [Kill] has returned and the process
    is gone, a further [Kill] that finds the mutex free runs to its return,
    returns [nil], and closes nothing: [Done] was closed exactly once before
    it, exactly once after it, and exactly once whatever runs from there. *)
Theorem Kill_idempotent
    (c0 c : Config) (sched : list (nat * Env)) (i j : nat) (err : option error)
    (e1 e2 e3 : Env) :
  initial c0 = true ->
  run sched c0 = Some c ->
  threads c !! i = Some (T_Kill (K_return err)) ->
  threads c !! j = Some (T_Kill K_entry) ->
  mu (sess c) = false ->
  process_gone (sess c) = true ->
  exists c',
    run [(j, e1); (j, e2); (j, e3)] c = Some c'
    /\ threads c' !! j = Some (T_Kill (K_return None))
    /\ Done (sess c) = true /\ Done (sess c') = true
    /\ closes (sess c) = 1%nat /\ closes (sess c') = 1%nat
    /\ forall sched' c'', run sched' c = Some c'' -> closes (sess c'') = 1%nat.
Proof.
  intros Hinit Hrun Hi Hj Hmu Hgone.
  pose proof (reachable_wf _ _ _ Hinit Hrun) as Hwf.
  pose proof (returned_Wg_zero _ _ _ Hwf Hi) as Hz.
  pose proof (signalled_Done _ _ _ Hwf Hi eq_refl) as Hd.
  pose proof (wf_closes c Hwf) as Hcl. rewrite Hd in Hcl. cbn in Hcl.
  destruct (Kill_again e1 e2 e3 (sess c) Hmu Hd Hz Hgone)
    as (H1 & H2 & s3 & H3 & Hd3 & Hc3 & Hm3).
  set (c1 := {| sess := set_mu true (sess c);
                threads := <[j := T_Kill K_locked]> (threads c) |}).
  set (c2 := {| sess := close_Ws e2 (set_mu true (sess c));
                threads := <[j := T_Kill K_wait]> (threads c1) |}).
  set (c3 := {| sess := s3;
                threads := <[j := T_Kill (K_return None)]> (threads c2) |}).
  assert (S1 : step j e1 c = Some c1).
  { apply (step_local_eq j e1 c (T_Kill K_entry)); [done|done|].
    cbn [tstep]. by rewrite H1. }
  assert (S2 : step j e2 c1 = Some c2).
  { apply (step_local_eq j e2 c1 (T_Kill K_locked)); [|done|].
    - by eapply lookup_insert_same.
    - cbn [tstep sess c1]. by rewrite H2. }
  assert (S3 : step j e3 c2 = Some c3).
  { apply (step_local_eq j e3 c2 (T_Kill K_wait)); [|done|].
    - eapply lookup_insert_same. by eapply lookup_insert_same.
    - cbn [tstep sess c2]. by rewrite H3. }
  exists c3. split; [|split; [|split; [|split; [|split; [|split]]]]].
  - cbn [run]. rewrite S1. cbn [mbind option_bind]. rewrite S2.
    cbn [mbind option_bind]. rewrite S3. reflexivity.
  - cbn [threads c3 c2 c1]. eapply lookup_insert_same.
    eapply lookup_insert_same. by eapply lookup_insert_same.
  - done.
  - done.
  - done.
  - cbn [sess c3]. lia.
  - intros sched' c'' Hrun'.
    rewrite (wf_closes c'' (run_wf _ _ _ Hwf Hrun')).
    by rewrite (run_Done_mono _ _ _ Hrun' Hd).
Qed.

(** *** The mutex across the wait *)

Lemma Eval_releases_mutex (e : Env) (s s' : Sess) (expr : string) (ch : nat) :
  Eval e s (E_locked expr) = Some (s', E_wait ch) ->
  mu s' = false
  /\ Pending s' !! pretty (Id s) = Some ch
  /\ Id s' = int32_incr (Id s)
  /\ trace s' = trace s ++ [EvSend {| req_id := Id s; req_method := "Runtime.evaluate";
                                      req_params := [("expression", expr)] |}].
Proof.
  unfold Eval. intros H. repeat case_match; simplify_eq/=.
  repeat split. apply lookup_insert_eq.
Qed.

Lemma Load_keeps_mutex (e : Env) (s s' : Sess) (url : string) (ch : nat) :
  Load e s (L_locked url) = Some (s', L_wait ch) ->
  mu s' = mu s
  /\ Pending s' !! pretty (Id s) = Some ch
  /\ Id s' = int32_incr (Id s)
  /\ trace s' = trace s ++ [EvSend {| req_id := Id s; req_method := "Page.navigate";
                                      req_params := [("url", url)] |}].
Proof.
  unfold Load. intros H. repeat case_match; simplify_eq/=.
  repeat split. apply lookup_insert_eq.
Qed.

Lemma holder_mutex c i t :
  wf c -> threads c !! i = Some t -> holds t = true -> mu (sess c) = true.
Proof.
  intros Hwf Hi Hh. pose proof (count_if_lookup holds _ _ _ Hi) as H.
  rewrite (wf_mutex c Hwf), Hh in H. unfold b2n in H.
  destruct (mu (sess c)); [done|lia].
Qed.

Lemma Load_wait_step c i ch k e c' :
  wf c -> threads c !! i = Some (T_Load (L_wait ch)) ->
  step k e c = Some c' ->
  threads c' !! i = Some (T_Load (L_wait ch)).
Proof.
  intros Hwf Hi Hs.
  destruct (step_inv _ _ _ _ Hs) as
    [t s' t' Ht Hst ->|idStr ch' res w w' Ht Hw Hk ->]; cbn.
  - destruct (decide (k = i)) as [->|Hne].
    + rewrite Hi in Ht. by simplify_eq.
    + by rewrite list_lookup_insert_ne.
  - exfalso. assert (Hne : k <> i).
    { intros ->. rewrite Hi in Ht. done. }
    pose proof (count_if_lookup2 holds _ _ _ _ _ Hne Ht Hi) as H2.
    rewrite (wf_mutex c Hwf) in H2. unfold b2n in H2.
    destruct (mu (sess c)); cbn in H2; lia.
Qed.

(** C1 (the code departs from it in [Load]): a command must release the
    session mutex before it blocks on its slot.  [Eval] does
    ([Eval_releases_mutex]); [Load] does not: whenever a [Load] has sent its
    request and waits on its slot, the mutex is held, and from then on,
    whatever the other goroutines do and whatever arrives, that [Load] is
    still waiting and the mutex is still held. *)
Theorem Load_waits_holding_mutex
    (c0 c : Config) (sched : list (nat * Env)) (i ch : nat) :
  initial c0 = true ->
  run sched c0 = Some c ->
  threads c !! i = Some (T_Load (L_wait ch)) ->
  mu (sess c) = true
  /\ forall sched' c',
       run sched' c = Some c' ->
       threads c' !! i = Some (T_Load (L_wait ch)) /\ mu (sess c') = true.
Proof.
  intros Hinit Hrun Hi.
  pose proof (reachable_wf _ _ _ Hinit Hrun) as Hwf.
  split; [by eapply holder_mutex|].
  intros sched'. clear Hinit Hrun. revert c Hwf Hi.
  induction sched' as [|[k e] sched' IH]; intros c Hwf Hi c' H; cbn in H.
  - simplify_eq. split; [done|]. by eapply holder_mutex.
  - destruct (step k e c) as [c1|] eqn:Hs; [|done]. cbn in H.
    eapply (IH c1); [by eapply step_wf| |done].
    by eapply Load_wait_step.
Qed.

(** C8: when the process handle exists, [Start] returns [nil] and leaves
    the session as it was: no process is spawned, the handle is unchanged. *)
Theorem Start_idempotent (e : Env) (s : Sess) (p : Process) :
  Cmd_Process s = Some p ->
  mu s = false ->
  Start_call e s = Some (s, None).
Proof.
  intros Hp Hmu. unfold Start_call. cbn [Start].
  rewrite (Lock_free s Hmu). cbn.
  rewrite Hp. cbn. by rewrite Unlock_Lock.
Qed.

Lemma Bind_call_eq (s : Sess) (name : string) (f : BindingFunc) :
  mu s = false ->
  Bind_call name f s =
    match Bindings s !! name with
    | Some _ => Some (s, Some (Errorf ("binding " +:+ name +:+ " already exists")))
    | None => Some (set_Bindings (<[name := f]> (Bindings s)) s, None)
    end.
Proof.
  intros Hmu. unfold Bind_call. cbn [Bind].
  rewrite (Lock_free s Hmu). cbn.
  destruct (Bindings s !! name); cbn.
  - by rewrite Unlock_Lock.
  - do 2 f_equal. destruct s; simpl in *; subst; reflexivity.
Qed.

(** C10: [Bind] returns an error exactly when the name is bound; otherwise
    it stores the function under the name and returns [nil], after which
    a further [Bind] of the same name fails and leaves the first binding. *)
Theorem Bind_error_iff_bound (s : Sess) (name : string) (f : BindingFunc) :
  mu s = false ->
  exists s' err,
    Bind_call name f s = Some (s', err)
    /\ (is_Some err <-> is_Some (Bindings s !! name))
    /\ (err = None -> Bindings s' = <[name := f]> (Bindings s))
    /\ (is_Some err -> s' = s)
    /\ (forall g : BindingFunc,
          err = None ->
          exists err2,
            Bind_call name g s' = Some (s', Some err2)
            /\ Bindings s' !! name = Some f).
Proof.
  intros Hmu. rewrite Bind_call_eq by done.
  destruct (Bindings s !! name) as [g0|] eqn:Hb.
  - eexists _, _. split; [reflexivity|].
    repeat split; try done; eauto.
  - eexists _, _. split; [reflexivity|].
    repeat split; try done; try (intros [? ?]; done).
    intros g _. rewrite Bind_call_eq by (destruct s; done).
    cbn. rewrite lookup_insert_eq. eauto.
Qed.

(** C9: [firefox]'s [Load] returns [nil] and its [Eval] returns
    [("", "", nil)], whatever the session (connection, process) is, and they
    leave it unchanged. *)
Theorem Firefox_Load_Eval_stubs (e : Env) (s : Sess) (url expr : string) :
  Firefox_Load url s = (s, None)
  /\ Firefox_Eval expr s = (s, ("", "", None))
  /\ tstep e s (call_Load Firefox url) = Some (s, T_Load (L_return None))
  /\ tstep e s (call_Eval Firefox expr) = Some (s, T_Eval (E_return "" "" None)).
Proof. repeat split. Qed.

Lemma cancel_registered (s : Sess) (idStr : string) (ch : nat) :
  delete idStr (<[idStr := ch]> (Pending s)) = delete idStr (Pending s).
Proof. apply delete_insert_eq. Qed.

(** C5: when the send fails, [Load] and [Eval] delete the slot they have
    just stored under the request id, release the mutex and return the
    error "failed to send WebSocket message: ..." around the cause. *)
Theorem send_failure_cancels_slot (e : Env) (s : Sess) (c : Conn) (err : error)
    (url expr : string) :
  Ws s = Some c ->
  ws_Send e c = Some err ->
  (exists s',
      Load e s (L_locked url)
      = Some (s', L_return (Some (wrapError "failed to send WebSocket message: " err)))
      /\ Pending s' = delete (pretty (Id s)) (Pending s)
      /\ Pending s' !! pretty (Id s) = None
      /\ mu s' = false /\ trace s' = trace s)
  /\ (exists s',
      Eval e s (E_locked expr)
      = Some (s', E_return "" "" (Some (wrapError "failed to send WebSocket message: " err)))
      /\ Pending s' = delete (pretty (Id s)) (Pending s)
      /\ Pending s' !! pretty (Id s) = None
      /\ mu s' = false /\ trace s' = trace s).
Proof.
  intros Hws Hsend. split.
  - unfold Load. rewrite Hws, Hsend. eexists. split; [reflexivity|].
    cbn. rewrite cancel_registered. repeat split. apply lookup_delete_eq.
  - unfold Eval. rewrite Hws, Hsend. eexists. split; [reflexivity|].
    cbn. rewrite cancel_registered. repeat split. apply lookup_delete_eq.
Qed.

(** C4 (amended): with no connection, [chrome]'s [Load] and [Eval] take the
    mutex and return the error "WebSocket connection is not established",
    leaving the session as it was (no slot, nothing sent, no wait);
    [firefox]'s [Load] and [Eval] return without an error. *)
Theorem not_connected_fails_fast (e1 e2 : Env) (s : Sess) (url expr : string) :
  Ws s = None ->
  mu s = false ->
  run [(0%nat, e1); (0%nat, e2)] {| sess := s; threads := [call_Load Chrome url] |}
  = Some {| sess := s; threads := [T_Load (L_return (Some ErrNotConnected))] |}
  /\ run [(0%nat, e1); (0%nat, e2)] {| sess := s; threads := [call_Eval Chrome expr] |}
     = Some {| sess := s; threads := [T_Eval (E_return "" "" (Some ErrNotConnected))] |}
  /\ run [(0%nat, e1)] {| sess := s; threads := [call_Load Firefox url] |}
     = Some {| sess := s; threads := [T_Load (L_return None)] |}
  /\ run [(0%nat, e1)] {| sess := s; threads := [call_Eval Firefox expr] |}
     = Some {| sess := s; threads := [T_Eval (E_return "" "" None)] |}.
Proof.
  intros Hws Hmu. repeat split.
  - cbn. rewrite (Lock_free s Hmu). cbn. rewrite Hws. cbn.
    by rewrite Unlock_Lock.
  - cbn. rewrite (Lock_free s Hmu). cbn. rewrite Hws. cbn.
    by rewrite Unlock_Lock.
Qed.

Lemma connectWebSocket_attempt (v : Variant) (n : NetEnv) (s : Sess) :
  (connectWebSocket v n s).2 = attempt v n.
Proof.
  unfold attempt. destruct v; cbn;
    unfold Chrome_connectWebSocket, Firefox_connectWebSocket;
    repeat case_match; reflexivity.
Qed.

Lemma retry_loop_connects v delay nets :
  forall (r k i : nat) err s,
    (k < r)%nat ->
    (forall j, (j < k)%nat -> attempt v (nets (i + j)%nat) <> None) ->
    attempt v (nets (i + k)%nat) = None ->
    (retry_loop v delay nets r i err s).2 = true.
Proof.
  induction r as [|r IH]; intros k i err s Hk Hfail Hok; [lia|].
  cbn [retry_loop].
  pose proof (connectWebSocket_attempt v (nets i) s) as Ha.
  destruct (connectWebSocket v (nets i) s) as [s1 [e1|]]; cbn in Ha; [|reflexivity].
  destruct k as [|k].
  - rewrite Nat.add_0_r in Hok. congruence.
  - apply (IH k); [lia| |].
    + intros j Hj. replace (S i + j)%nat with (i + S j)%nat by lia.
      apply Hfail. lia.
    + by replace (S i + k)%nat with (i + S k)%nat by lia.
Qed.

Lemma retry_loop_exhausted v delay nets :
  forall (r i : nat) err s,
    (forall j, (j < r)%nat -> attempt v (nets (i + j)%nat) <> None) ->
    (retry_loop v delay nets r i err s).2 = false
    /\ (retry_loop v delay nets r i err s).1.2
       = match r with
         | O => err
         | S r' => attempt v (nets (i + r')%nat)
         end.
Proof.
  induction r as [|r IH]; intros i err s Hfail; [done|].
  cbn [retry_loop].
  pose proof (connectWebSocket_attempt v (nets i) s) as Ha.
  destruct (connectWebSocket v (nets i) s) as [s1 [e1|]]; cbn in Ha.
  - destruct (IH (S i) (Some e1) (log (EvSleep delay) s1)) as [Hb He].
    { intros j Hj. replace (S i + j)%nat with (i + S j)%nat by lia.
      apply Hfail. lia. }
    split; [done|]. rewrite He. destruct r.
    + by rewrite Nat.add_0_r.
    + f_equal. f_equal. lia.
  - exfalso. apply (Hfail 0%nat); [lia|]. by rewrite Nat.add_0_r.
Qed.

(** C6: [connectWebSocketWithRetry] with [maxRetries] attempts returns
    [nil] when attempts [1..k] fail and attempt [k+1 <= maxRetries]
    succeeds; when all [maxRetries >= 1] attempts fail it returns one error
    whose text carries [maxRetries] and the text of the last failure. *)
Theorem connectWebSocketWithRetry_result (v : Variant) (maxRetries delay : Z)
    (nets : nat -> NetEnv) (s : Sess) :
  (forall k : nat,
      (k < Z.to_nat maxRetries)%nat ->
      (forall j, (j < k)%nat -> attempt v (nets j) <> None) ->
      attempt v (nets k) = None ->
      (connectWebSocketWithRetry v maxRetries delay nets s).2 = None)
  /\ (0 < maxRetries ->
      (forall j, (j < Z.to_nat maxRetries)%nat -> attempt v (nets j) <> None) ->
      exists last,
        attempt v (nets (Z.to_nat maxRetries - 1)%nat) = Some last
        /\ (connectWebSocketWithRetry v maxRetries delay nets s).2
           = Some (Errorf ("failed to connect to WebSocket after " +:+ pretty maxRetries
                           +:+ " attempts: " +:+ Error last))).
Proof.
  split.
  - intros k Hk Hfail Hok. unfold connectWebSocketWithRetry.
    pose proof (retry_loop_connects v delay nets (Z.to_nat maxRetries) k 0 None s
                  Hk Hfail Hok) as H.
    destruct (retry_loop _ _ _ _ _ _ _) as [[s' e'] b]; cbn in H; subst b.
    reflexivity.
  - intros Hpos Hfail. unfold connectWebSocketWithRetry.
    destruct (retry_loop_exhausted v delay nets (Z.to_nat maxRetries) 0 None s Hfail)
      as [Hb He].
    destruct (retry_loop _ _ _ _ _ _ _) as [[s' e'] b]; cbn in Hb, He; subst b.
    destruct (Z.to_nat maxRetries) as [|r] eqn:Hr; [lia|].
    cbn in He. replace (S r - 1)%nat with r by lia.
    destruct (attempt v (nets r)) as [last|] eqn:Hl.
    + exists last. subst e'. done.
    + exfalso. by apply (Hfail r); [lia|].
Qed.

(** *** What [Eval] makes of a reply *)

Lemma fold_saveError_Some l e : fold_left saveError l (Some e) = Some e.
Proof. by induction l. Qed.

Lemma fold_saveError_None l :
  fold_left saveError l None = head l.
Proof. destruct l as [|x l]; [done|]. cbn. apply fold_saveError_Some. Qed.

Lemma json_Unmarshal_reply type value :
  json_Unmarshal (JObject [("result", JObject [("type", JString type); ("value", value)])])
  = match number_errors value with
    | [] => inr {| Type_ := type; Value := toGo value |}
    | err :: _ => inl (addErrorContext "result.value" err)
    end.
Proof.
  unfold json_Unmarshal. cbn [fold_left]. unfold decode_top.
  change (String.eqb (foldName "result") "RESULT") with true. cbn iota.
  cbn [fold_left]. unfold decode_member.
  change (String.eqb (foldName "type") "TYPE") with true.
  change (String.eqb (foldName "value") "TYPE") with false.
  change (String.eqb (foldName "value") "VALUE") with true. cbn iota.
  cbn [Type_ Value]. rewrite fold_saveError_None.
  by destruct (number_errors value).
Qed.

Lemma Eval_finish_evaluate_reply ftoa id type value :
  Eval_finish ftoa (I_Result (evaluate_reply id type value))
  = match number_errors value with
    | [] => (Sprintf_v ftoa (toGo value), type, None)
    | err :: _ =>
        ("", "", Some (wrapError "failed to unmarshal response: "
                         (addErrorContext "result.value" err)))
    end.
Proof.
  unfold Eval_finish, evaluate_reply, json_Marshal. cbn -[json_Unmarshal Sprintf_v].
  rewrite json_Unmarshal_reply.
  destruct (number_errors value) as [|err l]; [|done].
  cbn [Value Type_]. by destruct (toGo value).
Qed.

Lemma Eval_text_decodable ftoa value :
  number_errors value = [] -> Eval_text ftoa value = Sprintf_v ftoa (toGo value).
Proof. intros H. unfold Eval_text. by rewrite Eval_finish_evaluate_reply, H. Qed.

(** **** Joining strings *)

Lemma append_cons x (a b : string) : String x a +:+ b = String x (a +:+ b).
Proof. reflexivity. Qed.

Lemma append_assoc (a b c : string) : (a +:+ b) +:+ c = a +:+ (b +:+ c).
Proof. induction a as [|x a IH]; [done|]. rewrite !append_cons. by f_equal. Qed.

Lemma append_nil_r (a : string) : a +:+ "" = a.
Proof. induction a as [|x a IH]; [done|]. rewrite append_cons. by f_equal. Qed.

Lemma join_fold sep rest acc :
  fold_left (fun acc y => acc +:+ sep +:+ y) rest acc
  = acc +:+ match rest with [] => "" | _ => sep +:+ String.concat sep rest end.
Proof.
  revert acc. induction rest as [|y rest IH]; intros acc.
  - by rewrite append_nil_r.
  - cbn [fold_left]. rewrite IH. rewrite !append_assoc. f_equal. f_equal.
    destruct rest as [|z rest]; [by rewrite append_nil_r|done].
Qed.

Lemma join_concat sep l : join sep l = String.concat sep l.
Proof.
  destruct l as [|x rest]; [done|]. unfold join. rewrite join_fold.
  destruct rest; [by rewrite append_nil_r|done].
Qed.

Lemma number_errors_items items :
  number_errors (JArray items) = [] -> Forall (fun v => number_errors v = []) items.
Proof.
  cbn. induction items as [|v items IH]; [constructor|].
  cbn. intros H. apply app_eq_nil in H as [H1 H2]. constructor; auto.
Qed.

Lemma number_errors_members members :
  number_errors (JObject members) = [] ->
  Forall (fun kv => number_errors kv.2 = []) members.
Proof.
  cbn. induction members as [|v items IH]; [constructor|].
  cbn. intros H. apply app_eq_nil in H as [H1 H2]. constructor; auto.
Qed.

Lemma Eval_text_JArray ftoa items :
  number_errors (JArray items) = [] ->
  Eval_text ftoa (JArray items)
  = "[" +:+ String.concat " " (map (Eval_text ftoa) items) +:+ "]".
Proof.
  intros H. rewrite Eval_text_decodable by done.
  cbn [toGo Sprintf_v]. rewrite join_concat. do 3 f_equal.
  rewrite map_map. apply map_ext_Forall.
  eapply Forall_impl; [by apply number_errors_items|].
  intros v Hv. cbn. by rewrite Eval_text_decodable.
Qed.

Lemma map_put_last k v m :
  Forall (fun kv => String.compare kv.1 k = Lt) m -> map_put k v m = m ++ [(k, v)].
Proof.
  induction 1 as [|[k' v'] m Hk Hm IH]; [done|].
  cbn in *. rewrite String.compare_antisym, Hk. cbn. by rewrite IH.
Qed.

Lemma fold_map_put_sorted (l acc : list (string * GoValue)) :
  StronglySorted (fun a b => String.compare a.1 b.1 = Lt) (acc ++ l) ->
  fold_left (fun acc kv => map_put kv.1 kv.2 acc) l acc = acc ++ l.
Proof.
  revert acc. induction l as [|[k v] l IH]; intros acc Hs.
  - by rewrite app_nil_r.
  - cbn [fold_left fst snd]. rewrite map_put_last.
    + rewrite IH; rewrite <- app_assoc; done.
    + clear IH. induction acc as [|a acc IHa]; [constructor|].
      cbn in Hs. apply StronglySorted_inv in Hs as [Hs1 Hs2]. constructor.
      * rewrite Forall_app in Hs2. destruct Hs2 as [_ H2]. by inversion H2.
      * by apply IHa.
Qed.

Lemma Eval_text_JObject ftoa members :
  number_errors (JObject members) = [] ->
  StronglySorted key_lt members ->
  Eval_text ftoa (JObject members)
  = "map[" +:+ String.concat " "
                 (map (fun kv => kv.1 +:+ ":" +:+ Eval_text ftoa kv.2) members) +:+ "]".
Proof.
  intros H Hs. rewrite Eval_text_decodable by done.
  cbn [toGo Sprintf_v]. rewrite join_concat. do 3 f_equal.
  rewrite fold_map_put_sorted.
  - cbn [app]. rewrite map_map. apply map_ext_Forall.
    eapply Forall_impl; [by apply number_errors_members|].
    intros v Hv. cbn. by rewrite Eval_text_decodable.
  - cbn [app]. clear H. induction Hs as [|a l Hs IH Ha]; [constructor|].
    cbn [map]. constructor; [done|]. rewrite Forall_map.
    eapply Forall_impl; [exact Ha|]. by intros [].
Qed.

(** **** The plain and the exponent layout of a number *)

Lemma concat_empty_sep l : String.concat "" l = fold_right String.append "" l.
Proof.
  induction l as [|x l IH]; [done|]. cbn [fold_right]. rewrite <- IH.
  destruct l as [|y l]; [by rewrite append_nil_r|done].
Qed.

Lemma substring_S s : forall a n,
  (a < String.length s)%nat ->
  String.substring a (S n) s
  = match String.get a s with Some c => String c EmptyString | None => "0" end
    +:+ String.substring (S a) n s.
Proof.
  induction s as [|c s IH]; intros a n Ha; cbn in Ha; [lia|].
  destruct a as [|a].
  - reflexivity.
  - cbn [String.substring String.get]. rewrite IH by lia. reflexivity.
Qed.

Lemma substring_all s : forall n, (String.length s <= n)%nat -> String.substring 0 n s = s.
Proof.
  induction s as [|c s IH]; intros n Hn.
  - by destruct n.
  - cbn in Hn. destruct n as [|n]; [lia|]. cbn. f_equal. apply IH. lia.
Qed.

Lemma substring_none s : forall a, String.substring a 0 s = "".
Proof.
  induction s as [|c s IH]; intros a; destruct a; try reflexivity. cbn. apply IH.
Qed.

Lemma digit_at_nat s (j : nat) :
  digit_at s (Z.of_nat j)
  = match String.get j s with Some c => String c EmptyString | None => "0" end.
Proof.
  unfold digit_at. destruct (Z.ltb_spec (Z.of_nat j) 0); [lia|]. by rewrite Nat2Z.id.
Qed.

Lemma digits_substring s : forall n a,
  (a + n <= String.length s)%nat ->
  fold_right String.append ""
    (map (fun i => digit_at s (Z.of_nat a + Z.of_nat i)) (seq 0 n))
  = String.substring a n s.
Proof.
  induction n as [|n IH]; intros a Ha.
  - cbn. by rewrite substring_none.
  - cbn [seq map fold_right]. rewrite <- seq_shift, map_map.
    rewrite substring_S by lia. f_equal.
    + rewrite Z.add_0_r. apply digit_at_nat.
    + rewrite <- (IH (S a)) by lia. f_equal. apply map_ext. intros i. f_equal. lia.
Qed.

Lemma zeros_fold s (k : nat) dp :
  dp = - Z.of_nat k ->
  fold_right String.append "" (map (fun i => digit_at s (dp + Z.of_nat i)) (seq 0 k))
  = zeros k.
Proof.
  intros ->. unfold zeros.
  assert (H : forall n j, (j + n <= k)%nat ->
    fold_right String.append ""
      (map (fun i => digit_at s (- Z.of_nat k + Z.of_nat i)) (seq j n))
    = string_of_list_ascii (replicate n "0"%char)).
  { induction n as [|n IH]; intros j Hj; [done|].
    cbn [seq map fold_right replicate string_of_list_ascii]. rewrite IH by lia.
    unfold digit_at. destruct (Z.ltb_spec (- Z.of_nat k + Z.of_nat j) 0); [done|lia]. }
  by apply H.
Qed.

Lemma fmtF_fraction s dp (nd k : nat) :
  nd = String.length s -> dp = - Z.of_nat k ->
  join "" (map (fun i => digit_at s (dp + Z.of_nat i)) (seq 0 (k + nd)))
  = zeros k +:+ s.
Proof.
  intros -> ->. rewrite join_concat, concat_empty_sep.
  rewrite seq_app, map_app, fold_right_app.
  assert (E : forall (l : list string) (t : string),
             fold_right String.append t l = fold_right String.append "" l +:+ t).
  { induction l as [|x l IH]; intros t; [done|]. cbn. by rewrite IH, append_assoc. }
  rewrite E. rewrite (zeros_fold s k) by done. f_equal.
  cbn [Nat.add]. rewrite <- (substring_all s (String.length s)) at 2 by lia.
  rewrite <- (digits_substring s (String.length s) 0) by lia.
  replace (seq k (String.length s)) with (Nat.add k <$> seq 0 (String.length s))
    by (rewrite fmap_add_seq; f_equal; lia).
  change (Nat.add k <$> seq 0 (String.length s))
    with (map (Nat.add k) (seq 0 (String.length s))).
  rewrite map_map. f_equal. apply map_ext. intros i. f_equal. lia.
Qed.

Lemma fmtF_layout neg digs dp :
  digs <> "" ->
  let nd := String.length digs in
  fmtF neg digs dp (Z.max (Z.of_nat nd - dp) 0)
  = (if neg then "-" else "") +:+
    (if dp <=? 0 then "0." +:+ zeros (Z.to_nat (- dp)) +:+ digs
     else if dp <? Z.of_nat nd
          then String.substring 0 (Z.to_nat dp) digs +:+ "." +:+
               String.substring (Z.to_nat dp) (nd - Z.to_nat dp) digs
          else digs +:+ zeros (Z.to_nat dp - nd)).
Proof.
  intros Hne nd. unfold fmtF. fold nd. f_equal.
  assert (Hnd : (0 < nd)%nat) by (destruct digs; [done|cbn; lia]).
  destruct (Z.leb_spec dp 0) as [H0|H0].
  - destruct (Z.ltb_spec 0 dp); [lia|].
    destruct (Z.ltb_spec 0 (Z.max (Z.of_nat nd - dp) 0)); [|lia].
    replace (Z.to_nat (Z.max (Z.of_nat nd - dp) 0)) with (Z.to_nat (- dp) + nd)%nat by lia.
    rewrite (fmtF_fraction digs dp nd (Z.to_nat (- dp))) by (done || lia).
    reflexivity.
  - destruct (Z.ltb_spec 0 dp); [|lia].
    destruct (Z.ltb_spec dp (Z.of_nat nd)) as [H1|H1].
    + destruct (Z.ltb_spec 0 (Z.max (Z.of_nat nd - dp) 0)); [|lia].
      replace (Z.to_nat dp - nd)%nat with 0%nat by lia.
      change (zeros 0) with "". rewrite append_nil_r. f_equal. f_equal.
      rewrite join_concat, concat_empty_sep.
      replace (Z.to_nat (Z.max (Z.of_nat nd - dp) 0)) with (nd - Z.to_nat dp)%nat by lia.
      rewrite <- (digits_substring digs (nd - Z.to_nat dp) (Z.to_nat dp)) by (unfold nd; lia).
      f_equal. apply map_ext. intros i. f_equal. lia.
    + destruct (Z.ltb_spec 0 (Z.max (Z.of_nat nd - dp) 0)); [lia|].
      rewrite append_nil_r. f_equal. apply substring_all. lia.
Qed.

Lemma fmtE_layout neg digs dp :
  digs <> "" ->
  let nd := String.length digs in
  fmtE neg digs dp
  = (if neg then "-" else "") +:+ String.substring 0 1 digs +:+
    (if (1 <? nd)%nat then "." +:+ String.substring 1 (nd - 1) digs else "") +:+
    "e" +:+ (if dp <? 1 then "-" else "+") +:+
    (if Z.abs (dp - 1) <? 10 then "0" else "") +:+ pretty (Z.abs (dp - 1)).
Proof.
  intros Hne nd. unfold fmtE. fold nd. f_equal. f_equal.
  - destruct digs as [|c digs]; [done|]. unfold digit_at. cbn.
    by destruct digs.
  - f_equal. f_equal. f_equal.
    destruct (Z.ltb_spec (dp - 1) 0), (Z.ltb_spec dp 1); done || lia.
Qed.

(** **** Integer literals *)

Lemma digit_of_pretty_N_char (y : N) :
  (y < 10)%N -> digit_of (pretty_N_char y) = Some (Z.of_N y).
Proof.
  intros H.
  assert (y = 0 \/ y = 1 \/ y = 2 \/ y = 3 \/ y = 4 \/ y = 5 \/ y = 6 \/ y = 7
          \/ y = 8 \/ y = 9)%N as Hy by lia.
  repeat (destruct Hy as [->|Hy]; [reflexivity|]). by subst.
Qed.

(** The decimal numeral of [x]: how many digits it has, and what
    [read_digits] makes of it. *)
Lemma pretty_N_go_digits (x : N) :
  exists d : nat,
    (x = 0%N -> d = 0%nat)
    /\ ((0 < x)%N -> 10 ^ (Z.of_nat d - 1) <= Z.of_N x < 10 ^ Z.of_nat d /\ (1 <= d)%nat)
    /\ (forall s, String.length (pretty_N_go x s) = (d + String.length s)%nat)
    /\ (forall s acc k,
          read_digits (pretty_N_go x s) acc k
          = read_digits s (acc * 10 ^ Z.of_nat d + Z.of_N x) (k + Z.of_nat d))
    /\ ((0 < x)%N -> forall s, exists c rest,
          pretty_N_go x s = String c rest /\ is_Some (digit_of c)).
Proof.
  induction (N.lt_wf_0 x) as [x _ IH].
  assert (x = 0 \/ 0 < x)%N as [->|Hx] by lia.
  - exists 0%nat. repeat split; try lia.
    intros s acc k. rewrite pretty_N_go_0. f_equal; lia.
  - destruct (IH (x `div` 10)%N) as (d & Hz & Hge & Hlen & Hread & Hhead).
    { by apply N.div_lt. }
    pose proof (N.div_mod x 10 ltac:(done)) as Hdm.
    pose proof (N.mod_lt x 10 ltac:(done)) as Hm.
    exists (S d).
    assert (E10 : 10 ^ Z.of_nat (S d) = 10 * 10 ^ Z.of_nat d).
    { rewrite Nat2Z.inj_succ, Z.pow_succ_r by lia. done. }
    split; [lia|]. split; [|split; [|split]].
    + intros _. replace (Z.of_nat (S d) - 1) with (Z.of_nat d) by lia.
      rewrite E10.
      assert (x `div` 10 = 0 \/ 0 < x `div` 10)%N as [H0|H0] by lia.
      * rewrite (Hz H0). change (10 ^ Z.of_nat 0) with 1. lia.
      * destruct (Hge H0) as [[H1 H2] H3]. split; [|lia].
        replace (Z.of_nat d) with (Z.succ (Z.of_nat d - 1)) at 1 by lia.
        rewrite Z.pow_succ_r by lia.
        clear -H1 H2 Hdm Hm.
        generalize dependent (10 ^ (Z.of_nat d - 1)).
        generalize dependent (10 ^ Z.of_nat d).
        generalize dependent (x `div` 10)%N. generalize dependent (x `mod` 10)%N.
        intros. lia.
    + intros s. rewrite pretty_N_go_step by done. rewrite Hlen. cbn. lia.
    + intros s acc k. rewrite pretty_N_go_step by done. rewrite Hread.
      cbn [read_digits]. rewrite digit_of_pretty_N_char by done.
      rewrite E10. f_equal; lia.
    + intros _ s. rewrite pretty_N_go_step by done.
      assert (x `div` 10 = 0 \/ 0 < x `div` 10)%N as [H0|H0] by lia.
      * rewrite H0, pretty_N_go_0. eexists _, _. split; [done|].
        by rewrite digit_of_pretty_N_char.
      * apply (Hhead H0).
Qed.

Lemma read_sign_digit c rest :
  is_Some (digit_of c) -> read_sign (String c rest) = (false, String c rest).
Proof.
  intros [d Hd]. destruct c as [[] [] [] [] [] [] [] []]; try done.
Qed.

Lemma readFloat_pretty (n : Z) :
  readFloat (pretty n) = Some (n <? 0, Z.abs n, 0).
Proof.
  assert (Hpos : forall p, readFloat (pretty (N.pos p)) = Some (false, Z.pos p, 0)
                           /\ readFloat ("-" +:+ pretty (N.pos p)) = Some (true, Z.pos p, 0)).
  { intros p. destruct (pretty_N_go_digits (N.pos p)) as (d & _ & Hge & _ & Hread & Hhead).
    destruct (Hge ltac:(done)) as [_ Hd].
    destruct (Hhead ltac:(done) "") as (c & rest & Hc & Hdig).
    unfold pretty, pretty_N. destruct (decide (N.pos p = 0%N)) as [?|_]; [done|].
    assert (R : read_digits (pretty_N_go (N.pos p) "") 0 0 = (Z.pos p, Z.of_nat d, "")).
    { rewrite Hread. cbn. done. }
    unfold readFloat. split.
    - rewrite Hc, (read_sign_digit c rest Hdig), <- Hc, R.
      destruct (Z.eqb_spec (Z.of_nat d + 0) 0); [lia|done].
    - change (read_sign ("-" +:+ pretty_N_go (N.pos p) ""))
        with (true, pretty_N_go (N.pos p) "").
      cbv beta iota. rewrite R. destruct (Z.eqb_spec (Z.of_nat d + 0) 0); [lia|done]. }
  destruct n as [|p|p].
  - reflexivity.
  - apply Hpos.
  - apply Hpos.
Qed.

Lemma digits2_pos_bounds (p : positive) :
  2 ^ (Z.pos (digits2_pos p) - 1) <= Z.pos p < 2 ^ Z.pos (digits2_pos p).
Proof.
  induction p as [p IH|p IH|]; cbn [digits2_pos].
  - rewrite Pos2Z.inj_succ.
    replace (Z.succ (Z.pos (digits2_pos p)) - 1) with (Z.succ (Z.pos (digits2_pos p) - 1)) by lia.
    rewrite !Z.pow_succ_r by lia. lia.
  - rewrite Pos2Z.inj_succ.
    replace (Z.succ (Z.pos (digits2_pos p)) - 1) with (Z.succ (Z.pos (digits2_pos p) - 1)) by lia.
    rewrite !Z.pow_succ_r by lia. lia.
  - cbn. lia.
Qed.

Lemma iter_xO_value (p k : positive) :
  Z.pos (Pos.iter xO p k) = Z.pos p * 2 ^ Z.pos k.
Proof.
  induction k as [|k IH] using Pos.peano_ind.
  - cbn. lia.
  - rewrite Pos.iter_succ, Pos2Z.inj_succ, Z.pow_succ_r by lia.
    rewrite Pos2Z.inj_xO, IH. lia.
Qed.

Lemma iter_xO_digits (p k : positive) :
  digits2_pos (Pos.iter xO p k) = (digits2_pos p + k)%positive.
Proof.
  induction k as [|k IH] using Pos.peano_ind.
  - cbn. lia.
  - rewrite Pos.iter_succ. cbn [digits2_pos]. rewrite IH. lia.
Qed.

(** An integer below [2^53] is a binary64: it converts to a float that
    holds it. *)
Lemma binary_round_int (sx : bool) (p : positive) :
  Z.pos p < 2 ^ 53 ->
  exists m e,
    binary_round 53 1024 sx p 0 = S754_finite sx m e
    /\ float64_int m e = Some (Z.pos p).
Proof.
  intros Hp. pose proof (digits2_pos_bounds p) as [Hlo Hhi].
  assert (Hd : Z.pos (digits2_pos p) <= 53).
  { destruct (Z.le_gt_cases (Z.pos (digits2_pos p)) 53) as [|H]; [done|].
    assert (2 ^ 53 <= 2 ^ (Z.pos (digits2_pos p) - 1)) by (apply Z.pow_le_mono_r; lia).
    lia. }
  unfold binary_round, shl_align, fexp, emin.
  replace (Z.max (Z.pos (digits2_pos p) + 0 - 53) (3 - 1024 - 53) - 0)
    with (Z.pos (digits2_pos p) - 53) by lia.
  replace (Z.max (Z.pos (digits2_pos p) + 0 - 53) (3 - 1024 - 53))
    with (Z.pos (digits2_pos p) - 53) by lia.
  destruct (Z.pos (digits2_pos p) - 53) as [|k|k] eqn:Hk; [|lia|].
  - exists p, 0. split.
    + unfold binary_round_aux, shr_fexp, fexp, emin, Zdigits2.
      replace (Z.max (Z.pos (digits2_pos p) + 0 - 53) (3 - 1024 - 53) - 0) with 0 by lia.
      cbn [shr shr_record_of_loc shr_m loc_of_shr_record round_nearest_even].
      replace (Z.max (Z.pos (digits2_pos p) + 0 - 53) (3 - 1024 - 53) - 0) with 0 by lia.
      cbn [shr shr_record_of_loc shr_m]. reflexivity.
    + unfold float64_int. cbn [Z.leb Z.compare]. rewrite Z.pow_0_r, Z.mul_1_r.
      destruct (Z.ltb_spec (Z.pos p) (2 ^ 53)); [done|lia].
  - exists (Pos.iter xO p k), (Z.neg k). split.
    + unfold binary_round_aux, shr_fexp, fexp, emin, Zdigits2.
      rewrite iter_xO_digits.
      replace (Z.max (Z.pos (digits2_pos p + k) + Z.neg k - 53) (3 - 1024 - 53) - Z.neg k)
        with 0 by lia.
      cbn [shr shr_record_of_loc shr_m loc_of_shr_record round_nearest_even].
      rewrite iter_xO_digits.
      replace (Z.max (Z.pos (digits2_pos p + k) + Z.neg k - 53) (3 - 1024 - 53) - Z.neg k)
        with 0 by lia.
      cbn [shr shr_record_of_loc shr_m].
      destruct (Z.leb_spec (Z.neg k) (1024 - 53)); [done|lia].
    + unfold float64_int. cbn [Z.leb Z.compare Z.opp].
      rewrite iter_xO_value.
      rewrite Z.mod_mul by (apply Z.pow_nonzero; lia).
      rewrite Z.div_mul by (apply Z.pow_nonzero; lia).
      cbn [Z.eqb andb]. destruct (Z.ltb_spec (Z.pos p) (2 ^ 53)); [done|lia].
Qed.

Lemma strip_zeros_rev_split (r : list ascii) :
  exists j : nat, r = replicate j "0"%char ++ strip_zeros_rev r.
Proof.
  induction r as [|c r [j IH]]; [by exists 0%nat|].
  destruct (ascii_dec c "0") as [->|Hc].
  - exists (S j). cbn. by f_equal.
  - exists 0%nat. cbn [replicate app].
    destruct c as [[] [] [] [] [] [] [] []]; done.
Qed.

Lemma string_of_list_ascii_app (a b : list ascii) :
  string_of_list_ascii (a ++ b) = string_of_list_ascii a +:+ string_of_list_ascii b.
Proof. induction a as [|x a IH]; [done|]. cbn. rewrite append_cons. by f_equal. Qed.

Lemma string_of_list_ascii_length (a : list ascii) :
  String.length (string_of_list_ascii a) = length a.
Proof. induction a as [|x a IH]; [done|]. cbn. by f_equal. Qed.

Lemma list_ascii_of_string_length (s : string) :
  length (list_ascii_of_string s) = String.length s.
Proof. induction s as [|x a IH]; [done|]. cbn. by f_equal. Qed.

(** The digits cut off by [strip_trailing_zeros] are zeros. *)
Lemma strip_trailing_zeros_restore (s : string) :
  strip_trailing_zeros s
  +:+ zeros (String.length s - String.length (strip_trailing_zeros s))
  = s.
Proof.
  unfold strip_trailing_zeros, zeros.
  destruct (strip_zeros_rev_split (rev (list_ascii_of_string s))) as [j Hj].
  assert (Hl : list_ascii_of_string s
               = rev (strip_zeros_rev (rev (list_ascii_of_string s)))
                 ++ replicate j "0"%char).
  { rewrite <- (rev_involutive (list_ascii_of_string s)) at 1.
    rewrite Hj at 1. rewrite rev_app_distr. f_equal.
    clear. induction j as [|j IH]; [done|]. cbn [replicate rev]. rewrite IH.
    clear. induction j as [|j IH]; [done|]. cbn. by f_equal. }
  rewrite string_of_list_ascii_length.
  assert (Hn : (String.length s
                - length (rev (strip_zeros_rev (rev (list_ascii_of_string s)))))%nat = j).
  { rewrite <- list_ascii_of_string_length. rewrite Hl at 1.
    rewrite length_app, length_replicate. lia. }
  rewrite Hn, <- string_of_list_ascii_app, <- Hl.
  apply string_of_list_ascii_of_string.
Qed.

Lemma strip_trailing_zeros_length (s : string) :
  (String.length (strip_trailing_zeros s) <= String.length s)%nat.
Proof.
  pose proof (strip_trailing_zeros_restore s) as H.
  apply (f_equal String.length) in H.
  assert (L : forall a b, String.length (a +:+ b) = (String.length a + String.length b)%nat).
  { clear. induction a as [|x a IH]; intros b; [done|]. rewrite append_cons. cbn. by f_equal. }
  rewrite L in H. lia.
Qed.

Lemma fmtF_integer neg digs dp :
  0 < dp -> Z.of_nat (String.length digs) <= dp ->
  fmtF neg digs dp (Z.max (Z.of_nat (String.length digs) - dp) 0)
  = (if neg then "-" else "") +:+ digs
    +:+ zeros (Z.to_nat dp - String.length digs).
Proof.
  intros H0 H1. unfold fmtF. f_equal.
  destruct (Z.ltb_spec 0 dp); [|lia].
  destruct (Z.ltb_spec 0 (Z.max (Z.of_nat (String.length digs) - dp) 0)); [lia|].
  rewrite append_nil_r. f_equal. apply substring_all. lia.
Qed.

Lemma Eval_text_JNumber ftoa lit f :
  ParseFloat lit = Some f -> Eval_text ftoa (JNumber lit) = fmt_v_float64 ftoa f.
Proof.
  intros H. rewrite Eval_text_decodable.
  - cbn [toGo]. unfold convertNumber. rewrite H. reflexivity.
  - cbn [number_errors]. unfold convertNumber. by rewrite H.
Qed.

(** The decimal numeral of an integer of at most six digits comes back as
    it is. *)
Lemma Eval_text_integer ftoa (n : Z) :
  - 10 ^ 6 < n < 10 ^ 6 -> Eval_text ftoa (JNumber (pretty n)) = pretty n.
Proof.
  intros Hn.
  assert (Hpos : forall (neg : bool) (p : positive),
             Z.pos p < 10 ^ 6 ->
             ParseFloat (pretty (if neg then Z.neg p else Z.pos p))
             = Some (float64_of_decimal neg (Z.pos p) 0)
             /\ fmt_v_float64 ftoa (float64_of_decimal neg (Z.pos p) 0)
                = (if neg then "-" else "") +:+ pretty (Z.pos p)).
  { intros neg p Hp.
    destruct (binary_round_int neg p) as (m & e & Hb & Hi); [lia|].
    assert (Hf : float64_of_decimal neg (Z.pos p) 0 = S754_finite neg m e).
    { unfold float64_of_decimal. cbn [Z.eqb Z.leb Z.compare].
      rewrite Z.pow_0_r, Z.mul_1_r. by destruct neg. }
    split.
    - unfold ParseFloat. rewrite readFloat_pretty.
      replace (Z.abs (if neg then Z.neg p else Z.pos p)) with (Z.pos p) by (by destruct neg).
      replace ((if neg then Z.neg p else Z.pos p) <? 0) with neg by (by destruct neg).
      by rewrite Hf.
    - rewrite Hf. cbn [fmt_v_float64]. unfold shortest. rewrite Hi.
      destruct (pretty_N_go_digits (N.pos p)) as (d & _ & Hge & Hlen & _ & _).
      destruct (Hge ltac:(done)) as [[Hlo _] Hd].
      assert (Hd6 : (d <= 6)%nat).
      { destruct (Nat.le_gt_cases d 6) as [|H]; [done|].
        assert (10 ^ 6 <= 10 ^ (Z.of_nat d - 1)) by (apply Z.pow_le_mono_r; lia).
        change (Z.of_N (N.pos p)) with (Z.pos p) in Hlo. lia. }
      assert (Hl : String.length (pretty (Z.pos p)) = d).
      { unfold pretty, pretty_Z, pretty, pretty_positive, pretty, pretty_N.
        destruct (decide (N.pos p = 0%N)) as [?|_]; [done|]. rewrite Hlen. cbn. lia. }
      pose proof (strip_trailing_zeros_length (pretty (Z.pos p))) as Hs.
      unfold fmtG. rewrite Hl in *.
      destruct (Z.ltb_spec (Z.of_nat d - 1) (-4)); [lia|].
      destruct (Z.leb_spec 6 (Z.of_nat d - 1)); [lia|]. cbn [orb].
      rewrite fmtF_integer by lia. f_equal.
      rewrite Nat2Z.id. rewrite <- Hl at 1. apply strip_trailing_zeros_restore. }
  destruct n as [|p|p].
  - reflexivity.
  - destruct (Hpos false p) as [H1 H2]; [lia|].
    rewrite (Eval_text_JNumber _ _ _ H1), H2. reflexivity.
  - destruct (Hpos true p) as [H1 H2]; [lia|].
    rewrite (Eval_text_JNumber _ _ _ H1), H2. reflexivity.
Qed.

(** **** Objects: key order and repeated keys *)

Lemma compare_Lt_trans (a b c : string) :
  String.compare a b = Lt -> String.compare b c = Lt -> String.compare a c = Lt.
Proof.
  change String.compare with String_as_OT.cmp.
  rewrite !String_as_OT.cmp_lt. apply String_as_OT.lt_trans.
Qed.

Lemma compare_refl (a : string) : String.compare a a = Eq.
Proof.
  destruct (String.compare a a) eqn:H; [done| |];
    pose proof (String.compare_antisym a a) as H'; rewrite H in H'; done.
Qed.

Lemma compare_Gt_Lt (a b : string) : String.compare a b = Gt <-> String.compare b a = Lt.
Proof.
  rewrite (String.compare_antisym b a). destruct (String.compare a b); cbn; split; done.
Qed.

Lemma map_put_keys k v m (P : string -> Prop) :
  P k -> Forall (fun kv => P kv.1) m -> Forall (fun kv => P kv.1) (map_put k v m).
Proof.
  intros Hk. induction 1 as [|[k' v'] m Hk' Hm IH]; cbn.
  - by repeat constructor.
  - destruct (String.compare k k') eqn:E; repeat constructor; auto.
Qed.

Lemma map_put_sorted k v m : entries_sorted m -> entries_sorted (map_put k v m).
Proof.
  induction 1 as [|[k' v'] m Hs IH Hk']; cbn.
  - repeat constructor.
  - destruct (String.compare k k') eqn:E.
    + apply String.compare_eq_iff in E as ->. by constructor.
    + constructor; [by constructor|]. constructor; [done|].
      eapply Forall_impl; [exact Hk'|]. intros [k2 v2] H2. cbn in *.
      by eapply compare_Lt_trans.
    + constructor; [done|].
      apply (map_put_keys k v m (fun x => String.compare k' x = Lt)); [|done].
      by apply compare_Gt_Lt.
Qed.

Lemma map_put_shadow k v1 v2 m : map_put k v2 (map_put k v1 m) = map_put k v2 m.
Proof.
  induction m as [|[k' v'] m IH]; cbn.
  - by rewrite compare_refl.
  - destruct (String.compare k k') eqn:E; cbn.
    + by rewrite compare_refl.
    + by rewrite compare_refl.
    + by rewrite E, IH.
Qed.

Lemma map_put_comm k1 v1 k2 v2 m :
  k1 <> k2 -> entries_sorted m ->
  map_put k2 v2 (map_put k1 v1 m) = map_put k1 v1 (map_put k2 v2 m).
Proof.
  intros Hne.
  assert (H12 : String.compare k1 k2 <> Eq) by (intros E; by apply String.compare_eq_iff in E).
  induction 1 as [|[k' v'] m Hs IH Hk']; cbn [map_put].
  - destruct (String.compare k1 k2) eqn:E; [done| |]; by compare_cases compare_refl.
  - destruct (String.compare k1 k') eqn:E1, (String.compare k2 k') eqn:E2.
    + apply String.compare_eq_iff in E1, E2. congruence.
    + apply String.compare_eq_iff in E1 as ->. by compare_cases compare_refl.
    + apply String.compare_eq_iff in E1 as ->. by compare_cases compare_refl.
    + apply String.compare_eq_iff in E2 as ->. by compare_cases compare_refl.
    + destruct (String.compare k1 k2) eqn:E; [done| |]; by compare_cases compare_refl.
    + assert (E : String.compare k1 k2 = Lt).
      { apply (compare_Lt_trans k1 k' k2); [done|]. by apply compare_Gt_Lt. }
      by compare_cases compare_refl.
    + apply String.compare_eq_iff in E2 as ->. by compare_cases compare_refl.
    + assert (E : String.compare k2 k1 = Lt).
      { apply (compare_Lt_trans k2 k' k1); [done|]. by apply compare_Gt_Lt. }
      by compare_cases compare_refl.
    + compare_cases compare_refl. by rewrite IH.
Qed.

Lemma fold_put_sorted l acc :
  entries_sorted acc -> entries_sorted (fold_left put_entry l acc).
Proof.
  revert acc. induction l as [|[k v] l IH]; intros acc Hs; [done|].
  cbn. apply IH. by apply map_put_sorted.
Qed.

Lemma toGo_JObject members :
  toGo (JObject members)
  = VMap (fold_left put_entry (map (fun kv => (kv.1, toGo kv.2)) members) []).
Proof. reflexivity. Qed.

Lemma toGo_swap l1 k1 v1 k2 v2 l2 :
  k1 <> k2 ->
  toGo (JObject (l1 ++ (k1, v1) :: (k2, v2) :: l2))
  = toGo (JObject (l1 ++ (k2, v2) :: (k1, v1) :: l2)).
Proof.
  intros Hne. rewrite !toGo_JObject. f_equal.
  rewrite !map_app, !fold_left_app. cbn [map fold_left fst snd]. f_equal.
  unfold put_entry at 2 3 5 6. cbn [fst snd]. apply map_put_comm; [done|].
  apply fold_put_sorted. constructor.
Qed.

Lemma toGo_shadow l1 k v1 v2 l2 :
  toGo (JObject (l1 ++ (k, v1) :: (k, v2) :: l2))
  = toGo (JObject (l1 ++ (k, v2) :: l2)).
Proof.
  rewrite !toGo_JObject. f_equal.
  rewrite !map_app, !fold_left_app. cbn [map fold_left fst snd]. f_equal.
  unfold put_entry at 2 3 5. cbn [fst snd]. apply map_put_shadow.
Qed.

Lemma number_errors_swap l1 (a b : string * JSON) l2 :
  number_errors (JObject (l1 ++ a :: b :: l2)) = [] ->
  number_errors (JObject (l1 ++ b :: a :: l2)) = [].
Proof.
  cbn [number_errors]. rewrite !flat_map_app. cbn [flat_map].
  rewrite !app_nil. tauto.
Qed.

Lemma number_errors_shadow l1 (a b : string * JSON) l2 :
  number_errors (JObject (l1 ++ a :: b :: l2)) = [] ->
  number_errors (JObject (l1 ++ b :: l2)) = [].
Proof.
  cbn [number_errors]. rewrite !flat_map_app. cbn [flat_map].
  rewrite !app_nil. tauto.
Qed.

Lemma Eval_text_swap ftoa l1 k1 v1 k2 v2 l2 :
  k1 <> k2 ->
  number_errors (JObject (l1 ++ (k1, v1) :: (k2, v2) :: l2)) = [] ->
  Eval_text ftoa (JObject (l1 ++ (k1, v1) :: (k2, v2) :: l2))
  = Eval_text ftoa (JObject (l1 ++ (k2, v2) :: (k1, v1) :: l2)).
Proof.
  intros Hne H. rewrite (Eval_text_decodable _ _ H).
  rewrite (Eval_text_decodable _ _ (number_errors_swap _ _ _ _ H)).
  by rewrite toGo_swap.
Qed.

Lemma Eval_text_shadow ftoa l1 k v1 v2 l2 :
  number_errors (JObject (l1 ++ (k, v1) :: (k, v2) :: l2)) = [] ->
  Eval_text ftoa (JObject (l1 ++ (k, v1) :: (k, v2) :: l2))
  = Eval_text ftoa (JObject (l1 ++ (k, v2) :: l2)).
Proof.
  intros H. rewrite (Eval_text_decodable _ _ H).
  rewrite (Eval_text_decodable _ _ (number_errors_shadow _ _ _ _ H)).
  by rewrite toGo_shadow.
Qed.

(** C3: from a reply without an error object, [Eval] returns a string value
    verbatim with the reported type.  Any other value all of whose number
    literals convert to a float64 comes back, with the reported type, as
    the text [%v] prints: [<nil>], [true], [false]; an integer of at most
    six digits as its numeral; any other number as its shortest digits
    [digs] with the decimal point after [dp] of them, laid out plainly
    when [-4 <= dp - 1 < 6] and as [d.ddde+XX] otherwise; an array as
    [[a b c]]; an object as [map[k:v k:v]] in increasing key order, the
    last of two members with one key being the one kept.  A value with a
    number literal that does not convert (one that rounds to an infinity)
    makes [Eval] return the error of [json.Unmarshal] and no text.  The
    reply [{type:"string", value:"Example"}] gives [("Example", "string")]
    and [{type:"number", value:42}] gives [("42", "number")]. *)
Theorem Eval_returns_value_and_type (ftoa : positive -> Z -> string * Z) :
  (forall id type s,
      Eval_finish ftoa (I_Result (evaluate_reply id type (JString s))) = (s, type, None))
  /\ (forall id type value,
        number_errors value = [] ->
        Eval_finish ftoa (I_Result (evaluate_reply id type value))
        = (Eval_text ftoa value, type, None))
  /\ (forall id type value err rest,
        number_errors value = err :: rest ->
        Eval_finish ftoa (I_Result (evaluate_reply id type value))
        = ("", "", Some (wrapError "failed to unmarshal response: "
                           (addErrorContext "result.value" err))))
  /\ (forall id type literal,
        ParseFloat literal = None ->
        Eval_finish ftoa (I_Result (evaluate_reply id type (JNumber literal)))
        = ("", "", Some (wrapError "failed to unmarshal response: "
                           (UnmarshalTypeError ("number " +:+ literal) "result.value"
                              "float64"))))
  /\ (forall s, Eval_text ftoa (JString s) = s)
  /\ Eval_text ftoa JNull = "<nil>"
  /\ Eval_text ftoa (JBool true) = "true"
  /\ Eval_text ftoa (JBool false) = "false"
  /\ (forall n, - 10 ^ 6 < n < 10 ^ 6 -> Eval_text ftoa (JNumber (pretty n)) = pretty n)
  /\ (forall literal neg,
        ParseFloat literal = Some (S754_zero neg) ->
        Eval_text ftoa (JNumber literal) = if neg then "-0" else "0")
  /\ (forall literal neg m e digs dp,
        ParseFloat literal = Some (S754_finite neg m e) ->
        shortest ftoa m e = (digs, dp) ->
        digs <> "" ->
        let nd := String.length digs in
        Eval_text ftoa (JNumber literal)
        = (if neg then "-" else "") +:+
          (if (dp - 1 <? -4) || (6 <=? dp - 1)
           then String.substring 0 1 digs +:+
                (if (1 <? nd)%nat then "." +:+ String.substring 1 (nd - 1) digs else "") +:+
                "e" +:+ (if dp <? 1 then "-" else "+") +:+
                (if Z.abs (dp - 1) <? 10 then "0" else "") +:+ pretty (Z.abs (dp - 1))
           else if dp <=? 0 then "0." +:+ zeros (Z.to_nat (- dp)) +:+ digs
           else if dp <? Z.of_nat nd
                then String.substring 0 (Z.to_nat dp) digs +:+ "." +:+
                     String.substring (Z.to_nat dp) (nd - Z.to_nat dp) digs
                else digs +:+ zeros (Z.to_nat dp - nd)))
  /\ (forall items,
        number_errors (JArray items) = [] ->
        Eval_text ftoa (JArray items)
        = "[" +:+ String.concat " " (map (Eval_text ftoa) items) +:+ "]")
  /\ (forall members,
        number_errors (JObject members) = [] ->
        StronglySorted key_lt members ->
        Eval_text ftoa (JObject members)
        = "map[" +:+ String.concat " "
                       (map (fun kv => kv.1 +:+ ":" +:+ Eval_text ftoa kv.2) members)
          +:+ "]")
  /\ (forall l1 k1 v1 k2 v2 l2,
        k1 <> k2 ->
        number_errors (JObject (l1 ++ (k1, v1) :: (k2, v2) :: l2)) = [] ->
        Eval_text ftoa (JObject (l1 ++ (k1, v1) :: (k2, v2) :: l2))
        = Eval_text ftoa (JObject (l1 ++ (k2, v2) :: (k1, v1) :: l2)))
  /\ (forall l1 k v1 v2 l2,
        number_errors (JObject (l1 ++ (k, v1) :: (k, v2) :: l2)) = [] ->
        Eval_text ftoa (JObject (l1 ++ (k, v1) :: (k, v2) :: l2))
        = Eval_text ftoa (JObject (l1 ++ (k, v2) :: l2)))
  /\ Eval_finish ftoa (I_Result (evaluate_reply 1 "string" (JString "Example")))
     = ("Example", "string", None)
  /\ Eval_finish ftoa (I_Result (evaluate_reply 2 "number" (JNumber "42")))
     = ("42", "number", None).
Proof.
  repeat apply conj.
  - intros id type s. by rewrite Eval_finish_evaluate_reply.
  - intros id type value H. unfold Eval_text.
    by rewrite !Eval_finish_evaluate_reply, H.
  - intros id type value err rest H. by rewrite Eval_finish_evaluate_reply, H.
  - intros id type literal H. rewrite Eval_finish_evaluate_reply.
    cbn [number_errors]. unfold convertNumber. by rewrite H.
  - intros s. by rewrite Eval_text_decodable.
  - reflexivity.
  - reflexivity.
  - reflexivity.
  - apply Eval_text_integer.
  - intros literal neg H. rewrite (Eval_text_JNumber _ _ _ H). by destruct neg.
  - intros literal neg m e digs dp H Hs Hne nd.
    rewrite (Eval_text_JNumber _ _ _ H). cbn [fmt_v_float64]. rewrite Hs.
    unfold fmtG. destruct ((dp - 1 <? -4) || (6 <=? dp - 1)).
    + by rewrite fmtE_layout.
    + by rewrite fmtF_layout.
  - apply Eval_text_JArray.
  - apply Eval_text_JObject.
  - apply Eval_text_swap.
  - apply Eval_text_shadow.
  - reflexivity.
  - assert (E : number_errors (JNumber "42") = []) by (vm_compute; reflexivity).
    rewrite Eval_finish_evaluate_reply, E, <- (Eval_text_decodable ftoa _ E).
    pose proof (Eval_text_integer ftoa 42 ltac:(lia)) as H.
    change (pretty 42) with "42" in H. by rewrite H.
Qed.

(** ** The sample scenarios *)

(** [chrome.New] with a browser that starts and a port that is open leaves
    [connected] and the dispatcher. *)
Example Chrome_New_connected :
  Chrome_New env_ok (fun _ => net_up) env_ok
  = Some (inr {| sess := connected; threads := [T_handleResponse D_select] |}).
Proof. reflexivity. Qed.

(** [Eval] goes round: it sends, releases the mutex and waits; the reply
    arrives, the dispatcher takes the mutex and hands it over. *)
Example Eval_round_trip :
  exists c,
    run [(1%nat, env_ok); (1%nat, env_ok); (0%nat, env_ok);
         (0%nat, env_reply 1 title_reply); (0%nat, env_ok); (0%nat, env_ok);
         (0%nat, env_reply 1 title_reply)] client_Eval = Some c
    /\ threads c !! 1%nat = Some (T_Eval (E_return "42" "number" None))
    /\ Pending (sess c) = ∅ /\ mu (sess c) = false.
Proof. eexists. split; [vm_compute; reflexivity|]. repeat split. Qed.

(** The same reply never reaches [Load]: the dispatcher stops at its
    [Lock], and no goroutine can take a step any more. *)
Example Load_reply_stuck :
  run [(1%nat, env_ok); (1%nat, env_ok)] client_Load = Some Load_waiting
  /\ exists c,
       run [(0%nat, env_ok); (0%nat, env_reply 1 title_reply)] Load_waiting = Some c
       /\ threads c !! 0%nat = Some (T_handleResponse (D_lock title_reply))
       /\ forall i e, step i e c = None.
Proof.
  split; [vm_compute; reflexivity|].
  eexists. split; [vm_compute; reflexivity|]. split; [reflexivity|].
  by intros [|[|i]] e.
Qed.

(** ** Instances *)

Lemma Load_waits_holding_mutex_witness :
  mu (sess Load_waiting) = true
  /\ forall sched' c',
       run sched' Load_waiting = Some c' ->
       threads c' !! 1%nat = Some (T_Load (L_wait 0)) /\ mu (sess c') = true.
Proof.
  apply (Load_waits_holding_mutex client_Load Load_waiting
           [(1%nat, env_ok); (1%nat, env_ok)] 1 0);
    vm_compute; reflexivity.
Defined.

(** C2, as stated, fails: an [Eval] is waiting on slot ["1"] when [Kill] is
    called; [Kill] returns [nil], the dispatcher has returned, and the slot
    is still registered. *)
Lemma Kill_leaves_slot_registered :
  initial client_Eval_Kill = true
  /\ run sched_Eval_Kill client_Eval_Kill = Some killed_Eval_waiting
  /\ threads killed_Eval_waiting !! 2%nat = Some (T_Kill (K_return None))
  /\ threads killed_Eval_waiting !! 0%nat = Some (T_handleResponse D_return)
  /\ Pending (sess killed_Eval_waiting) !! "1" = Some 0%nat
  /\ Pending (sess killed_Eval_waiting) <> ∅.
Proof.
  split; [reflexivity|]. split; [vm_compute; reflexivity|].
  split; [reflexivity|]. split; [reflexivity|]. split; [reflexivity|].
  intros H. apply (f_equal (fun m : gmap string nat => m !! "1")) in H.
  by vm_compute in H.
Qed.

Lemma Kill_waits_for_dispatcher_keeps_Pending_witness :
  threads (after sched_Eval_Kill_locked client_Eval_Kill) !! 2%nat = Some (T_Kill K_locked)
  /\ Pending (sess (after sched_Eval_Kill_locked client_Eval_Kill)) !! "1" = Some 0%nat
  /\ Pending (sess killed_Eval_waiting)
     = Pending (sess (after sched_Eval_Kill_locked client_Eval_Kill))
  /\ Wg (sess killed_Eval_waiting) = 0%nat
  /\ forall j d, threads killed_Eval_waiting !! j = Some (T_handleResponse d) ->
                 d = D_return \/ d = D_panic.
Proof.
  split; [vm_compute; reflexivity|]. split; [vm_compute; reflexivity|].
  assert (H0 : initial client_Eval_Kill = true) by (vm_compute; reflexivity).
  assert (H1 : run sched_Eval_Kill_locked client_Eval_Kill
               = Some (after sched_Eval_Kill_locked client_Eval_Kill))
    by (vm_compute; reflexivity).
  assert (H2 : threads (after sched_Eval_Kill_locked client_Eval_Kill) !! 2%nat
               = Some (T_Kill K_locked)) by (vm_compute; reflexivity).
  destruct (Kill_waits_for_dispatcher_keeps_Pending client_Eval_Kill
              (after sched_Eval_Kill_locked client_Eval_Kill)
              sched_Eval_Kill_locked 2 K_locked H0 H1 H2) as [_ H].
  assert (H3 : run [(2%nat, env_ok); (0%nat, env_ok)]
                 (after sched_Eval_Kill_locked client_Eval_Kill)
               = Some (after [(2%nat, env_ok); (0%nat, env_ok)]
                         (after sched_Eval_Kill_locked client_Eval_Kill)))
    by (vm_compute; reflexivity).
  destruct (H (or_introl eq_refl) _ _ H3) as [_ H4].
  apply (H4 env_ok killed_Eval_waiting None); vm_compute; reflexivity.
Defined.

(** C3, as stated, fails for a number that is valid JSON and no float64:
    for the value [1e400], [Eval] returns no text but the error of
    [json.Unmarshal]. *)
Lemma Eval_number_out_of_range_fails :
  Eval_finish strconv_shortest (I_Result (evaluate_reply 2 "number" (JNumber "1e400")))
  = ("", "",
     Some (wrapError "failed to unmarshal response: "
             (UnmarshalTypeError "number 1e400" "result.value" "float64")))
  /\ fmt_v_error
       (Eval_finish strconv_shortest
          (I_Result (evaluate_reply 2 "number" (JNumber "1e400")))).2
     = "failed to unmarshal response: json: cannot unmarshal number 1e400 into Go struct field .result.value of type float64".
Proof. split; vm_compute; reflexivity. Qed.

Lemma Eval_returns_value_and_type_witness :
  Eval_text strconv_shortest (JNumber "0.1") = "0.1"
  /\ Eval_text strconv_shortest (JNumber "-1.5e300") = "-1.5e+300"
  /\ Eval_text strconv_shortest
       (JArray [JNumber "1000000"; JString "a b"; JNull; JBool false])
     = "[1e+06 a b <nil> false]"
  /\ Eval_text strconv_shortest
       (JObject [("a", JNumber "12345.678"); ("b", JArray [])])
     = "map[a:12345.678 b:[]]".
Proof.
  pose proof (Eval_returns_value_and_type strconv_shortest) as
    (_ & _ & _ & _ & _ & _ & _ & _ & _ & _ & Hnum & Harr & Hobj & _).
  repeat apply conj.
  - apply (Hnum "0.1" false 7205759403792794%positive (-56) "1" 0); by vm_compute.
  - apply (Hnum "-1.5e300" true 5043654821435445%positive 945 "15" 301); by vm_compute.
  - rewrite Harr by (by vm_compute). by vm_compute.
  - rewrite Hobj; [by vm_compute|by vm_compute|].
    repeat constructor.
Defined.

(** C4, as stated, fails for the second family: with no connection,
    [firefox]'s [Load] and [Eval] return no error. *)
Lemma Firefox_without_connection_no_error :
  Ws started = None
  /\ run [(0%nat, env_ok)]
       {| sess := started; threads := [call_Load Firefox "https://new.grng.cc"] |}
     = Some {| sess := started; threads := [T_Load (L_return None)] |}
  /\ run [(0%nat, env_ok)]
       {| sess := started; threads := [call_Eval Firefox "document.title"] |}
     = Some {| sess := started; threads := [T_Eval (E_return "" "" None)] |}.
Proof. repeat split. Qed.

Lemma not_connected_fails_fast_witness :
  run [(0%nat, env_ok); (0%nat, env_ok)]
    {| sess := started; threads := [call_Load Chrome "https://new.grng.cc"] |}
  = Some {| sess := started; threads := [T_Load (L_return (Some ErrNotConnected))] |}
  /\ run [(0%nat, env_ok); (0%nat, env_ok)]
       {| sess := started; threads := [call_Eval Chrome "document.title"] |}
     = Some {| sess := started;
               threads := [T_Eval (E_return "" "" (Some ErrNotConnected))] |}
  /\ run [(0%nat, env_ok)]
       {| sess := started; threads := [call_Load Firefox "https://new.grng.cc"] |}
     = Some {| sess := started; threads := [T_Load (L_return None)] |}
  /\ run [(0%nat, env_ok)]
       {| sess := started; threads := [call_Eval Firefox "document.title"] |}
     = Some {| sess := started; threads := [T_Eval (E_return "" "" None)] |}.
Proof.
  apply (not_connected_fails_fast env_ok env_ok started
           "https://new.grng.cc" "document.title"); reflexivity.
Defined.

Lemma send_failure_cancels_slot_witness :
  (exists s',
      Load env_send_fails (set_mu true connected) (L_locked "https://new.grng.cc")
      = Some (s', L_return (Some (wrapError "failed to send WebSocket message: "
                                            (Errorf "broken pipe"))))
      /\ Pending s' = delete (pretty (Id (set_mu true connected)))
                             (Pending (set_mu true connected))
      /\ Pending s' !! pretty (Id (set_mu true connected)) = None
      /\ mu s' = false /\ trace s' = trace (set_mu true connected))
  /\ (exists s',
      Eval env_send_fails (set_mu true connected) (E_locked "document.title")
      = Some (s', E_return "" "" (Some (wrapError "failed to send WebSocket message: "
                                                  (Errorf "broken pipe"))))
      /\ Pending s' = delete (pretty (Id (set_mu true connected)))
                             (Pending (set_mu true connected))
      /\ Pending s' !! pretty (Id (set_mu true connected)) = None
      /\ mu s' = false /\ trace s' = trace (set_mu true connected)).
Proof.
  apply (send_failure_cancels_slot env_send_fails (set_mu true connected) ConnOpen
           (Errorf "broken pipe") "https://new.grng.cc" "document.title");
    reflexivity.
Defined.

Lemma connectWebSocketWithRetry_result_witness :
  (connectWebSocketWithRetry Chrome 10 1000000000 nets_third new_session).2 = None
  /\ exists last,
       attempt Chrome net_down = Some last
       /\ (connectWebSocketWithRetry Chrome 3 1000000000 (fun _ => net_down) new_session).2
          = Some (Errorf ("failed to connect to WebSocket after " +:+ pretty 3
                          +:+ " attempts: " +:+ Error last)).
Proof.
  split.
  - apply (proj1 (connectWebSocketWithRetry_result Chrome 10 1000000000 nets_third
                    new_session) 2%nat).
    + vm_compute. lia.
    + intros [|[|j]] Hj; [done|done|lia].
    + reflexivity.
  - apply (proj2 (connectWebSocketWithRetry_result Chrome 3 1000000000
                    (fun _ => net_down) new_session)).
    + lia.
    + intros j _. done.
Defined.

Lemma Kill_idempotent_witness :
  exists c',
    run [(2%nat, env_ok); (2%nat, env_ok); (2%nat, env_ok)] killed_once = Some c'
    /\ threads c' !! 2%nat = Some (T_Kill (K_return None))
    /\ Done (sess killed_once) = true /\ Done (sess c') = true
    /\ closes (sess killed_once) = 1%nat /\ closes (sess c') = 1%nat
    /\ forall sched' c'', run sched' killed_once = Some c'' -> closes (sess c'') = 1%nat.
Proof.
  apply (Kill_idempotent client_Kill_Kill killed_once sched_Kill 1 2 None
           env_ok env_ok env_ok);
    vm_compute; reflexivity.
Defined.

Lemma Start_idempotent_witness : Start_call env_ok started = Some (started, None).
Proof.
  apply (Start_idempotent env_ok started {| Pid := 4242; running := true |});
    reflexivity.
Defined.

Lemma Bind_error_iff_bound_witness :
  exists s' err,
    Bind_call "title" sample_binding started = Some (s', err)
    /\ (is_Some err <-> is_Some (Bindings started !! "title"))
    /\ (err = None -> Bindings s' = <["title" := sample_binding]> (Bindings started))
    /\ (is_Some err -> s' = started)
    /\ (forall g : BindingFunc,
          err = None ->
          exists err2,
            Bind_call "title" g s' = Some (s', Some err2)
            /\ Bindings s' !! "title" = Some sample_binding).
Proof.
  apply (Bind_error_iff_bound started "title" sample_binding). reflexivity.
Defined.

(** ** Further properties *)

Lemma int32_incr_wrap32 z : int32_incr (wrap32 z) = wrap32 (z + 1).
Proof.
  unfold int32_incr, wrap32.
  destruct (Z.eqb_spec ((z + 2 ^ 31) mod 2 ^ 32 - 2 ^ 31) (2 ^ 31 - 1)) as [H|H].
  - change (2 ^ 31) with 2147483648 in *. change (2 ^ 32) with 4294967296 in *.
    Z.div_mod_to_equations. lia.
  - change (2 ^ 31) with 2147483648 in *. change (2 ^ 32) with 4294967296 in *.
    Z.div_mod_to_equations. lia.
Qed.

Lemma int32_incr_id_of n : int32_incr (id_of n) = id_of (S n).
Proof.
  unfold id_of. rewrite int32_incr_wrap32. f_equal. lia.
Qed.

Lemma id_of_inj (m n : nat) :
  (Z.of_nat m < Z.of_nat n + 2 ^ 32) -> (Z.of_nat n < Z.of_nat m + 2 ^ 32) ->
  id_of m = id_of n -> m = n.
Proof.
  unfold id_of, wrap32.
  change (2 ^ 31) with 2147483648. change (2 ^ 32) with 4294967296.
  intros H1 H2 H. Z.div_mod_to_equations. lia.
Qed.

Lemma tstep_counter e s t s' t' :
  tstep e s t = Some (s', t') ->
  (Id s' = Id s /\ chans s' = chans s)
  \/ (Id s' = int32_incr (Id s) /\ chans s' = S (chans s)).
Proof. intros H. tstep_cases H; cbn; auto. Qed.

Lemma tstep_slot e s t s' t' k ch :
  tstep e s t = Some (s', t') ->
  Pending s' !! k = Some ch ->
  Pending s !! k = Some ch
  \/ (k = pretty (Id s) /\ ch = chans s /\ chans s' = S (chans s)).
Proof.
  intros H. tstep_cases H; cbn; auto.
  - rewrite delete_insert_eq. intros [_ Hk]%lookup_delete_Some. auto.
  - rewrite lookup_insert. case_decide; intros; simplify_eq; auto.
  - rewrite delete_insert_eq. intros [_ Hk]%lookup_delete_Some. auto.
  - rewrite lookup_insert. case_decide; intros; simplify_eq; auto.
Qed.

Lemma tstep_send e s t s' idStr ch res :
  tstep e s t = Some (s', T_handleResponse (D_send idStr ch res)) ->
  idStr = pretty (res_ID res) /\ Pending s' !! idStr = Some ch.
Proof. intros H. tstep_cases H; cbn; auto. Qed.

Lemma tstep_waits e s t s' t' ch :
  tstep e s t = Some (s', t') ->
  waits_on ch t = false
  /\ (waits_on ch t' = true -> ch = chans s /\ chans s' = S (chans s)).
Proof.
  intros H. tstep_cases H; cbn; split; auto; try done.
  all: intros ->%Nat.eqb_eq; auto.
Qed.

Lemma b2n_ltb_mono (a m n : nat) :
  (m <= n)%nat -> (b2n (a <? m)%nat <= b2n (a <? n)%nat)%nat.
Proof.
  intros H. unfold b2n.
  destruct (Nat.ltb_spec a m), (Nat.ltb_spec a n); lia.
Qed.

Lemma step_slots_ok i e c c' :
  wf c -> slots_ok c -> step i e c = Some c' -> slots_ok c'.
Proof.
  intros Hwf [HId Hkeys Hsend Hwait] Hstep.
  destruct (step_inv i e c c' Hstep) as
    [t s' t' Ht Hs ->|idStr ch res w w' Ht Hw Hk ->].
  - pose proof (tstep_counter _ _ _ _ _ Hs) as Hcnt.
    assert (Hmono : (chans (sess c) <= chans s')%nat) by (destruct Hcnt as [[_ ->]|[_ ->]]; lia).
    constructor; cbn [sess threads].
    + destruct Hcnt as [[-> ->]|[-> ->]]; [done|].
      rewrite HId. apply int32_incr_id_of.
    + intros k ch Hl.
      destruct (tstep_slot _ _ _ _ _ _ _ Hs Hl) as [Hold|(-> & -> & Hn)].
      * destruct (Hkeys _ _ Hold). split; [lia|done].
      * split; [lia|]. by rewrite HId.
    + intros j idStr ch res Hj.
      destruct (decide (j = i)) as [->|Hne].
      * assert (i < length (threads c))%nat by (by eapply lookup_lt_Some).
        rewrite list_lookup_insert_eq in Hj by done. simplify_eq.
        by eapply tstep_send.
      * rewrite list_lookup_insert_ne in Hj by done.
        destruct (Hsend _ _ _ _ Hj) as [-> Hp]. split; [done|].
        pose proof (count_if_lookup2 holds _ _ _ _ _ Hne Hj Ht) as H2.
        rewrite (wf_mutex c Hwf) in H2. cbn in H2.
        assert (holds t = false).
        { unfold b2n in H2. destruct (holds t), (mu (sess c)); try done; lia. }
        rewrite (tstep_Pending _ _ _ _ _ Hs); auto.
    + intros ch.
      pose proof (count_if_insert (waits_on ch) _ _ _ t' Ht) as Hc.
      destruct (tstep_waits _ _ _ _ _ ch Hs) as [Hw0 Hw1].
      rewrite Hw0 in Hc. specialize (Hwait ch).
      destruct (waits_on ch t') eqn:Hw'.
      * destruct (Hw1 eq_refl) as [-> Hn].
        rewrite Nat.ltb_irrefl in Hwait.
        assert (E : (chans (sess c) <? chans s')%nat = true)
          by (apply Nat.ltb_lt; lia).
        rewrite E. unfold b2n in *. lia.
      * pose proof (b2n_ltb_mono ch _ _ Hmono). unfold b2n in *. lia.
  - assert (Hne : i <> env_peer e).
    { intros ->. rewrite Ht in Hw. by simplify_eq. }
    assert (Ht' : <[env_peer e := w']> (threads c) !! i
                  = Some (T_handleResponse (D_send idStr ch res)))
      by (by rewrite list_lookup_insert_ne).
    constructor; cbn [sess threads].
    + done.
    + intros k ch'. cbn. intros [_ Hl]%lookup_delete_Some. by apply Hkeys.
    + intros j idStr' ch' res' Hj. exfalso.
      destruct (decide (j = i)) as [->|Hji].
      { assert (i < length (<[env_peer e := w']> (threads c)))%nat
          by (by eapply lookup_lt_Some).
        rewrite list_lookup_insert_eq in Hj by done. done. }
      rewrite list_lookup_insert_ne in Hj by done.
      destruct (decide (j = env_peer e)) as [->|Hjp].
      { assert (env_peer e < length (threads c))%nat by (by eapply lookup_lt_Some).
        rewrite list_lookup_insert_eq in Hj by done. simplify_eq.
        by destruct (receive_inv _ _ _ _ _ Hk) as [[_ ?]|[_ ?]]. }
      rewrite list_lookup_insert_ne in Hj by done.
      pose proof (count_if_lookup2 holds _ _ _ _ _ Hji Hj Ht) as H2.
      rewrite (wf_mutex c Hwf) in H2. cbn in H2. unfold b2n in H2.
      destruct (mu (sess c)); lia.
    + intros ch'.
      pose proof (count_if_insert (waits_on ch') _ _ _ w' Hw) as H3.
      pose proof (count_if_insert (waits_on ch') _ _ _ (T_handleResponse D_select) Ht') as H4.
      specialize (Hwait ch').
      assert (waits_on ch' w' = false)
        by (by destruct (receive_inv _ _ _ _ _ Hk) as [[_ ->]|[_ ->]]).
      rewrite H in H3.
      replace (chans (delivered idStr (sess c))) with (chans (sess c)) by reflexivity.
      cbn in H4. unfold b2n in *. lia.
Qed.

Lemma run_slots_ok sched : forall c c',
  wf c -> slots_ok c -> run sched c = Some c' -> slots_ok c'.
Proof.
  induction sched as [|[i e] sched IH]; intros c c' Hwf Hok H; cbn in H.
  - by simplify_eq.
  - destruct (step i e c) as [c1|] eqn:Hs; [|done]. cbn in H.
    eapply (IH c1); [by eapply step_wf|by eapply step_slots_ok|done].
Qed.

Lemma fresh_initial c : fresh c = true -> initial c = true.
Proof. unfold fresh. by intros [[? _]%andb_prop _]%andb_prop. Qed.

Lemma fresh_slots_ok c : fresh c = true -> slots_ok c.
Proof.
  unfold fresh. intros [[Hi Hp%bool_decide_eq_true]%andb_prop HId%Z.eqb_eq]%andb_prop.
  unfold initial in Hi. apply andb_prop in Hi as [_ Hall].
  assert (Hentry : forall t, t ∈ threads c -> at_entry t = true).
  { intros t Hin. eapply forallb_forall; [done|]. by apply list_elem_of_In. }
  constructor.
  - done.
  - intros k ch. by rewrite Hp, lookup_empty.
  - intros i idStr ch res Hi.
    assert (Hin : T_handleResponse (D_send idStr ch res) ∈ threads c)
      by (by eapply list_elem_of_lookup_2).
    by apply Hentry in Hin.
  - intros ch. rewrite (count_if_none _ at_entry); [lia| |done].
    by intros [[]|[]|[]|[]|[]|[]| |].
Qed.

Lemma fresh_reachable c0 sched c :
  fresh c0 = true -> run sched c0 = Some c -> wf c /\ slots_ok c.
Proof.
  intros Hf Hr. pose proof (fresh_initial _ Hf) as Hi.
  split; [by eapply reachable_wf|].
  eapply run_slots_ok; [by apply initial_wf|by apply fresh_slots_ok|done].
Qed.

(** *** Correlation *)

(** X5: in a run from a session as [New] leaves it, the id the next command
    will use is not in [Pending], as long as fewer than [2^32] channels have
    been made: no command overwrites a slot that is still registered. *)
Theorem fresh_id_not_registered (c0 c : Config) (sched : list (nat * Env)) :
  fresh c0 = true ->
  run sched c0 = Some c ->
  Z.of_nat (chans (sess c)) < 2 ^ 32 ->
  Pending (sess c) !! pretty (Id (sess c)) = None.
Proof.
  intros Hf Hr Hlt. destruct (fresh_reachable _ _ _ Hf Hr) as [_ Hok].
  destruct (Pending (sess c) !! pretty (Id (sess c))) as [ch|] eqn:Hl; [|done].
  exfalso. destruct (slots_keys c Hok _ _ Hl) as [Hch Hk].
  rewrite (slots_Id c Hok) in Hk. apply pretty_Z_inj in Hk.
  apply id_of_inj in Hk; lia.
Qed.

Lemma tstep_registers e s t s' t' ch :
  tstep e s t = Some (s', t') ->
  waits_on ch t' = true ->
  (exists method params,
     trace s' = trace s ++ [EvSend {| req_id := Id s; req_method := method;
                                      req_params := params |}])
  /\ Pending s' !! pretty (Id s) = Some ch.
Proof.
  intros H. tstep_cases H; cbn; try done; intros ->%Nat.eqb_eq.
  all: split; [eauto|apply lookup_insert_eq].
Qed.

(** X6: the step that takes a command to its wait on channel [ch] has sent
    the request with id [id_of ch] and has left [ch] registered under that
    id. *)
Theorem waiting_request_owns_slot (c0 c c' : Config) (sched : list (nat * Env))
    (i : nat) (e : Env) (t' : Thread) (ch : nat) :
  fresh c0 = true ->
  run sched c0 = Some c ->
  step i e c = Some c' ->
  threads c' !! i = Some t' ->
  waits_on ch t' = true ->
  (exists method params,
     trace (sess c') = trace (sess c)
                       ++ [EvSend {| req_id := id_of ch; req_method := method;
                                     req_params := params |}])
  /\ Pending (sess c') !! pretty (id_of ch) = Some ch
  /\ ch = chans (sess c).
Proof.
  intros Hf Hr Hs Hi Hw. destruct (fresh_reachable _ _ _ Hf Hr) as [Hwf Hok].
  destruct (step_inv _ _ _ _ Hs) as
    [t s1 t1 Ht Hst ->|idStr ch' res w w' Ht Hw' Hk ->]; cbn in *.
  - assert (i < length (threads c))%nat by (by eapply lookup_lt_Some).
    rewrite list_lookup_insert_eq in Hi by done. simplify_eq.
    destruct (tstep_waits _ _ _ _ _ ch Hst) as [_ Hn].
    destruct (Hn Hw) as [-> _].
    destruct (tstep_registers _ _ _ _ _ _ Hst Hw) as [Htr Hp].
    rewrite (slots_Id c Hok) in Htr, Hp. done.
  - assert (i < length (<[env_peer e := w']> (threads c)))%nat.
    { rewrite length_insert. by eapply lookup_lt_Some. }
    rewrite list_lookup_insert_eq in Hi by done. by simplify_eq.
Qed.


(** *** Invariants of every run *)

(** X1: in every run from an initial configuration at most one goroutine is
    between a [Lock] and its [Unlock], and the mutex is locked exactly when
    one is. *)
Theorem mutex_excludes (c0 c : Config) (sched : list (nat * Env)) :
  initial c0 = true ->
  run sched c0 = Some c ->
  (forall i j ti tj,
      threads c !! i = Some ti -> threads c !! j = Some tj ->
      holds ti = true -> holds tj = true -> i = j)
  /\ (forall i ti, threads c !! i = Some ti -> holds ti = true -> mu (sess c) = true)
  /\ (mu (sess c) = true ->
      exists i ti, threads c !! i = Some ti /\ holds ti = true).
Proof.
  intros Hi Hr. pose proof (reachable_wf _ _ _ Hi Hr) as Hwf.
  split; [|split].
  - intros i j ti tj Hti Htj Hhi Hhj.
    destruct (decide (i = j)) as [|Hne]; [done|exfalso].
    pose proof (count_if_lookup2 holds _ _ _ _ _ Hne Hti Htj) as H2.
    rewrite (wf_mutex c Hwf), Hhi, Hhj in H2. unfold b2n in H2.
    destruct (mu (sess c)); lia.
  - intros i ti Hti Hh. by eapply holder_mutex.
  - intros Hmu. pose proof (wf_mutex c Hwf) as H. rewrite Hmu in H. cbn in H.
    clear -H. induction (threads c) as [|t l IH]; cbn in H; [lia|].
    destruct (holds t) eqn:Ht.
    + exists 0%nat, t. done.
    + destruct (IH H) as (i & ti & Hl & Hh). by exists (S i), ti.
Qed.

(** X2: in every run from an initial configuration [close(b.Done)] has run
    once if [Done] is closed and never otherwise, however many calls of
    [Kill] race: [Done] is never closed twice. *)
Theorem Done_closed_at_most_once (c0 c : Config) (sched : list (nat * Env)) :
  initial c0 = true ->
  run sched c0 = Some c ->
  closes (sess c) = b2n (Done (sess c)) /\ (closes (sess c) <= 1)%nat.
Proof.
  intros Hi Hr. pose proof (reachable_wf _ _ _ Hi Hr) as Hwf.
  rewrite (wf_closes c Hwf). split; [done|]. unfold b2n. destruct (Done (sess c)); lia.
Qed.

(** X4: in a session that starts with a connection the dispatcher never
    panics, and [Wg] always counts the dispatchers that have not left
    [handleResponse] (so the deferred [Wg.Done] never finds it at zero). *)
Theorem dispatcher_never_panics_when_connected
    (c0 c : Config) (sched : list (nat * Env)) (i : nat) (pc : DispPc) :
  initial c0 = true ->
  Ws (sess c0) <> None ->
  run sched c0 = Some c ->
  threads c !! i = Some (T_handleResponse pc) ->
  pc <> D_panic /\ Wg (sess c) = count_if live (threads c).
Proof.
  intros Hi Hws Hr Ht. pose proof (initial_wf _ Hi) as Hwf0.
  split; [|by apply (wf_wg c (run_wf _ _ _ Hwf0 Hr))].
  assert (Hnp : Forall (fun t => is_panic t = false) (threads c)).
  { eapply (run_no_panic sched c0 c); [done|done| |done].
    apply Forall_forall. intros t Hin.
    unfold initial in Hi. apply andb_prop in Hi as [_ Hall].
    assert (at_entry t = true)
      by (eapply forallb_forall; [done|]; by apply list_elem_of_In).
    by destruct t as [[]| | | | | | |]. }
  rewrite Forall_lookup in Hnp. specialize (Hnp _ _ Ht). intros ->. done.
Qed.

(** The dispatcher returns only after the stop signal. *)

Lemma tstep_dispatcher_returned e s t s' t' :
  tstep e s t = Some (s', t') ->
  dispatcher_returned t' = true ->
  Done s' = true.
Proof. intros H. tstep_cases H; cbn; auto; done. Qed.

Lemma run_dispatcher_returned sched : forall c c',
  Done (sess c) = true \/ Forall (fun t => dispatcher_returned t = false) (threads c) ->
  run sched c = Some c' ->
  Done (sess c') = true \/ Forall (fun t => dispatcher_returned t = false) (threads c').
Proof.
  induction sched as [|[i e] sched IH]; intros c c' Hinv H; cbn in H.
  - by simplify_eq.
  - destruct (step i e c) as [c1|] eqn:Hs; [|done]. cbn in H.
    apply (IH c1 c'); [|done].
    destruct Hinv as [Hd|Hall]; [left; by eapply step_Done_mono|].
    destruct (step_inv _ _ _ _ Hs) as
      [t s' t' Ht Hst ->|idStr ch res w w' Ht Hw Hk ->]; cbn.
    + destruct (dispatcher_returned t') eqn:Hd.
      * left. by eapply tstep_dispatcher_returned.
      * right. by apply Forall_insert.
    + right. apply Forall_insert; [|done]. apply Forall_insert; [done|].
      by destruct (receive_inv _ _ _ _ _ Hk) as [[_ ->]|[_ ->]].
Qed.

(** X3: [handleResponse] returns only after [Done] has been closed; a
    failed receive alone never ends it. *)
Theorem dispatcher_returns_only_after_stop
    (c0 c : Config) (sched : list (nat * Env)) (i : nat) :
  initial c0 = true ->
  run sched c0 = Some c ->
  threads c !! i = Some (T_handleResponse D_return) ->
  Done (sess c) = true.
Proof.
  intros Hi Hr Ht.
  destruct (run_dispatcher_returned sched c0 c) as [Hd|Hall]; [|done|done|].
  - right. apply Forall_forall. intros t Hin.
    unfold initial in Hi. apply andb_prop in Hi as [_ Hall].
    assert (at_entry t = true)
      by (eapply forallb_forall; [done|]; by apply list_elem_of_In).
    by destruct t as [[]| | | | | | |].
  - rewrite Forall_lookup in Hall. by specialize (Hall _ _ Ht).
Qed.

(** *** Waiting without a dispatcher *)

(** X10: once no dispatcher is left ([Wg] is zero), an [Eval] that waits on
    its slot waits in every continuation: nothing cancels it. *)
Theorem Eval_waits_forever_without_dispatcher
    (c0 c : Config) (sched : list (nat * Env)) (j ch : nat) :
  initial c0 = true ->
  run sched c0 = Some c ->
  Wg (sess c) = 0%nat ->
  threads c !! j = Some (T_Eval (E_wait ch)) ->
  forall sched' c',
    run sched' c = Some c' ->
    threads c' !! j = Some (T_Eval (E_wait ch)).
Proof.
  intros Hi Hr Hz Hj sched' c' Hr'.
  pose proof (reachable_wf _ _ _ Hi Hr) as Hwf.
  apply (blocked_forever (fun c => wf c /\ Wg (sess c) = 0%nat) j
           (T_Eval (E_wait ch))) with (sched := sched') (c := c); [|done|done|done].
  clear. intros c k e c' [Hwf Hz] Hj Hs.
  split; [split; [by eapply step_wf|]|].
  - destruct (step_inv _ _ _ _ Hs) as
      [t s' t' Ht Hst ->|idStr ch' res w w' Ht Hw Hk ->]; cbn; [|done].
    by eapply tstep_Wg_zero.
  - destruct (step_inv _ _ _ _ Hs) as
      [t s' t' Ht Hst ->|idStr ch' res w w' Ht Hw Hk ->]; cbn.
    + destruct (decide (k = j)) as [->|Hne].
      * rewrite Hj in Ht. by simplify_eq.
      * by rewrite list_lookup_insert_ne.
    + exfalso. rewrite (wf_wg c Hwf) in Hz.
      by pose proof (count_if_zero live _ _ _ Hz Ht).
Qed.

(** *** [Kill] against a dispatcher that holds a reply *)

(** X11: when [Kill] waits in [Wg.Wait] while a dispatcher has received a
    frame and is about to [Lock], neither ever moves again: [Kill] holds the
    mutex the dispatcher needs, and waits for the dispatcher. *)
Theorem Kill_blocks_with_undelivered_reply
    (c0 c : Config) (sched : list (nat * Env)) (i j : nat) (res : Result) :
  initial c0 = true ->
  run sched c0 = Some c ->
  threads c !! i = Some (T_Kill K_wait) ->
  threads c !! j = Some (T_handleResponse (D_lock res)) ->
  forall sched' c',
    run sched' c = Some c' ->
    threads c' !! i = Some (T_Kill K_wait)
    /\ threads c' !! j = Some (T_handleResponse (D_lock res)).
Proof.
  intros Hi Hr Hti Htj sched' c' Hr'.
  pose proof (reachable_wf _ _ _ Hi Hr) as Hwf.
  destruct (blocked_forever
              (fun c => wf c /\ threads c !! j = Some (T_handleResponse (D_lock res)))
              i (T_Kill K_wait)) with (sched := sched') (c := c) (c' := c')
    as [[_ H1] H2]; [|done|done|done|done].
  clear. intros c k e c' [Hwf Hj] Hi Hs.
  assert (Hmu : mu (sess c) = true) by (by eapply holder_mutex).
  assert (Hwg : (1 <= Wg (sess c))%nat).
  { rewrite (wf_wg c Hwf). by apply (count_if_lookup live _ _ _ Hj). }
  assert (Hij : i <> j) by (intros ->; rewrite Hi in Hj; done).
  destruct (step_inv _ _ _ _ Hs) as
    [t s' t' Ht Hst ->|idStr ch' res' w w' Ht Hw Hk ->]; cbn.
  - assert (k <> i /\ k <> j) as [Hki Hkj].
    { split; intros ->.
      - rewrite Hi in Ht. simplify_eq. cbn in Hst.
        destruct (Wg (sess c)); [lia|done].
      - rewrite Hj in Ht. simplify_eq. cbn in Hst. unfold Lock in Hst.
        by rewrite Hmu in Hst. }
    split; [split|].
    + by eapply step_wf.
    + by rewrite list_lookup_insert_ne.
    + by rewrite list_lookup_insert_ne.
  - exfalso. assert (Hne : k <> i) by (intros ->; rewrite Hi in Ht; done).
    pose proof (count_if_lookup2 holds _ _ _ _ _ Hne Ht Hi) as H2.
    rewrite (wf_mutex c Hwf), Hmu in H2. cbn in H2. lia.
Qed.

(** *** Bindings and the process *)

Lemma tstep_Bindings e s t s' t' name (f : BindingFunc) :
  tstep e s t = Some (s', t') ->
  Bindings s !! name = Some f -> Bindings s' !! name = Some f.
Proof.
  intros H. tstep_cases H; cbn; auto.
  intros Hb. destruct (decide (name0 = name)) as [->|Hne].
  - congruence.
  - by rewrite lookup_insert_ne.
Qed.

(** X15: a binding, once stored, is there under the same name with the same
    function in every later configuration. *)
Theorem binding_is_never_replaced
    (c c' : Config) (sched : list (nat * Env)) (name : string) (f : BindingFunc) :
  run sched c = Some c' ->
  Bindings (sess c) !! name = Some f ->
  Bindings (sess c') !! name = Some f.
Proof.
  revert c. induction sched as [|[i e] sched IH]; intros c H Hb; cbn in H.
  - by simplify_eq.
  - destruct (step i e c) as [c1|] eqn:Hs; [|done]. cbn in H.
    apply (IH c1); [done|].
    destruct (step_inv _ _ _ _ Hs) as
      [t s' t' Ht Hst ->|idStr ch res w w' Ht Hw Hk ->]; cbn; [|done].
    by eapply tstep_Bindings.
Qed.

Lemma tstep_spawns e s t s' t' :
  tstep e s t = Some (s', t') ->
  (spawns s' + b2n (bool_decide (is_Some (Cmd_Process s)))
   = spawns s + b2n (bool_decide (is_Some (Cmd_Process s'))))%nat.
Proof.
  intros H. tstep_cases H; unfold spawns; cbn; rewrite ?count_if_app; cbn;
    repeat match goal with Hp : Cmd_Process _ = _ |- _ => rewrite ?Hp; clear Hp end;
    cbn; lia.
Qed.

Lemma tstep_Process e s t s' t' :
  tstep e s t = Some (s', t') ->
  is_Some (Cmd_Process s) -> is_Some (Cmd_Process s').
Proof.
  intros H. tstep_cases H; cbn; auto;
    repeat match goal with Hp : Cmd_Process _ = _ |- _ => rewrite ?Hp; clear Hp end;
    try done; by intros [? ?].
Qed.

(** X16: however many calls of [Start] race, a session spawns at most one
    process, and a process handle that exists is never dropped nor spawned
    again. *)
Theorem process_spawned_at_most_once (c c' : Config) (sched : list (nat * Env)) :
  spawns (sess c) = b2n (bool_decide (is_Some (Cmd_Process (sess c)))) ->
  run sched c = Some c' ->
  spawns (sess c') = b2n (bool_decide (is_Some (Cmd_Process (sess c'))))
  /\ (spawns (sess c') <= 1)%nat
  /\ (is_Some (Cmd_Process (sess c)) -> is_Some (Cmd_Process (sess c'))
                                        /\ spawns (sess c') = spawns (sess c)).
Proof.
  revert c. induction sched as [|[i e] sched IH]; intros c Hinv H; cbn in H.
  - simplify_eq. split; [done|]. split; [|done].
    rewrite Hinv. unfold b2n. case_bool_decide; lia.
  - destruct (step i e c) as [c1|] eqn:Hs; [|done]. cbn in H.
    assert (H1 : (spawns (sess c1) + b2n (bool_decide (is_Some (Cmd_Process (sess c))))
                  = spawns (sess c) + b2n (bool_decide (is_Some (Cmd_Process (sess c1)))))%nat
                 /\ (is_Some (Cmd_Process (sess c)) -> is_Some (Cmd_Process (sess c1)))).
    { destruct (step_inv _ _ _ _ Hs) as
        [t s' t' Ht Hst ->|idStr ch res w w' Ht Hw Hk ->]; cbn; [|done].
      split; [by eapply tstep_spawns|by eapply tstep_Process]. }
    destruct H1 as [H1 H2].
    assert (Hinv1 : spawns (sess c1) = b2n (bool_decide (is_Some (Cmd_Process (sess c1)))))
      by lia.
    destruct (IH c1 Hinv1 H) as (Ha & Hb & Hc). split; [done|]. split; [done|].
    intros Hp. destruct (Hc (H2 Hp)) as [Hd He]. split; [done|].
    rewrite He, Hinv, Hinv1. unfold b2n. pose proof (H2 Hp).
    repeat case_bool_decide; done.
Qed.

(** *** One round of the dispatcher *)

Lemma step_rendezvous_eq i e c idStr ch res w w' :
  threads c !! i = Some (T_handleResponse (D_send idStr ch res)) ->
  threads c !! env_peer e = Some w ->
  receive e ch (I_Result res) w = Some w' ->
  step i e c = Some {| sess := delivered idStr (sess c);
                       threads := <[i := T_handleResponse D_select]>
                                    (<[env_peer e := w']> (threads c)) |}.
Proof.
  intros Ht Hw Hk. unfold step. rewrite Ht. cbn. rewrite Hw. cbn. by rewrite Hk.
Qed.

(** X8: with the mutex free and the connection open, a reply whose id is
    registered takes the dispatcher from its receive round to its [select]
    in four steps: the waiting [Eval] returns what [Eval_finish] makes of the
    reply, the slot is deleted and the mutex is free again. *)
Theorem reply_fulfils_waiting_Eval
    (c : Config) (d j ch : nat) (res : Result) (e1 e2 e3 e4 : Env) :
  threads c !! d = Some (T_handleResponse D_receive) ->
  threads c !! j = Some (T_Eval (E_wait ch)) ->
  Ws (sess c) = Some ConnOpen ->
  mu (sess c) = false ->
  Pending (sess c) !! pretty (res_ID res) = Some ch ->
  env_recv e1 = inr res ->
  env_peer e4 = j ->
  exists c',
    run [(d, e1); (d, e2); (d, e3); (d, e4)] c = Some c'
    /\ threads c' !! j
       = Some (T_Eval (E_returned (Eval_finish (env_ftoa e4) (I_Result res))))
    /\ threads c' !! d = Some (T_handleResponse D_select)
    /\ Pending (sess c') = delete (pretty (res_ID res)) (Pending (sess c))
    /\ mu (sess c') = false
    /\ trace (sess c') = trace (sess c).
Proof.
  intros Hd Hj Hws Hmu Hp Hrecv Hpeer.
  assert (Hdj : d <> j) by (intros ->; rewrite Hd in Hj; done).
  set (idStr := pretty (res_ID res)).
  set (c1 := {| sess := sess c;
                threads := <[d := T_handleResponse (D_lock res)]> (threads c) |}).
  set (c2 := {| sess := set_mu true (sess c);
                threads := <[d := T_handleResponse (D_locked res)]> (threads c1) |}).
  set (c3 := {| sess := set_mu true (sess c);
                threads := <[d := T_handleResponse (D_send idStr ch res)]> (threads c2) |}).
  set (w' := T_Eval (E_returned (Eval_finish (env_ftoa e4) (I_Result res)))).
  set (c4 := {| sess := delivered idStr (sess c3);
                threads := <[d := T_handleResponse D_select]>
                             (<[env_peer e4 := w']> (threads c3)) |}).
  assert (S1 : step d e1 c = Some c1).
  { apply (step_local_eq d e1 c (T_handleResponse D_receive)); [done|done|].
    cbn. rewrite Hws. cbn. by rewrite Hrecv. }
  assert (S2 : step d e2 c1 = Some c2).
  { apply (step_local_eq d e2 c1 (T_handleResponse (D_lock res))); [|done|].
    - by eapply lookup_insert_same.
    - cbn. by rewrite (Lock_free _ Hmu). }
  assert (S3 : step d e3 c2 = Some c3).
  { apply (step_local_eq d e3 c2 (T_handleResponse (D_locked res))); [|done|].
    - eapply lookup_insert_same. by eapply lookup_insert_same.
    - unfold tstep, handleResponse. cbn [sess c2].
      change (Pending (set_mu true (sess c))) with (Pending (sess c)).
      by rewrite Hp. }
  assert (S4 : step d e4 c3 = Some c4).
  { apply (step_rendezvous_eq d e4 c3 idStr ch res (T_Eval (E_wait ch))).
    - do 2 eapply lookup_insert_same. by eapply lookup_insert_same.
    - rewrite Hpeer. cbn. by rewrite !list_lookup_insert_ne.
    - cbn. by rewrite decide_True. }
  exists c4. split; [|split; [|split; [|split; [|split]]]].
  - cbn [run]. rewrite S1. cbn [mbind option_bind]. rewrite S2.
    cbn [mbind option_bind]. rewrite S3. cbn [mbind option_bind]. by rewrite S4.
  - cbn [threads c4]. rewrite list_lookup_insert_ne by done. rewrite Hpeer.
    eapply lookup_insert_same. cbn. by rewrite !list_lookup_insert_ne.
  - cbn [threads c4]. eapply lookup_insert_same.
    rewrite list_lookup_insert_ne by (by rewrite Hpeer).
    do 2 eapply lookup_insert_same. by eapply lookup_insert_same.
  - done.
  - done.
  - done.
Qed.

(** X9: a reply whose id is not registered is dropped: after its three steps
    the dispatcher is back at its [select] and the session is as it was. *)
Theorem reply_without_slot_is_dropped
    (c : Config) (d : nat) (res : Result) (e1 e2 e3 : Env) :
  threads c !! d = Some (T_handleResponse D_receive) ->
  Ws (sess c) = Some ConnOpen ->
  mu (sess c) = false ->
  Pending (sess c) !! pretty (res_ID res) = None ->
  env_recv e1 = inr res ->
  run [(d, e1); (d, e2); (d, e3)] c
  = Some {| sess := sess c;
            threads := <[d := T_handleResponse D_select]> (threads c) |}.
Proof.
  intros Hd Hws Hmu Hp Hrecv.
  set (c1 := {| sess := sess c;
                threads := <[d := T_handleResponse (D_lock res)]> (threads c) |}).
  set (c2 := {| sess := set_mu true (sess c);
                threads := <[d := T_handleResponse (D_locked res)]> (threads c1) |}).
  assert (S1 : step d e1 c = Some c1).
  { apply (step_local_eq d e1 c (T_handleResponse D_receive)); [done|done|].
    cbn. rewrite Hws. cbn. by rewrite Hrecv. }
  assert (S2 : step d e2 c1 = Some c2).
  { apply (step_local_eq d e2 c1 (T_handleResponse (D_lock res))); [|done|].
    - by eapply lookup_insert_same.
    - cbn. by rewrite (Lock_free _ Hmu). }
  cbn [run]. rewrite S1. cbn [mbind option_bind]. rewrite S2. cbn [mbind option_bind].
  erewrite (step_local_eq d e3 c2 (T_handleResponse (D_locked res))); [| |done|].
  2:{ eapply lookup_insert_same. by eapply lookup_insert_same. }
  2:{ unfold tstep, handleResponse. cbn [sess c2].
      change (Pending (set_mu true (sess c))) with (Pending (sess c)).
      rewrite Hp. reflexivity. }
  cbn. rewrite (Unlock_Lock _ Hmu). by rewrite !list_insert_insert_eq.
Qed.

(** *** Connection establishment *)

(** X17: [chrome]'s [connectWebSocket] returns [nil] exactly when the port
    is open, the listing is fetched and decoded, has a target, and the dial
    succeeds; then [Ws] is the new connection.  A failed attempt leaves [Ws]
    as it was; an empty target list gives "no WebSocket targets found"
    without a dial; a dial, if any, goes to the first target. *)
Theorem Chrome_connectWebSocket_outcome (n : NetEnv) (s : Sess) :
  let r := Chrome_connectWebSocket n s in
  (r.2 = None <->
     net_port n = true /\ net_get n = None
     /\ (exists u rest, net_targets n = inr (u :: rest)) /\ net_dial n = None)
  /\ (r.2 = None -> Ws r.1 = Some ConnOpen)
  /\ (r.2 <> None -> Ws r.1 = Ws s)
  /\ (net_port n = true -> net_get n = None -> net_targets n = inr [] ->
      r = (s, Some (Errorf "no WebSocket targets found")))
  /\ (trace r.1 = trace s
      \/ exists u rest, net_port n = true /\ net_get n = None
                        /\ net_targets n = inr (u :: rest)
                        /\ trace r.1 = trace s ++ [EvDial u]).
Proof.
  unfold Chrome_connectWebSocket.
  destruct (net_port n), (net_get n) as [e1|], (net_targets n) as [e2|[|u rest]],
    (net_dial n) as [e3|]; cbn [negb fst snd Ws trace set_Ws log];
    (split; [split; [discriminate || (intros _; eauto 10)
                    | intros (H1 & H2 & (u' & rest' & H3) & H4); congruence]|]);
    (split; [discriminate || reflexivity || (intros; reflexivity)|]);
    (split; [try reflexivity; try (intros H; exfalso; by apply H); intros; reflexivity|]);
    (split; [intros; congruence|]);
    first [left; reflexivity | right; eauto 10].
Qed.

Lemma slept_log ev s : slept (log ev s) = slept s + sleep_time ev.
Proof.
  unfold slept, log; cbn. generalize (trace s) as l.
  induction l as [|a l IH]; cbn; [lia|]. rewrite IH. lia.
Qed.

Lemma spawns_log ev s : spawns (log ev s) = (spawns s + b2n (is_Spawn ev))%nat.
Proof. unfold spawns, log; cbn. rewrite count_if_app. cbn. unfold b2n. lia. Qed.

Lemma connectWebSocket_frame v n s :
  let r := connectWebSocket v n s in
  same_but_Ws s r.1 /\ slept r.1 = slept s
  /\ (r.2 <> None -> Ws r.1 = Ws s)
  /\ (v = Firefox -> r.1 = s)
  /\ (v = Chrome -> r.2 = None -> Ws r.1 = Some ConnOpen).
Proof.
  unfold same_but_Ws.
  destruct v; cbn; unfold Chrome_connectWebSocket, Firefox_connectWebSocket;
    repeat case_match; cbn; rewrite ?slept_log, ?closes_log, ?spawns_log; cbn;
    repeat split; try done; try lia;
    try (rewrite count_if_app; cbn; unfold closes, spawns; lia);
    match goal with
    | |- foldr _ _ (trace ?s ++ [?ev]) = _ =>
        change (slept (log ev s) = slept s); rewrite slept_log; cbn; lia
    end.
Qed.

Lemma same_but_Ws_trans s1 s2 s3 :
  same_but_Ws s1 s2 -> same_but_Ws s2 s3 -> same_but_Ws s1 s3.
Proof. unfold same_but_Ws. intros H1 H2. intuition congruence. Qed.

Lemma same_but_Ws_sleep d s : same_but_Ws s (log (EvSleep d) s).
Proof.
  unfold same_but_Ws. rewrite closes_log, spawns_log. cbn. repeat split; lia.
Qed.

Lemma retry_loop_effects v delay nets :
  forall (r i : nat) err s,
    let res := retry_loop v delay nets r i err s in
    same_but_Ws s res.1.1
    /\ (v = Firefox -> Ws res.1.1 = Ws s)
    /\ (res.2 = true ->
        exists k, (k < r)%nat
                  /\ (forall j, (j < k)%nat -> attempt v (nets (i + j)%nat) <> None)
                  /\ attempt v (nets (i + k)%nat) = None
                  /\ slept res.1.1 = slept s + Z.of_nat k * delay
                  /\ (v = Chrome -> Ws res.1.1 = Some ConnOpen))
    /\ (res.2 = false ->
        (forall j, (j < r)%nat -> attempt v (nets (i + j)%nat) <> None)
        /\ slept res.1.1 = slept s + Z.of_nat r * delay
        /\ Ws res.1.1 = Ws s).
Proof.
  induction r as [|r IH]; intros i err s; cbn [retry_loop].
  - cbn. split; [by repeat split|]. split; [done|]. split; [done|].
    intros _. split; [intros j Hj; lia|]. split; [lia|done].
  - pose proof (connectWebSocket_attempt v (nets i) s) as Ha.
    destruct (connectWebSocket_frame v (nets i) s) as (Hf & Hsl & Hfail & Hfx & Hok).
    destruct (connectWebSocket v (nets i) s) as [s1 [e1|]]; cbn in *.
    + specialize (IH (S i) (Some e1) (log (EvSleep delay) s1)).
      cbn zeta in IH. destruct IH as (IH1 & IH2 & IH3 & IH4).
      set (res := retry_loop v delay nets r (S i) (Some e1) (log (EvSleep delay) s1)) in *.
      split; [|split; [|split]].
      * eapply same_but_Ws_trans; [done|].
        eapply same_but_Ws_trans; [apply same_but_Ws_sleep|done].
      * intros Hv. rewrite (IH2 Hv). cbn. by rewrite (Hfx Hv).
      * intros Hb. destruct (IH3 Hb) as (k & Hk & Hfl & Hs & Hsl' & Hws).
        exists (S k). split; [lia|]. split; [|split; [|split]].
        -- intros [|j] Hj; [rewrite Nat.add_0_r; congruence|].
           replace (i + S j)%nat with (S i + j)%nat by lia. apply Hfl. lia.
        -- by replace (i + S k)%nat with (S i + k)%nat by lia.
        -- rewrite Hsl', slept_log, Hsl. cbn. lia.
        -- done.
      * intros Hb. destruct (IH4 Hb) as (Hfl & Hsl' & Hws).
        split; [|split].
        -- intros [|j] Hj; [rewrite Nat.add_0_r; congruence|].
           replace (i + S j)%nat with (S i + j)%nat by lia. apply Hfl. lia.
        -- rewrite Hsl', slept_log, Hsl. cbn. lia.
        -- rewrite Hws. cbn. by apply Hfail.
    + split; [done|]. split; [intros Hv; by rewrite (Hfx Hv)|]. split; [|done].
      intros _. exists 0%nat. split; [lia|]. split; [intros j Hj; lia|].
      rewrite Nat.add_0_r. split; [done|]. split; [lia|]. intros Hv. by apply Hok.
Qed.

(** X18: [connectWebSocketWithRetry] touches nothing but [Ws] and the
    trace; it sleeps [delay] after every failed attempt, the last one
    included ([k * delay] before a success at attempt [k+1], and
    [maxRetries * delay] when all fail); on exhaustion [Ws] is as it was;
    [chrome] has an open connection on success and [firefox] never sets
    [Ws]. *)
Theorem connectWebSocketWithRetry_effects (v : Variant) (maxRetries delay : Z)
    (nets : nat -> NetEnv) (s : Sess) :
  let r := connectWebSocketWithRetry v maxRetries delay nets s in
  same_but_Ws s r.1
  /\ (v = Firefox -> Ws r.1 = Ws s)
  /\ (r.2 = None ->
      exists k, (k < Z.to_nat maxRetries)%nat
                /\ (forall j, (j < k)%nat -> attempt v (nets j) <> None)
                /\ attempt v (nets k) = None
                /\ slept r.1 = slept s + Z.of_nat k * delay
                /\ (v = Chrome -> Ws r.1 = Some ConnOpen))
  /\ (r.2 <> None ->
      (forall j, (j < Z.to_nat maxRetries)%nat -> attempt v (nets j) <> None)
      /\ slept r.1 = slept s + Z.of_nat (Z.to_nat maxRetries) * delay
      /\ Ws r.1 = Ws s).
Proof.
  unfold connectWebSocketWithRetry.
  destruct (retry_loop_effects v delay nets (Z.to_nat maxRetries) 0 None s)
    as (H1 & H2 & H3 & H4).
  destruct (retry_loop v delay nets (Z.to_nat maxRetries) 0 None s) as [[s' e'] [|]];
    cbn in *.
  - split; [done|]. split; [done|]. split; [intros _; by apply H3|]. done.
  - split; [done|]. split; [done|]. split; [done|]. intros _. by apply H4.
Qed.

(** *** [chrome.New] *)

Lemma forallb_app_true {A} (f : A -> bool) (l1 l2 : list A) :
  forallb f l1 = true -> forallb f l2 = true -> forallb f (l1 ++ l2) = true.
Proof. intros H1 H2. rewrite forallb_app. by rewrite H1, H2. Qed.





(** *** [FindPath] *)

Lemma eqb_empty_false (p : string) : p <> "" -> String.eqb p "" = false.
Proof. intros H. by apply String.eqb_neq. Qed.

Lemma FindPath_envPath (o : OS) (p : string) :
  os_LookupEnv o "MAJORCA_BROWSER" = Some p ->
  p <> "" ->
  Chrome_FindPath o = inr p /\ Firefox_FindPath o = inr p.
Proof.
  intros Hl Hp. unfold Chrome_FindPath, Firefox_FindPath, Getenv.
  rewrite Hl. cbn. by rewrite (eqb_empty_false p Hp).
Qed.

Lemma first_existing_Some o paths p :
  first_existing o paths = Some p <->
  exists i q, paths !! i = Some q /\ p = os_ExpandEnv o q /\ os_Stat o p = true
              /\ forall j q', (j < i)%nat -> paths !! j = Some q' ->
                              os_Stat o (os_ExpandEnv o q') = false.
Proof.
  induction paths as [|a paths IH]; cbn.
  - split; [done|]. by intros (i & q & H & _).
  - destruct (os_Stat o (os_ExpandEnv o a)) eqn:Ha.
    + split.
      * intros [= <-]. exists 0%nat, a. repeat split; try done. intros j q' Hj. lia.
      * intros (i & q & Hq & -> & Hs & Hfirst). destruct i as [|i].
        -- cbn in Hq. by simplify_eq.
        -- specialize (Hfirst 0%nat a). cbn in Hfirst.
           rewrite Hfirst in Ha; [done|lia|done].
    + rewrite IH. split.
      * intros (i & q & Hq & -> & Hs & Hfirst). exists (S i), q.
        repeat split; try done. intros [|j] q' Hj Hq'; cbn in Hq'.
        -- by simplify_eq.
        -- eapply Hfirst; [|done]. lia.
      * intros (i & q & Hq & -> & Hs & Hfirst). destruct i as [|i].
        -- cbn in Hq. simplify_eq. congruence.
        -- exists i, q. repeat split; try done. intros j q' Hj Hq'.
           apply (Hfirst (S j) q'); [lia|done].
Qed.

Lemma first_existing_None o paths :
  first_existing o paths = None <->
  forall q, q ∈ paths -> os_Stat o (os_ExpandEnv o q) = false.
Proof.
  induction paths as [|a paths IH]; cbn.
  - split; [|done]. intros _ q Hq. by apply elem_of_nil in Hq.
  - destruct (os_Stat o (os_ExpandEnv o a)) eqn:Ha.
    + split; [done|]. intros H. rewrite H in Ha; [done|]. by left.
    + rewrite IH. split.
      * intros H q [->|Hq]%elem_of_cons; auto.
      * intros H q Hq. apply H. by right.
Qed.

(** X20: without the override, [FindPath] fails with "unsupported OS" off
    Windows, and on Windows returns the first candidate, in the order of
    the list, whose expansion exists, and "could not find ... binary"
    exactly when none does. *)
Theorem FindPath_scans_in_order (o : OS) :
  Getenv o "MAJORCA_BROWSER" = "" ->
  (os_GOOS o <> "windows" ->
     Chrome_FindPath o = inl (Errorf ("unsupported OS: " +:+ os_GOOS o))
     /\ Firefox_FindPath o = inl (Errorf ("unsupported OS: " +:+ os_GOOS o)))
  /\ (os_GOOS o = "windows" ->
      (forall p,
          Chrome_FindPath o = inr p <->
          exists i q, Chrome_paths o !! i = Some q /\ p = os_ExpandEnv o q
                      /\ os_Stat o p = true
                      /\ forall j q', (j < i)%nat -> Chrome_paths o !! j = Some q' ->
                                      os_Stat o (os_ExpandEnv o q') = false)
      /\ (Chrome_FindPath o = inl (Errorf "could not find Chrome binary") <->
          forall q, q ∈ Chrome_paths o -> os_Stat o (os_ExpandEnv o q) = false)
      /\ (forall p,
          Firefox_FindPath o = inr p <->
          exists i q, Firefox_paths o !! i = Some q /\ p = os_ExpandEnv o q
                      /\ os_Stat o p = true
                      /\ forall j q', (j < i)%nat -> Firefox_paths o !! j = Some q' ->
                                      os_Stat o (os_ExpandEnv o q') = false)
      /\ (Firefox_FindPath o = inl (Errorf "could not find Firefox binary") <->
          forall q, q ∈ Firefox_paths o -> os_Stat o (os_ExpandEnv o q) = false)).
Proof.
  intros Henv. unfold Chrome_FindPath, Firefox_FindPath. rewrite Henv. cbn [String.eqb negb].
  split.
  - intros Hos. apply String.eqb_neq in Hos. by rewrite Hos.
  - intros Hos. rewrite Hos. cbn [String.eqb Ascii.eqb Bool.eqb].
    change (("windows" =? "windows")%string) with true. cbn iota.
    split; [|split; [|split]].
    + intros p. rewrite <- first_existing_Some.
      destruct (first_existing o (Chrome_paths o)); split; intros; by simplify_eq.
    + rewrite <- first_existing_None.
      destruct (first_existing o (Chrome_paths o)); split; intros; by simplify_eq.
    + intros p. rewrite <- first_existing_Some.
      destruct (first_existing o (Firefox_paths o)); split; intros; by simplify_eq.
    + rewrite <- first_existing_None.
      destruct (first_existing o (Firefox_paths o)); split; intros; by simplify_eq.
Qed.

(** X21: after the [os.Setenv("MAJORCA_BROWSER", path)] of [New], [FindPath]
    of either family returns [path], without looking at the disk or the
    operating system (so [firefox.FindPath] after [chrome.New] returns the
    Chrome executable). *)
Theorem FindPath_after_Setenv (o : OS) (p : string) :
  p <> "" ->
  has_NUL p = false ->
  Chrome_FindPath (Setenv "MAJORCA_BROWSER" p o) = inr p
  /\ Firefox_FindPath (Setenv "MAJORCA_BROWSER" p o) = inr p.
Proof.
  intros Hp Hn. apply FindPath_envPath; [|done].
  unfold Setenv. rewrite Hn. reflexivity.
Qed.

(** *** [firefox.Kill] *)

Lemma Kill_call_effects (e : Env) (s s' : Sess) (kerr : option error) :
  Kill_call e s = Some (s', kerr) ->
  mu s = false /\ Wg s = 0%nat
  /\ mu s' = false /\ Done s' = true /\ Ws s' <> Some ConnOpen
  /\ Pending s' = Pending s /\ Bindings s' = Bindings s
  /\ (closes s' <= closes s + 1)%nat.
Proof.
  destruct s as [m p w i pe b d g ch tr]; cbn.
  unfold Kill_call, Kill, Lock, close_Ws, signal_stop, Process_Kill, isProcessRunning,
    closes.
  cbn. destruct m; [done|]. cbn.
  destruct d, w as [cn|], g, p as [[pid [|]]|]; cbn; try done;
    destruct (env_kill e); cbn; try destruct (env_signal e); cbn;
    intros [= <- <-]; cbn; rewrite ?count_if_app; cbn; repeat split; try done; lia.
Qed.

(** X22: whenever [firefox.Kill] returns, the stop has been signalled and
    the connection is not open; it returns [nil] exactly when the base
    [Kill] and [os.RemoveAll] both did, and only then is the profile
    directory gone: after a failed base [Kill] the profile is left. *)
Theorem Firefox_Kill_removes_profile_after_Kill
    (e : Env) (rm : option error) (f f' : FirefoxSess) (err : option error) :
  Firefox_Kill e rm f = Some (f', err) ->
  Done (fx_base f') = true /\ Ws (fx_base f') <> Some ConnOpen
  /\ mu (fx_base f') = false
  /\ fx_profile f' = fx_profile f
  /\ exists kerr,
      Kill_call e (fx_base f) = Some (fx_base f', kerr)
      /\ (err = None <-> kerr = None /\ rm = None)
      /\ (err = None -> fx_profile_on_disk f' = false)
      /\ (err <> None -> fx_profile_on_disk f' = fx_profile_on_disk f)
      /\ (forall k, kerr = Some k -> err = Some k).
Proof.
  unfold Firefox_Kill.
  destruct (Kill_call e (fx_base f)) as [[s' kerr]|] eqn:HK; [|done].
  destruct (Kill_call_effects _ _ _ _ HK) as (_ & _ & Hmu & Hd & Hws & _).
  cbn. destruct kerr as [k|]; [|destruct rm as [r|]]; intros [= <- <-]; cbn;
    (split; [done|]); (split; [done|]); (split; [done|]); (split; [done|]);
    eexists; (split; [reflexivity|]); repeat split; try done;
    try (by intros [? ?]); by intros ? [= <-].
Qed.

(** *** Replies at the edges *)

(** X23: [Eval] on the replies at the edges: an error object wins over any
    result; a reply without result gives [("<nil>", "")] and one without
    value gives ["<nil>"] with the reported type, both without an error; a
    type that is not a string gives the unmarshal error. *)
Theorem Eval_edge_replies (ftoa : positive -> Z -> string * Z) (id : Z) :
  (forall raw err,
      Eval_finish ftoa (I_Result {| res_ID := id; res_Result := raw; res_Error := Some err |})
      = ("", "", Some (Errorf ("evaluation error: " +:+ Message err))))
  /\ Eval_finish ftoa (I_Result {| res_ID := id; res_Result := None; res_Error := None |})
     = ("<nil>", "", None)
  /\ (forall type,
      Eval_finish ftoa
        (I_Result {| res_ID := id;
                     res_Result := Some (JObject [("result", JObject [("type", JString type)])]);
                     res_Error := None |})
      = ("<nil>", type, None))
  /\ (forall type value,
      (forall s, type <> JString s) -> type <> JNull ->
      Eval_finish ftoa
        (I_Result {| res_ID := id;
                     res_Result :=
                       Some (JObject [("result", JObject [("type", type); ("value", value)])]);
                     res_Error := None |})
      = ("", "", Some (wrapError "failed to unmarshal response: "
                         (UnmarshalTypeError (json_kind type) "result.type" "string")))).
Proof.
  split; [done|]. split; [done|]. split; [done|].
  intros type value Hs Hn.
  unfold Eval_finish, json_Marshal. cbn -[json_Unmarshal Sprintf_v].
  unfold json_Unmarshal. cbn [fold_left]. unfold decode_top.
  change (String.eqb (foldName "result") "RESULT") with true. cbn iota.
  cbn [fold_left]. unfold decode_member.
  change (String.eqb (foldName "type") "TYPE") with true.
  change (String.eqb (foldName "value") "TYPE") with false.
  change (String.eqb (foldName "value") "VALUE") with true. cbn iota.
  destruct type as [|b|literal|s|items|members]; try done;
    try (cbn [saveError json_kind]; by rewrite fold_saveError_Some).
  by destruct (Hs s).
Qed.

(** *** The order of the shutdown *)





(** *** The error of [Kill] *)

(** X14: [Kill] returns an error only when [Process.Kill] failed on a
    running process and the [Signal(os.Kill)] of [isProcessRunning] went
    through, so that when [Kill] reports that it could not kill the process,
    the process has just been ended by the probe. *)
Theorem Kill_error_means_process_ended (e : Env) (s s' : Sess) (err : error) :
  Kill e s K_wait = Some (s', K_return (Some err)) ->
  (exists p cause,
      Cmd_Process s = Some p /\ running p = true
      /\ env_kill e = Some cause /\ env_signal e = None
      /\ err = wrapError "failed to kill browser process: " cause
      /\ Cmd_Process s' = Some {| Pid := Pid p; running := false |})
  /\ process_gone s' = true
  /\ mu s' = false.
Proof.
  unfold Kill, Process_Kill, isProcessRunning, process_gone.
  intros H. repeat (case_match; simplify_eq/=).
  all: split; [|done]; eexists _, _; repeat split; eauto; congruence.
Qed.

(** *** [Kill] against a dispatcher blocked in [Receive] *)

(** X12: against the one dispatcher blocked in [Receive], [Kill] goes
    through: it signals and closes the connection, the receive fails, the
    dispatcher sees the signal and returns, and [Kill] returns; [Pending] is
    as it was. *)
Theorem Kill_stops_receiving_dispatcher
    (c : Config) (d k : nat) (conn : Conn) (e1 e2 e3 e4 e5 : Env) :
  threads c !! d = Some (T_handleResponse D_receive) ->
  threads c !! k = Some (T_Kill K_entry) ->
  mu (sess c) = false ->
  Ws (sess c) = Some conn ->
  Wg (sess c) = 1%nat ->
  exists c' err,
    run [(k, e1); (k, e2); (d, e3); (d, e4); (k, e5)] c = Some c'
    /\ threads c' !! d = Some (T_handleResponse D_return)
    /\ threads c' !! k = Some (T_Kill (K_return err))
    /\ Done (sess c') = true /\ Ws (sess c') = Some ConnClosed
    /\ Wg (sess c') = 0%nat /\ mu (sess c') = false
    /\ Pending (sess c') = Pending (sess c).
Proof.
  intros Hd Hk Hmu Hws Hwg.
  assert (Hdk : d <> k) by (intros ->; rewrite Hd in Hk; done).
  assert (Hs2 : forall s, mu s = false -> Ws s = Some conn -> Wg s = 1%nat ->
             let s2 := close_Ws e2 (signal_stop (set_mu true s)) in
             Done s2 = true /\ Ws s2 = Some ConnClosed /\ Wg s2 = 1%nat
             /\ mu s2 = true /\ Pending s2 = Pending s
             /\ Cmd_Process s2 = Cmd_Process s).
  { clear. intros [m p w i pe b dn g ch tr]; cbn. intros -> -> ->.
    unfold close_Ws, signal_stop. by destruct dn. }
  specialize (Hs2 (sess c) Hmu Hws Hwg). cbn zeta in Hs2.
  set (s2 := close_Ws e2 (signal_stop (set_mu true (sess c)))) in *.
  destruct Hs2 as (HD2 & HW2 & HG2 & HM2 & HP2 & HC2).
  set (c1 := {| sess := set_mu true (sess c);
                threads := <[k := T_Kill K_locked]> (threads c) |}).
  set (c2 := {| sess := s2; threads := <[k := T_Kill K_wait]> (threads c1) |}).
  set (c3 := {| sess := s2;
                threads := <[d := T_handleResponse D_select]> (threads c2) |}).
  set (c4 := {| sess := set_Wg 0 s2;
                threads := <[d := T_handleResponse D_return]> (threads c3) |}).
  assert (S1 : step k e1 c = Some c1).
  { apply (step_local_eq k e1 c (T_Kill K_entry)); [done|done|].
    cbn. by rewrite (Lock_free _ Hmu). }
  assert (S2 : step k e2 c1 = Some c2).
  { apply (step_local_eq k e2 c1 (T_Kill K_locked)); [|done|done].
    by eapply lookup_insert_same. }
  assert (S3 : step d e3 c2 = Some c3).
  { apply (step_local_eq d e3 c2 (T_handleResponse D_receive)); [|done|].
    - cbn. by rewrite !list_lookup_insert_ne.
    - unfold tstep, handleResponse. cbn [sess c2]. rewrite HW2. cbn.
      by destruct (env_recv e3). }
  assert (S4 : step d e4 c3 = Some c4).
  { apply (step_local_eq d e4 c3 (T_handleResponse D_select)); [|done|].
    - cbn. eapply lookup_insert_same. by rewrite !list_lookup_insert_ne.
    - unfold tstep, handleResponse, Wg_Done. cbn [sess c3]. by rewrite HD2, HG2. }
  assert (Hk4 : threads c4 !! k = Some (T_Kill K_wait)).
  { cbn. rewrite !list_lookup_insert_ne by done.
    eapply lookup_insert_same. by eapply lookup_insert_same. }
  assert (S5 : exists s5 err,
             Kill e5 (set_Wg 0 s2) K_wait = Some (s5, K_return err)
             /\ Done s5 = true /\ Ws s5 = Some ConnClosed /\ Wg s5 = 0%nat
             /\ mu s5 = false /\ Pending s5 = Pending (sess c)).
  { unfold Kill, Process_Kill, isProcessRunning. cbn [Wg set_Wg Cmd_Process].
    rewrite HC2.
    destruct (Cmd_Process (sess c)) as [[pid [|]]|]; cbn;
      [destruct (env_kill e5); [destruct (env_signal e5)|]
      |destruct (env_kill e5)|]; cbn; eexists _, _; (split; [reflexivity|]);
      cbn; done. }
  destruct S5 as (s5 & err & HK & HD5 & HW5 & HG5 & HM5 & HP5).
  exists {| sess := s5; threads := <[k := T_Kill (K_return err)]> (threads c4) |}, err.
  split; [|split; [|split]].
  - cbn [run]. rewrite S1. cbn [mbind option_bind]. rewrite S2.
    cbn [mbind option_bind]. rewrite S3. cbn [mbind option_bind]. rewrite S4.
    cbn [mbind option_bind].
    rewrite (step_local_eq k e5 c4 (T_Kill K_wait) s5 (T_Kill (K_return err)));
      [done|done|done|].
    cbn [tstep sess c4]. by rewrite HK.
  - cbn. rewrite list_lookup_insert_ne by done.
    eapply lookup_insert_same. eapply lookup_insert_same.
    by rewrite !list_lookup_insert_ne.
  - cbn [threads]. by eapply lookup_insert_same.
  - done.
Qed.

(** ** Instances of the further properties *)

Lemma mutex_excludes_witness :
  (forall i j ti tj,
      threads Load_waiting !! i = Some ti -> threads Load_waiting !! j = Some tj ->
      holds ti = true -> holds tj = true -> i = j)
  /\ (forall i ti, threads Load_waiting !! i = Some ti -> holds ti = true ->
                   mu (sess Load_waiting) = true)
  /\ (mu (sess Load_waiting) = true ->
      exists i ti, threads Load_waiting !! i = Some ti /\ holds ti = true).
Proof.
  apply (mutex_excludes client_Load Load_waiting [(1%nat, env_ok); (1%nat, env_ok)]);
    vm_compute; reflexivity.
Defined.

Lemma Done_closed_at_most_once_witness :
  closes (sess killed_Eval_waiting) = b2n (Done (sess killed_Eval_waiting))
  /\ (closes (sess killed_Eval_waiting) <= 1)%nat.
Proof.
  apply (Done_closed_at_most_once client_Eval_Kill killed_Eval_waiting sched_Eval_Kill);
    vm_compute; reflexivity.
Defined.

Lemma dispatcher_returns_only_after_stop_witness :
  Done (sess killed_Eval_waiting) = true.
Proof.
  apply (dispatcher_returns_only_after_stop client_Eval_Kill killed_Eval_waiting
           sched_Eval_Kill 0);
    vm_compute; reflexivity.
Defined.

Lemma dispatcher_never_panics_when_connected_witness :
  D_return <> D_panic
  /\ Wg (sess killed_Eval_waiting) = count_if live (threads killed_Eval_waiting).
Proof.
  apply (dispatcher_never_panics_when_connected client_Eval_Kill killed_Eval_waiting
           sched_Eval_Kill 0 D_return);
    [reflexivity|discriminate|vm_compute; reflexivity|reflexivity].
Defined.

Lemma fresh_id_not_registered_witness :
  Pending (sess killed_Eval_waiting) !! pretty (Id (sess killed_Eval_waiting)) = None.
Proof.
  apply (fresh_id_not_registered client_Eval_Kill killed_Eval_waiting sched_Eval_Kill);
    vm_compute; reflexivity.
Defined.

Lemma waiting_request_owns_slot_witness :
  (exists method params,
     trace (sess (after [(1%nat, env_ok); (1%nat, env_ok)] client_Eval))
     = trace (sess (after [(1%nat, env_ok)] client_Eval))
       ++ [EvSend {| req_id := id_of 0; req_method := method; req_params := params |}])
  /\ Pending (sess (after [(1%nat, env_ok); (1%nat, env_ok)] client_Eval))
     !! pretty (id_of 0) = Some 0%nat
  /\ 0%nat = chans (sess (after [(1%nat, env_ok)] client_Eval)).
Proof.
  apply (waiting_request_owns_slot client_Eval (after [(1%nat, env_ok)] client_Eval)
           (after [(1%nat, env_ok); (1%nat, env_ok)] client_Eval)
           [(1%nat, env_ok)] 1 env_ok (T_Eval (E_wait 0)) 0);
    vm_compute; reflexivity.
Defined.


Lemma reply_fulfils_waiting_Eval_witness :
  exists c',
    run [(0%nat, env_reply 1 title_reply); (0%nat, env_ok); (0%nat, env_ok);
         (0%nat, env_reply 1 title_reply)]
      (after [(1%nat, env_ok); (1%nat, env_ok); (0%nat, env_ok)] client_Eval) = Some c'
    /\ threads c' !! 1%nat
       = Some (T_Eval (E_returned
                         (Eval_finish (env_ftoa (env_reply 1 title_reply))
                            (I_Result title_reply))))
    /\ threads c' !! 0%nat = Some (T_handleResponse D_select)
    /\ Pending (sess c')
       = delete (pretty (res_ID title_reply))
           (Pending (sess (after [(1%nat, env_ok); (1%nat, env_ok); (0%nat, env_ok)]
                             client_Eval)))
    /\ mu (sess c') = false
    /\ trace (sess c')
       = trace (sess (after [(1%nat, env_ok); (1%nat, env_ok); (0%nat, env_ok)]
                        client_Eval)).
Proof.
  apply (reply_fulfils_waiting_Eval
           (after [(1%nat, env_ok); (1%nat, env_ok); (0%nat, env_ok)] client_Eval)
           0 1 0 title_reply (env_reply 1 title_reply) env_ok env_ok
           (env_reply 1 title_reply));
    vm_compute; reflexivity.
Defined.

Lemma reply_without_slot_is_dropped_witness :
  run [(0%nat, env_reply 1 title_reply); (0%nat, env_ok); (0%nat, env_ok)]
    (after [(0%nat, env_ok)] client_Eval)
  = Some {| sess := sess (after [(0%nat, env_ok)] client_Eval);
            threads := <[0%nat := T_handleResponse D_select]>
                         (threads (after [(0%nat, env_ok)] client_Eval)) |}.
Proof.
  apply (reply_without_slot_is_dropped (after [(0%nat, env_ok)] client_Eval) 0
           title_reply (env_reply 1 title_reply) env_ok env_ok);
    vm_compute; reflexivity.
Defined.

Lemma Eval_waits_forever_without_dispatcher_witness :
  threads (after [(3%nat, env_ok); (3%nat, env_ok)]
             (after sched_Eval_Kill client_Eval_Kill_Bind)) !! 1%nat
  = Some (T_Eval (E_wait 0)).
Proof.
  apply (Eval_waits_forever_without_dispatcher client_Eval_Kill_Bind
           (after sched_Eval_Kill client_Eval_Kill_Bind) sched_Eval_Kill 1 0)
    with (sched' := [(3%nat, env_ok); (3%nat, env_ok)]);
    vm_compute; reflexivity.
Defined.

Lemma Kill_blocks_with_undelivered_reply_witness :
  threads (after sched_frame_then_Kill client_Kill) !! 1%nat = Some (T_Kill K_wait)
  /\ threads (after sched_frame_then_Kill client_Kill) !! 0%nat
     = Some (T_handleResponse (D_lock title_reply)).
Proof.
  apply (Kill_blocks_with_undelivered_reply client_Kill
           (after sched_frame_then_Kill client_Kill) sched_frame_then_Kill 1 0
           title_reply) with (sched' := []);
    vm_compute; reflexivity.
Defined.

Lemma Kill_stops_receiving_dispatcher_witness :
  exists c' err,
    run [(1%nat, env_ok); (1%nat, env_ok); (0%nat, env_ok); (0%nat, env_ok);
         (1%nat, env_ok)] (after [(0%nat, env_ok)] client_Kill) = Some c'
    /\ threads c' !! 0%nat = Some (T_handleResponse D_return)
    /\ threads c' !! 1%nat = Some (T_Kill (K_return err))
    /\ Done (sess c') = true /\ Ws (sess c') = Some ConnClosed
    /\ Wg (sess c') = 0%nat /\ mu (sess c') = false
    /\ Pending (sess c') = Pending (sess (after [(0%nat, env_ok)] client_Kill)).
Proof.
  apply (Kill_stops_receiving_dispatcher (after [(0%nat, env_ok)] client_Kill) 0 1
           ConnOpen env_ok env_ok env_ok env_ok env_ok);
    vm_compute; reflexivity.
Defined.


Lemma Kill_error_means_process_ended_witness :
  (exists p cause,
      Cmd_Process started = Some p /\ running p = true
      /\ env_kill env_kill_fails = Some cause /\ env_signal env_kill_fails = None
      /\ wrapError "failed to kill browser process: " (Errorf "Access is denied.")
         = wrapError "failed to kill browser process: " cause
      /\ Cmd_Process (set_Process (Some {| Pid := 4242; running := false |}) started)
         = Some {| Pid := Pid p; running := false |})
  /\ process_gone (set_Process (Some {| Pid := 4242; running := false |}) started) = true
  /\ mu (set_Process (Some {| Pid := 4242; running := false |}) started) = false.
Proof.
  apply (Kill_error_means_process_ended env_kill_fails started
           (set_Process (Some {| Pid := 4242; running := false |}) started)
           (wrapError "failed to kill browser process: " (Errorf "Access is denied."))).
  reflexivity.
Defined.

Lemma binding_is_never_replaced_witness :
  Bindings (sess (after [(0%nat, env_ok); (0%nat, env_ok)] client_Bind)) !! "title"
  = Some sample_binding.
Proof.
  apply (binding_is_never_replaced client_Bind
           (after [(0%nat, env_ok); (0%nat, env_ok)] client_Bind)
           [(0%nat, env_ok); (0%nat, env_ok)] "title" sample_binding);
    vm_compute; reflexivity.
Defined.

Lemma process_spawned_at_most_once_witness :
  spawns (sess (after sched_Start_Start client_Start_Start))
  = b2n (bool_decide (is_Some (Cmd_Process (sess (after sched_Start_Start
                                                     client_Start_Start)))))
  /\ (spawns (sess (after sched_Start_Start client_Start_Start)) <= 1)%nat
  /\ (is_Some (Cmd_Process (sess client_Start_Start)) ->
      is_Some (Cmd_Process (sess (after sched_Start_Start client_Start_Start)))
      /\ spawns (sess (after sched_Start_Start client_Start_Start))
         = spawns (sess client_Start_Start)).
Proof.
  apply (process_spawned_at_most_once client_Start_Start
           (after sched_Start_Start client_Start_Start) sched_Start_Start);
    vm_compute; reflexivity.
Defined.

Lemma FindPath_scans_in_order_witness :
  (os_GOOS windows_with_chrome <> "windows" ->
     Chrome_FindPath windows_with_chrome
     = inl (Errorf ("unsupported OS: " +:+ os_GOOS windows_with_chrome))
     /\ Firefox_FindPath windows_with_chrome
        = inl (Errorf ("unsupported OS: " +:+ os_GOOS windows_with_chrome)))
  /\ (os_GOOS windows_with_chrome = "windows" ->
      (forall p,
          Chrome_FindPath windows_with_chrome = inr p <->
          exists i q, Chrome_paths windows_with_chrome !! i = Some q
                      /\ p = os_ExpandEnv windows_with_chrome q
                      /\ os_Stat windows_with_chrome p = true
                      /\ forall j q', (j < i)%nat ->
                                      Chrome_paths windows_with_chrome !! j = Some q' ->
                                      os_Stat windows_with_chrome
                                        (os_ExpandEnv windows_with_chrome q') = false)
      /\ (Chrome_FindPath windows_with_chrome = inl (Errorf "could not find Chrome binary") <->
          forall q, q ∈ Chrome_paths windows_with_chrome ->
                    os_Stat windows_with_chrome (os_ExpandEnv windows_with_chrome q) = false)
      /\ (forall p,
          Firefox_FindPath windows_with_chrome = inr p <->
          exists i q, Firefox_paths windows_with_chrome !! i = Some q
                      /\ p = os_ExpandEnv windows_with_chrome q
                      /\ os_Stat windows_with_chrome p = true
                      /\ forall j q', (j < i)%nat ->
                                      Firefox_paths windows_with_chrome !! j = Some q' ->
                                      os_Stat windows_with_chrome
                                        (os_ExpandEnv windows_with_chrome q') = false)
      /\ (Firefox_FindPath windows_with_chrome
          = inl (Errorf "could not find Firefox binary") <->
          forall q, q ∈ Firefox_paths windows_with_chrome ->
                    os_Stat windows_with_chrome (os_ExpandEnv windows_with_chrome q) = false)).
Proof.
  apply (FindPath_scans_in_order windows_with_chrome). reflexivity.
Defined.

Lemma FindPath_after_Setenv_witness :
  Chrome_FindPath
    (Setenv "MAJORCA_BROWSER" "C:\Program Files\Google\Chrome\Application\chrome.exe"
       windows_with_chrome)
  = inr "C:\Program Files\Google\Chrome\Application\chrome.exe"
  /\ Firefox_FindPath
       (Setenv "MAJORCA_BROWSER" "C:\Program Files\Google\Chrome\Application\chrome.exe"
          windows_with_chrome)
     = inr "C:\Program Files\Google\Chrome\Application\chrome.exe".
Proof.
  apply (FindPath_after_Setenv windows_with_chrome
           "C:\Program Files\Google\Chrome\Application\chrome.exe");
    [discriminate|reflexivity].
Defined.

Lemma Firefox_Kill_removes_profile_after_Kill_witness :
  Done (fx_base firefox_killed) = true /\ Ws (fx_base firefox_killed) <> Some ConnOpen
  /\ mu (fx_base firefox_killed) = false
  /\ fx_profile firefox_killed = fx_profile firefox_started
  /\ exists kerr,
      Kill_call env_ok (fx_base firefox_started) = Some (fx_base firefox_killed, kerr)
      /\ (@None error = None <-> kerr = None /\ @None error = None)
      /\ (@None error = None -> fx_profile_on_disk firefox_killed = false)
      /\ (@None error <> None ->
          fx_profile_on_disk firefox_killed = fx_profile_on_disk firefox_started)
      /\ (forall k, kerr = Some k -> @None error = Some k).
Proof.
  apply (Firefox_Kill_removes_profile_after_Kill env_ok None firefox_started
           firefox_killed None).
  vm_compute; reflexivity.
Defined.

(** The first Chrome candidate does not exist on [windows_with_chrome], the
    second does. *)
Example Chrome_FindPath_second_candidate :
  Chrome_FindPath windows_with_chrome
  = inr "C:\Program Files\Google\Chrome\Application\chrome.exe"
  /\ Firefox_FindPath windows_with_chrome
     = inl (Errorf "could not find Firefox binary").
Proof. split; reflexivity. Qed.
